(** * ordres: splitting a trade volume into randomized limit orders

    A shallow embedding of [orders.py] and the properties of its
    partitioner ([split_int_quantity]), order generator
    ([generate_orders]) and retrying wrappers around the exchange client.

    Python [int] is [Z].  Python [float] is IEEE-754 binary64: a finite
    float is modelled by the rational it denotes, and every arithmetic
    operation rounds the exact result to the nearest representable value
    (ties to even), overflowing to an infinity.  Signed zeros are not
    distinguished; nothing in the program observes the sign of a zero.

    The program runs in a state-and-exception monad.  What it takes from
    outside (the global random generator, [uuid.uuid4], [math.log10],
    the parsers of [float(str)] and [int(str)], the exchange client) is
    an environment of oracles, over which every statement quantifies; the
    state counts the draws made and logs the calls to the exchange.
    Logging has no effect on the results and is left out. *)

From Stdlib Require Import ZArith QArith Qround Qabs Qpower Lia Lqa.
From Stdlib Require Import List String Ascii Bool.
Import ListNotations.

Local Open Scope Z_scope.

(** ** Exceptions and results *)

Inductive exn : Type :=
| AssertionError
| ZeroDivisionError
| OverflowError
| ValueError
| TypeError
| AttributeError
| KeyError
| BinanceAPIException (message : string)
| OtherException.

Inductive result (A : Type) : Type :=
| Ok (a : A)
| Raise (e : exn).

Arguments Ok {A} a.
Arguments Raise {A} e.

(** ** Binary64 arithmetic *)

Module Float.

Inductive float : Type :=
| Fin (q : Q)
| Inf (negative : bool)
| NaN.

(** [ilog2 a] is the binary exponent of a positive rational:
    [2 ^ ilog2 a <= a < 2 ^ (ilog2 a + 1)]. *)
Definition ilog2 (a : Q) : Z :=
  if Qle_bool 1 a then Z.log2 (Qfloor a)
  else - Z.log2_up (Qceiling (/ a)).

(** Nearest integer, ties to the even one. *)
Definition rhe (x : Q) : Z :=
  let f := Qfloor x in
  match (x - inject_Z f ?= 1 # 2)%Q with
  | Lt => f
  | Gt => f + 1
  | Eq => if Z.even f then f else f + 1
  end.

(** Spacing of the doubles around a positive rational: 53 significant
    bits, exponents from -1022 up (subnormals share the lowest one). *)
Definition quantum (a : Q) : Q := (2 ^ (Z.max (ilog2 a) (-1022) - 52))%Q.

Definition rnd_pos (a : Q) : Q := (inject_Z (rhe (a / quantum a)) * quantum a)%Q.

(** Round to nearest double, exponent unbounded above. *)
Definition rnd (x : Q) : Q :=
  match (x ?= 0)%Q with
  | Eq => 0%Q
  | Gt => rnd_pos x
  | Lt => (- rnd_pos (- x))%Q
  end.

Definition huge : Q := (2 ^ 1024)%Q.

Definition round64 (x : Q) : float :=
  let y := rnd x in
  if Qle_bool huge y then Inf false
  else if Qle_bool y (- huge) then Inf true
  else Fin y.

Definition fneg (a : float) : float :=
  match a with
  | Fin x => Fin (- x)
  | Inf s => Inf (negb s)
  | NaN => NaN
  end.

Definition fadd (a b : float) : float :=
  match a, b with
  | NaN, _ | _, NaN => NaN
  | Fin x, Fin y => round64 (x + y)
  | Fin _, Inf s | Inf s, Fin _ => Inf s
  | Inf s, Inf t => if Bool.eqb s t then Inf s else NaN
  end.

Definition fsub (a b : float) : float := fadd a (fneg b).

Definition inf_times (s : bool) (x : Q) : float :=
  match (x ?= 0)%Q with
  | Eq => NaN
  | Gt => Inf s
  | Lt => Inf (negb s)
  end.

Definition fmul (a b : float) : float :=
  match a, b with
  | NaN, _ | _, NaN => NaN
  | Fin x, Fin y => round64 (x * y)
  | Fin x, Inf s | Inf s, Fin x => inf_times s x
  | Inf s, Inf t => Inf (xorb s t)
  end.

Definition is_zero (a : float) : bool :=
  match a with
  | Fin x => Qeq_bool x 0
  | _ => false
  end.

(** [a / b] on floats: Python raises on a zero divisor. *)
Definition fdiv (a b : float) : result float :=
  if is_zero b then Raise ZeroDivisionError
  else Ok match a, b with
          | NaN, _ | _, NaN => NaN
          | Fin x, Fin y => round64 (x / y)
          | Fin _, Inf _ => Fin 0
          | Inf s, Fin y => inf_times s y
          | Inf _, Inf _ => NaN
          end.

(** Conversion of an [int] operand in mixed arithmetic. *)
Definition of_int (z : Z) : result float :=
  match round64 (inject_Z z) with
  | Inf _ => Raise OverflowError
  | f => Ok f
  end.

(** [a / b] on ints: the correctly rounded quotient. *)
Definition true_div (a b : Z) : result float :=
  if b =? 0 then Raise ZeroDivisionError
  else match round64 (inject_Z a / inject_Z b) with
       | Inf _ => Raise OverflowError
       | f => Ok f
       end.

Definition Qtrunc (x : Q) : Z :=
  if Qle_bool 0 x then Qfloor x else Qceiling x.

(** [int(a)]: truncation toward zero. *)
Definition to_int (a : float) : result Z :=
  match a with
  | Fin x => Ok (Qtrunc x)
  | Inf _ => Raise OverflowError
  | NaN => Raise ValueError
  end.

(** [round(a, ndigits)]: the double nearest to the decimal obtained by
    rounding the exact value of [a] to [ndigits] places, ties to even. *)
Definition round_ndigits (a : float) (ndigits : Z) : result float :=
  match a with
  | Fin x =>
      if 323 <? ndigits then Ok a
      else if ndigits <? -308 then Ok (Fin 0)
      else match round64 (inject_Z (rhe (x * 10 ^ ndigits)) / 10 ^ ndigits) with
           | Inf _ => Raise OverflowError
           | f => Ok f
           end
  | _ => Ok a
  end.

End Float.

(** ** Python values returned by the exchange client *)

#[local] Unset Elimination Schemes.

Inductive pyval : Type :=
| VNone
| VBool (b : bool)
| VInt (z : Z)
| VFloat (f : Float.float)
| VStr (s : string)
| VList (l : list pyval)
| VDict (d : list (string * pyval)).

#[local] Set Elimination Schemes.

(** A [dict] with string keys, in insertion order. *)
Definition pydict : Type := list (string * pyval).

Fixpoint dict_get (d : pydict) (k : string) : option pyval :=
  match d with
  | [] => None
  | (k', v) :: d' => if String.eqb k' k then Some v else dict_get d' k
  end.

(** [k in d] *)
Definition dict_mem (d : pydict) (k : string) : bool :=
  match dict_get d k with
  | Some _ => true
  | None => false
  end.

(** [d[k]] *)
Definition dict_item (d : pydict) (k : string) : result pyval :=
  match dict_get d k with
  | Some v => Ok v
  | None => Raise KeyError
  end.

(** ** Data classes *)

Inductive Side : Type := SELL | BUY.

Definition Side_name (s : Side) : string :=
  match s with
  | SELL => "SELL"
  | BUY => "BUY"
  end.

Record Constraints : Type := {
  quantity_precision : Z;
  quantity_step_size : Float.float;
  price_step_size : Float.float
}.

Record Request : Type := {
  req_symbol : string;
  usd_vol : Float.float;
  usd_diff : Float.float;
  splits : Z;
  req_side : Side;
  min_price : Float.float;
  max_price : Float.float
}.

Record CreationStatus : Type := {
  requested_base_quantity : Float.float;
  actual_base_quantity : Float.float
}.

Record Order : Type := {
  order_id : string;
  symbol : string;
  time_in_force : string;
  quantity : Float.float;
  price : Float.float;
  side : Side;
  type : string
}.

(** Modelled from the spec: the client library's constants
    [Client.TIME_IN_FORCE_GTC] and [Client.ORDER_TYPE_LIMIT], which the
    spec gives as ["GTC"] and ["LIMIT"]. *)
Definition TIME_IN_FORCE_GTC : string := "GTC".
Definition ORDER_TYPE_LIMIT : string := "LIMIT".

(** ** The environment of a run *)

(** Keyword arguments of one [client.create_order] call. *)
Record order_call : Type := {
  newClientOrderId : string;
  call_type : string;
  call_symbol : string;
  call_side : string;
  timeInForce : string;
  call_quantity : Float.float;
  call_price : Float.float
}.

Inductive api_call : Type :=
| CallCreateOrder (args : order_call)
| CallGetAvgPrice (sym : string)
| CallGetSymbolInfo (sym : string).

(** Everything the program draws from outside: the global random
    generator, the UUID generator, [math.log10], the parsers behind
    [float(str)] and [int(str)], and the exchange client.  A client
    method sees the number of API calls made before it, so its answer
    may change from one attempt to the next. *)
Record env : Type := {
  rand_source : nat -> Z;
  uuid_source : nat -> string;
  math_log10 : Float.float -> result Float.float;
  float_of_str : string -> option Float.float;
  int_of_str : string -> option Z;
  client_create_order : nat -> order_call -> result unit;
  client_get_avg_price : nat -> string -> result pydict;
  client_get_symbol_info : nat -> string -> result (option pydict)
}.

Record world : Type := {
  rand_used : nat;
  uuid_used : nat;
  api_log : list api_call
}.

Definition initial_world : world :=
  {| rand_used := 0; uuid_used := 0; api_log := [] |}.

(** ** The state-and-exception monad *)

Definition M (A : Type) : Type := world -> result A * world.

Definition ret {A} (a : A) : M A := fun w => (Ok a, w).

Definition raise {A} (e : exn) : M A := fun w => (Raise e, w).

Definition bind {A B} (c : M A) (k : A -> M B) : M B :=
  fun w =>
    match c w with
    | (Ok a, w') => k a w'
    | (Raise e, w') => (Raise e, w')
    end.

Definition lift {A} (r : result A) : M A := fun w => (r, w).

Notation "x <- c ;; k" := (bind c (fun x => k))
  (at level 61, c at next level, right associativity).
Notation "c ;;; k" := (bind c (fun _ => k))
  (at level 61, right associativity).

(** [try: body except Exception: handler] *)
Definition try_except {A} (body : M A) (handler : exn -> M A) : M A :=
  fun w =>
    match body w with
    | (Ok a, w') => (Ok a, w')
    | (Raise e, w') => handler e w'
    end.

Definition bind_result {A B} (r : result A) (k : A -> result B) : result B :=
  match r with
  | Ok a => k a
  | Raise e => Raise e
  end.

Definition assert_ (b : bool) : M unit :=
  if b then ret tt else raise AssertionError.

(** [range(a, b)] *)
Definition range (a b : Z) : list Z :=
  map (fun k => a + Z.of_nat k) (seq 0 (Z.to_nat (b - a))).

Section Program.

Variable E : env.

(** ** Library calls *)

(** [random.randint(a, b)]: some integer of [a..b]; an empty range is a
    [ValueError]. *)
Definition randint (a b : Z) : M Z :=
  fun w =>
    if b <? a then (Raise ValueError, w)
    else (Ok (a + rand_source E (rand_used w) mod (b - a + 1)),
          {| rand_used := S (rand_used w);
             uuid_used := uuid_used w;
             api_log := api_log w |}).

(** [str(uuid.uuid4())] *)
Definition uuid4_str : M string :=
  fun w =>
    (Ok (uuid_source E (uuid_used w)),
     {| rand_used := rand_used w;
        uuid_used := S (uuid_used w);
        api_log := api_log w |}).

Definition api (c : api_call) {A} (answer : nat -> result A) : M A :=
  fun w =>
    (answer (List.length (api_log w)),
     {| rand_used := rand_used w;
        uuid_used := uuid_used w;
        api_log := api_log w ++ [c] |}).

(** [float(v)] *)
Definition py_float (v : pyval) : result Float.float :=
  match v with
  | VFloat f => Ok f
  | VInt z => Float.of_int z
  | VBool b => Ok (Float.Fin (if b then 1 else 0))
  | VStr s => match float_of_str E s with
              | Some f => Ok f
              | None => Raise ValueError
              end
  | _ => Raise TypeError
  end.

(** [int(v)] *)
Definition py_int (v : pyval) : result Z :=
  match v with
  | VInt z => Ok z
  | VBool b => Ok (if b then 1 else 0)
  | VFloat f => Float.to_int f
  | VStr s => match int_of_str E s with
              | Some z => Ok z
              | None => Raise ValueError
              end
  | _ => Raise TypeError
  end.

(** [f * i] and [i * f] with an [int] operand [i]. *)
Definition fmul_int (f : Float.float) (i : Z) : result Float.float :=
  bind_result (Float.of_int i) (fun fi => Ok (Float.fmul f fi)).

(** [f / i] with an [int] divisor. *)
Definition fdiv_int (f : Float.float) (i : Z) : result Float.float :=
  bind_result (Float.of_int i) (fun fi => Float.fdiv f fi).

(** [i / f] with an [int] dividend. *)
Definition int_fdiv (i : Z) (f : Float.float) : result Float.float :=
  bind_result (Float.of_int i) (fun fi => Float.fdiv fi f).

(** ** Binance API wrapper (for retries) *)

Definition MAX_RETRIES : Z := 3.

(** The keyword arguments [create_order_with_retries] passes for an
    order; [newClientOrderId] is the order's own identifier. *)
Definition order_args (order : Order) : order_call :=
  {| newClientOrderId := order_id order;
     call_type := type order;
     call_symbol := symbol order;
     call_side := Side_name (side order);
     timeInForce := time_in_force order;
     call_quantity := quantity order;
     call_price := price order |}.

Definition place (order : Order) : M unit :=
  api (CallCreateOrder (order_args order))
      (fun n => client_create_order E n (order_args order)).

Definition filled (order : Order) : CreationStatus :=
  {| requested_base_quantity := quantity order;
     actual_base_quantity := quantity order |}.

Definition is_duplicate (e : exn) : bool :=
  match e with
  | BinanceAPIException m => String.eqb m "Duplicate order sent."
  | _ => false
  end.

(** The body of [for i in range(MAX_RETRIES)] over the remaining values
    of [i], followed by the statement after the loop. *)
Fixpoint create_order_attempts (order : Order) (attempts : list Z)
  : M CreationStatus :=
  match attempts with
  | [] => ret {| requested_base_quantity := quantity order;
                 actual_base_quantity := Float.Fin 0 |}
  | _ :: rest =>
      try_except
        (place order ;;; ret (filled order))
        (fun e =>
           if is_duplicate e then ret (filled order)
           else create_order_attempts order rest)
  end.

Definition create_order_with_retries (order : Order) : M CreationStatus :=
  create_order_attempts order (range 0 MAX_RETRIES).

(** Falling out of the loop ends the function without a [return]: the
    caller receives [None]. *)
Fixpoint get_avg_price_attempts (sym : string) (attempts : list Z)
  : M (option Float.float) :=
  match attempts with
  | [] => ret None
  | _ :: rest =>
      try_except
        (dict <- api (CallGetAvgPrice sym)
                     (fun n => client_get_avg_price E n sym) ;;
         result <- lift (bind_result (dict_item dict "price") py_float) ;;
         ret (Some result))
        (fun _ => get_avg_price_attempts sym rest)
  end.

Definition get_avg_price_with_retries (sym : string) : M (option Float.float) :=
  get_avg_price_attempts sym (range 0 MAX_RETRIES).

(** [filter['filterType'] == name] for an element of [dict['filters']]. *)
Definition filter_has_type (name : string) (filter : pyval) : result bool :=
  match filter with
  | VDict d =>
      bind_result (dict_item d "filterType")
        (fun t => Ok match t with
                     | VStr s => String.eqb s name
                     | _ => false
                     end)
  | _ => Raise TypeError
  end.

(** [next((filter for filter in filters if filter['filterType'] == name),
    None)] over the elements of a list. *)
Fixpoint first_filter (name : string) (filters : list pyval)
  : result (option pydict) :=
  match filters with
  | [] => Ok None
  | filter :: rest =>
      bind_result (filter_has_type name filter)
        (fun b =>
           if b then
             match filter with
             | VDict d => Ok (Some d)
             | _ => Ok None
             end
           else first_filter name rest)
  end.

(** Iterating [dict['filters']]: a list yields its elements, a dict its
    keys and a string its characters (on which the subscript fails);
    anything else is not iterable. *)
Definition find_filter (name : string) (filters : pyval)
  : result (option pydict) :=
  match filters with
  | VList l => first_filter name l
  | VDict [] => Ok None
  | VStr EmptyString => Ok None
  | _ => Raise TypeError
  end.

Definition default_constraints : Constraints :=
  {| quantity_precision := 8;
     quantity_step_size := Float.round64 (1 # 1000000);
     price_step_size := Float.round64 (1 # 100) |}.

Definition set_quantity_precision (c : Constraints) (p : Z) : Constraints :=
  {| quantity_precision := p;
     quantity_step_size := quantity_step_size c;
     price_step_size := price_step_size c |}.

Definition set_quantity_step_size (c : Constraints) (s : Float.float)
  : Constraints :=
  {| quantity_precision := quantity_precision c;
     quantity_step_size := s;
     price_step_size := price_step_size c |}.

Definition set_price_step_size (c : Constraints) (s : Float.float)
  : Constraints :=
  {| quantity_precision := quantity_precision c;
     quantity_step_size := quantity_step_size c;
     price_step_size := s |}.

(** The statements between the client call and [return result]. *)
Definition extract_constraints (dict : option pydict) : result Constraints :=
  let result := default_constraints in
  match dict with
  | None | Some [] => Ok result
  | Some d =>
      bind_result
        (if dict_mem d "baseAssetPrecision" then
           bind_result (dict_item d "baseAssetPrecision")
             (fun v => bind_result (py_int v)
                (fun p => Ok (set_quantity_precision result p)))
         else Ok result)
        (fun result =>
           if dict_mem d "filters" then
             bind_result (dict_item d "filters") (fun filters =>
             bind_result (find_filter "LOT_SIZE" filters) (fun lot_size_filter =>
             bind_result
               (match lot_size_filter with
                | Some f =>
                    if dict_mem f "stepSize" then
                      bind_result (dict_item f "stepSize")
                        (fun v => bind_result (py_float v)
                           (fun s => Ok (set_quantity_step_size result s)))
                    else Ok result
                | None => Ok result
                end)
               (fun result =>
             bind_result (find_filter "PRICE_FILTER" filters) (fun price_filter =>
               match price_filter with
               | Some f =>
                   if dict_mem f "tickSize" then
                     bind_result (dict_item f "tickSize")
                       (fun v => bind_result (py_float v)
                          (fun s => Ok (set_price_step_size result s)))
                   else Ok result
               | None => Ok result
               end))))
           else Ok result)
  end.

Fixpoint get_symbol_info_attempts (sym : string) (attempts : list Z)
  : M (option Constraints) :=
  match attempts with
  | [] => ret None
  | _ :: rest =>
      try_except
        (dict <- api (CallGetSymbolInfo sym)
                     (fun n => client_get_symbol_info E n sym) ;;
         result <- lift (extract_constraints dict) ;;
         ret (Some result))
        (fun _ => get_symbol_info_attempts sym rest)
  end.

Definition get_symbol_info_with_retries (sym : string)
  : M (option Constraints) :=
  get_symbol_info_attempts sym (range 0 MAX_RETRIES).


(** ** Application logic *)

Definition make_even (diff : Z) : Z :=
  if diff mod 2 =? 1 then diff - 1 else diff.

(** One round of the loop of [split_int_quantity]: the cut point drawn
    for index [i]. *)
Definition cut_point (step : Float.float) (diff i : Z) : M Z :=
  step_i <- lift (fmul_int step i) ;;
  half_diff <- lift (int_fdiv diff (Float.Fin 2)) ;;
  let min_v := Float.fsub step_i half_diff in
  step_i' <- lift (fmul_int step i) ;;
  half_diff' <- lift (int_fdiv diff (Float.Fin 2)) ;;
  let max_v := Float.fadd step_i' half_diff' in
  lo <- lift (Float.to_int min_v) ;;
  hi <- lift (Float.to_int max_v) ;;
  randint lo hi.

Fixpoint cut_points (step : Float.float) (diff : Z) (indices : list Z)
    (values : list Z) : M (list Z) :=
  match indices with
  | [] => ret values
  | i :: rest =>
      v <- cut_point step diff i ;;
      cut_points step diff rest (values ++ [v])
  end.

(** [[values[i] - values[i - 1] for i in range(1, len(values))]] *)
Definition differences (values : list Z) : list Z :=
  map (fun i => nth (Z.to_nat i) values 0 - nth (Z.to_nat (i - 1)) values 0)
      (range 1 (Z.of_nat (List.length values))).

Definition split_int_quantity (total num_of_parts diff : Z) : M (list Z) :=
  assert_ (num_of_parts <=? total) ;;;
  step <- lift (Float.true_div total num_of_parts) ;;
  half_step <- lift (bind_result (fdiv_int step 2) Float.to_int) ;;
  let diff := make_even (Z.min diff half_step) in
  values <- cut_points step diff (range 1 num_of_parts) [0] ;;
  let values := values ++ [total] in
  ret (differences values).

(** [int(a / step)]: the number of whole steps in [a]. *)
Definition step_count (a step : Float.float) : result Z :=
  bind_result (Float.fdiv a step) Float.to_int.

(** [int(-math.log10(step)) + 2] *)
Definition price_digits (step : Float.float) : result Z :=
  bind_result (math_log10 E step)
    (fun l => bind_result (Float.to_int (Float.fneg l)) (fun d => Ok (d + 2))).

(** [round(int_quantity * quantity_step_size, quantity_precision)] *)
Definition dequantized_quantity (constraints : Constraints) (int_quantity : Z)
  : result Float.float :=
  bind_result (fmul_int (quantity_step_size constraints) int_quantity)
    (fun q => Float.round_ndigits q (quantity_precision constraints)).

(** [round(int_price * price_step_size,
          int(-math.log10(price_step_size)) + 2)] *)
Definition dequantized_price (constraints : Constraints) (int_price : Z)
  : result Float.float :=
  bind_result (fmul_int (price_step_size constraints) int_price)
    (fun p => bind_result (price_digits (price_step_size constraints))
       (fun digits => Float.round_ndigits p digits)).

(** The body of the loop of [generate_orders] for one part. *)
Definition make_order (req : Request) (constraints : Constraints)
    (int_quantity : Z) : M Order :=
  quantity <- lift (dequantized_quantity constraints int_quantity) ;;
  int_min_price <- lift (step_count (min_price req) (price_step_size constraints)) ;;
  int_max_price <- lift (step_count (max_price req) (price_step_size constraints)) ;;
  int_price <- randint int_min_price int_max_price ;;
  price <- lift (dequantized_price constraints int_price) ;;
  id <- uuid4_str ;;
  ret {| order_id := id;
         symbol := req_symbol req;
         time_in_force := TIME_IN_FORCE_GTC;
         quantity := quantity;
         price := price;
         side := req_side req;
         type := ORDER_TYPE_LIMIT |}.

Fixpoint make_orders (req : Request) (constraints : Constraints)
    (int_quantities : list Z) (result : list Order) : M (list Order) :=
  match int_quantities with
  | [] => ret result
  | int_quantity :: rest =>
      order <- make_order req constraints int_quantity ;;
      make_orders req constraints rest (result ++ [order])
  end.

Definition generate_orders (req : Request) (avg_price : Float.float)
    (constraints : Constraints) : M (list Order) :=
  base_quantity <- lift (Float.fdiv (usd_vol req) avg_price) ;;
  int_base_quantity <- lift (step_count base_quantity
                                        (quantity_step_size constraints)) ;;
  base_quantity_diff <- lift (Float.fdiv (usd_diff req) avg_price) ;;
  int_base_quantity_diff <- lift (step_count base_quantity_diff
                                             (quantity_step_size constraints)) ;;
  parts <- split_int_quantity int_base_quantity (splits req)
                              int_base_quantity_diff ;;
  make_orders req constraints parts [].

(** The call [generate_orders(req, avg_price, constraints)] as
    [process_request] makes it, where either argument may be [None]:
    dividing by [None] is a [TypeError], reading an attribute of [None]
    an [AttributeError]. *)
Definition generate_orders_call (req : Request)
    (avg_price : option Float.float) (constraints : option Constraints)
  : M (list Order) :=
  match avg_price with
  | None => raise TypeError
  | Some avg =>
      match constraints with
      | Some c => generate_orders req avg c
      | None =>
          lift (Float.fdiv (usd_vol req) avg) ;;; raise AttributeError
      end
  end.

Fixpoint submit_orders (orders : list Order) (result : CreationStatus)
  : M CreationStatus :=
  match orders with
  | [] => ret result
  | order :: rest =>
      sub_result <- create_order_with_retries order ;;
      let actual := Float.fadd (actual_base_quantity result)
                               (actual_base_quantity sub_result) in
      let requested := Float.fadd (requested_base_quantity result)
                                  (requested_base_quantity sub_result) in
      submit_orders rest {| requested_base_quantity := requested;
                            actual_base_quantity := actual |}
  end.

Definition process_request (req : Request) : M CreationStatus :=
  avg_price <- get_avg_price_with_retries (req_symbol req) ;;
  constraints <- get_symbol_info_with_retries (req_symbol req) ;;
  orders <- generate_orders_call req avg_price constraints ;;
  submit_orders orders {| requested_base_quantity := Float.Fin 0;
                          actual_base_quantity := Float.Fin 0 |}.

End Program.

(** ** Vocabulary of the statements *)

(** The world after [n] more draws from the random generator. *)
Definition advance_rand (n : nat) (w : world) : world :=
  {| rand_used := n + rand_used w;
     uuid_used := uuid_used w;
     api_log := api_log w |}.

(** [sum(l)] *)
Definition zsum (l : list Z) : Z := fold_right Z.add 0 l.

(** Differences of neighbours, by recursion on the list. *)
Fixpoint deltas (l : list Z) : list Z :=
  match l with
  | a :: (b :: _) as t => (b - a) :: deltas t
  | _ => []
  end.

(** Unit roundoff of binary64 and half the smallest subnormal. *)
Definition u53 : Q := (2 ^ (-53))%Q.
Definition eta : Q := (2 ^ (-1075))%Q.

Section PartitionVocabulary.

Variables T P : Z.

(** What the partitioner needs of the float [step = total / parts]:
    it is the rounded quotient, and exact when the quotient is whole. *)
Definition step_spec (s : Q) : Prop :=
  (inject_Z T / inject_Z P - (u53 * (inject_Z T / inject_Z P) + eta) <= s
     <= inject_Z T / inject_Z P + (u53 * (inject_Z T / inject_Z P) + eta))%Q /\
  (T mod P = 0 -> (s == inject_Z (T / P))%Q).

(** The product [step * i] computed in floats. *)
Definition product_spec (i : Z) (p : Q) : Prop :=
  (inject_Z T / inject_Z P * inject_Z i
     - (3 * u53 * inject_Z T + 2 * inject_Z P * eta) <= p
     <= inject_Z T / inject_Z P * inject_Z i
        + (3 * u53 * inject_Z T + 2 * inject_Z P * eta))%Q /\
  (T mod P = 0 -> (p == inject_Z (T / P * i))%Q).

(** Slack of a cut point below its ideal position: none when the step
    is a whole number, otherwise less than one. *)
Definition slack : Z := if T mod P =? 0 then 0 else P.

(** [v] lies in the window of half-width [d] around [i * T / P]. *)
Definition in_window (d i v : Z) : Prop :=
  P * (v - d) <= T * i <= P * (v + d) + slack.

(** The cut points for consecutive indices starting at [k]. *)
Fixpoint windows (d k : Z) (vs : list Z) : Prop :=
  match vs with
  | [] => True
  | v :: vs' => in_window d k v /\ windows d (k + 1) vs'
  end.

(** The window half-width the partitioner ends up with. *)
Definition half_width (D : Z) : Z := make_even (Z.min D (T / (2 * P))) / 2.

(** Every part lies between [T / P - 2 d] and [T / P + 2 d], plus one
    when the step is not whole. *)
Definition part_range (d e : Z) : Prop :=
  T / P - 2 * d <= e <= T / P + 2 * d + (if T mod P =? 0 then 0 else 1).

(** Distance of a part from the ideal [T / P]. *)
Definition deviation (e : Z) : Q := Qabs (inject_Z e - inject_Z T / inject_Z P).

End PartitionVocabulary.

(** The exchange takes an attempt as placed: it answers normally, or
    with the duplicate-order error. *)
Definition accepted (r : result unit) : bool :=
  match r with
  | Ok _ => true
  | Raise e => is_duplicate e
  end.

(** The answer to the [k]-th attempt (from 0) at placing [order], when
    the attempts start in world [w]. *)
Definition attempt_response (E : env) (order : Order) (w : world) (k : nat)
  : result unit :=
  client_create_order E (List.length (api_log w) + k) (order_args order).

Definition is_create_order (c : api_call) : bool :=
  match c with
  | CallCreateOrder _ => true
  | _ => false
  end.

(** The world after further API calls. *)
Definition extend_log (w : world) (calls : list api_call) : world :=
  {| rand_used := rand_used w;
     uuid_used := uuid_used w;
     api_log := api_log w ++ calls |}.

(** One attempt of [get_avg_price_with_retries], made when [n] API calls
    precede it: the client call and the conversion of its answer. *)
Definition avg_price_attempt (E : env) (sym : string) (n : nat)
  : result Float.float :=
  bind_result (client_get_avg_price E n sym)
    (fun dict => bind_result (dict_item dict "price") (py_float E)).

(** One attempt of [get_symbol_info_with_retries]. *)
Definition symbol_info_attempt (E : env) (sym : string) (n : nat)
  : result Constraints :=
  bind_result (client_get_symbol_info E n sym) (extract_constraints E).

Definition failed {A} (r : result A) : Prop :=
  match r with
  | Ok _ => False
  | Raise _ => True
  end.

(** ** The order generator *)

(** [int((req.usd_vol / avg_price) / quantity_step_size)] and the same
    for [usd_diff]: the total quantity and its allowed variation, in
    quantity steps. *)
Definition int_base_quantity (req : Request) (avg_price : Float.float)
    (c : Constraints) : result Z :=
  bind_result (Float.fdiv (usd_vol req) avg_price)
    (fun base_quantity => step_count base_quantity (quantity_step_size c)).

Definition int_base_quantity_diff (req : Request) (avg_price : Float.float)
    (c : Constraints) : result Z :=
  bind_result (Float.fdiv (usd_diff req) avg_price)
    (fun base_quantity_diff =>
       step_count base_quantity_diff (quantity_step_size c)).

(** The world after an order was made: one random draw for its price
    and one identifier. *)
Definition after_order (w : world) : world :=
  {| rand_used := S (rand_used w);
     uuid_used := S (uuid_used w);
     api_log := api_log w |}.

(** [o] is the order made for [int_quantity] steps with the
    [uuid_index]-th identifier, at a price of some step count between
    [a] and [b]. *)
Definition order_made (E : env) (req : Request) (c : Constraints) (a b : Z)
    (uuid_index : nat) (int_quantity : Z) (o : Order) : Prop :=
  order_id o = uuid_source E uuid_index /\
  symbol o = req_symbol req /\
  time_in_force o = TIME_IN_FORCE_GTC /\
  side o = req_side req /\
  type o = ORDER_TYPE_LIMIT /\
  dequantized_quantity c int_quantity = Ok (quantity o) /\
  exists int_price,
    a <= int_price <= b /\ dequantized_price E c int_price = Ok (price o).

(** The orders made for consecutive parts, with consecutive identifiers
    from the [i]-th on. *)
Fixpoint batch_made (E : env) (req : Request) (c : Constraints) (a b : Z)
    (i : nat) (ks : list Z) (os : list Order) : Prop :=
  match ks, os with
  | [], [] => True
  | k :: ks', o :: os' =>
      order_made E req c a b i k o /\ batch_made E req c a b (S i) ks' os'
  | _, _ => False
  end.

(** ** Exchange metadata, as the spec reads it *)


Definition is_filter_of (name : string) (f : pyval) : bool :=
  match f with
  | VDict fd =>
      match dict_get fd "filterType" with
      | Some (VStr s) => String.eqb s name
      | _ => false
      end
  | _ => false
  end.






(** Metadata whose [filters] entry, if any, is a list of dicts that each
    name their [filterType]. *)
Definition well_formed_filter (f : pyval) : Prop :=
  match f with
  | VDict fd => dict_mem fd "filterType" = true
  | _ => False
  end.


(** ** A concrete environment for the examples *)

(** The scenario of the repository's tests: BTCUSDT at an average price
    of 3.0 with precision 5, quantity step 0.017 and price step 0.07.
    The [n]-th random draw is [n], identifiers are numbered in unary,
    [log10] is taken from the binary exponent, and the client accepts
    every order. *)
Fixpoint nat_digits (n : nat) : string :=
  match n with
  | O => EmptyString
  | S n' => String "1"%char (nat_digits n')
  end.

Definition coarse_log10 (a : Float.float) : result Float.float :=
  match a with
  | Float.Fin q =>
      if Qle_bool q 0 then Raise ValueError
      else Ok (Float.round64 (inject_Z (Float.ilog2 q) * (30103 # 100000)))
  | Float.Inf false => Ok a
  | Float.Inf true => Raise ValueError
  | Float.NaN => Ok a
  end.

Definition sample_float_of_str (s : string) : option Float.float :=
  if String.eqb s "3.0" then Some (Float.Fin 3)
  else if String.eqb s "0.017" then Some (Float.round64 (17 # 1000))
  else if String.eqb s "0.07" then Some (Float.round64 (7 # 100))
  else None.

Definition sample_metadata : pydict :=
  [("symbol", VStr "BTCUSDT");
   ("baseAssetPrecision", VInt 5);
   ("filters",
    VList [VDict [("filterType", VStr "PRICE_FILTER"); ("tickSize", VStr "0.07")];
           VDict [("filterType", VStr "LOT_SIZE"); ("stepSize", VStr "0.017")]])]%string.

Definition sample_env : env :=
  {| rand_source := fun n => Z.of_nat n;
     uuid_source := nat_digits;
     math_log10 := coarse_log10;
     float_of_str := sample_float_of_str;
     int_of_str := fun _ => None;
     client_create_order := fun _ _ => Ok tt;
     client_get_avg_price :=
       fun _ _ => Ok [("mins", VInt 5); ("price", VStr "3.0")]%string;
     client_get_symbol_info := fun _ _ => Ok (Some sample_metadata) |}.

(** The same exchange when its price endpoint is down. *)
Definition price_down_env : env :=
  {| rand_source := rand_source sample_env;
     uuid_source := uuid_source sample_env;
     math_log10 := math_log10 sample_env;
     float_of_str := float_of_str sample_env;
     int_of_str := int_of_str sample_env;
     client_create_order := client_create_order sample_env;
     client_get_avg_price := fun _ _ => Raise OtherException;
     client_get_symbol_info := client_get_symbol_info sample_env |}.

(** The request of the repository's tests. *)
Definition sample_request : Request :=
  {| req_symbol := "BTCUSDT";
     usd_vol := Float.Fin 10;
     usd_diff := Float.Fin 1;
     splits := 3;
     req_side := SELL;
     min_price := Float.Fin 2;
     max_price := Float.Fin 4 |}.

Definition sample_constraints : Constraints :=
  {| quantity_precision := 5;
     quantity_step_size := Float.round64 (17 # 1000);
     price_step_size := Float.round64 (7 # 100) |}.

(** A step that may draw random numbers but neither draws identifiers
    nor calls the exchange. *)
Definition only_random (w w' : world) : Prop :=
  uuid_used w' = uuid_used w /\ api_log w' = api_log w.

(** The fields every generated order takes from the request. *)
Definition carries_request (req : Request) (o : Order) : Prop :=
  symbol o = req_symbol req /\ side o = req_side req /\
  time_in_force o = "GTC"%string /\ type o = "LIMIT"%string.

(** The identifiers drawn from the [i]-th on, one per order. *)
Definition fresh_ids (E : env) (i n : nat) : list string :=
  map (uuid_source E) (seq i n).

(** ** Valid requests and constraints, as the spec's data model has them *)

Definition float_pos (a : Float.float) : bool :=
  match a with
  | Float.Fin q => negb (Qle_bool q 0)
  | _ => false
  end.

Definition float_le (a b : Float.float) : bool :=
  match a, b with
  | Float.Fin x, Float.Fin y => Qle_bool x y
  | _, _ => false
  end.

(** Positive volume, a variation between 0 and the volume, a positive
    number of splits, and [0 < min_price <= max_price]. *)
Definition valid_request (req : Request) : bool :=
  float_pos (usd_vol req) && float_le (Float.Fin 0) (usd_diff req)
  && float_le (usd_diff req) (usd_vol req) && (1 <=? splits req)
  && float_pos (min_price req) && float_le (min_price req) (max_price req).

(** A non-negative precision and positive step sizes. *)
Definition valid_constraints (c : Constraints) : bool :=
  (0 <=? quantity_precision c) && float_pos (quantity_step_size c)
  && float_pos (price_step_size c).

(** ** Further environments and requests for the examples *)

(** The sample exchange when every random draw is the lowest value of
    its range. *)
Definition lowest_draw_env : env :=
  {| rand_source := fun _ => 0;
     uuid_source := uuid_source sample_env;
     math_log10 := math_log10 sample_env;
     float_of_str := float_of_str sample_env;
     int_of_str := int_of_str sample_env;
     client_create_order := client_create_order sample_env;
     client_get_avg_price := client_get_avg_price sample_env;
     client_get_symbol_info := client_get_symbol_info sample_env |}.

(** A valid request for a volume of 0.125: fewer quantity steps than
    splits. *)
Definition small_request : Request :=
  {| req_symbol := "BTCUSDT";
     usd_vol := Float.Fin (1 # 8);
     usd_diff := Float.Fin 0;
     splits := 3;
     req_side := SELL;
     min_price := Float.Fin 2;
     max_price := Float.Fin 4 |}.

(** A volume of 1.5 in three parts, with constraints whose precision (0
    decimals) is coarser than their quantity step (0.5). *)
Definition coarse_request : Request :=
  {| req_symbol := "BTCUSDT";
     usd_vol := Float.Fin (3 # 2);
     usd_diff := Float.Fin 0;
     splits := 3;
     req_side := BUY;
     min_price := Float.Fin 2;
     max_price := Float.Fin 4 |}.

Definition coarse_constraints : Constraints :=
  {| quantity_precision := 0;
     quantity_step_size := Float.Fin (1 # 2);
     price_step_size := Float.Fin (1 # 2) |}.

(** Malformed requests: no splits, a negative number of splits, and
    [min_price = 2.0078125 > max_price = 2]. *)
Definition zero_splits_request : Request :=
  {| req_symbol := "BTCUSDT";
     usd_vol := Float.Fin 10;
     usd_diff := Float.Fin 1;
     splits := 0;
     req_side := SELL;
     min_price := Float.Fin 2;
     max_price := Float.Fin 4 |}.



(** ** The status check: [fuzzy_equals] and [CreationStatus.is_ok] *)

(** [abs(a)] on floats. *)
Definition fabs (a : Float.float) : Float.float :=
  match a with
  | Float.Fin x => Float.Fin (Qabs x)
  | Float.Inf _ => Float.Inf false
  | Float.NaN => Float.NaN
  end.

(** [a <= b] on floats: false as soon as an operand is NaN. *)
Definition fle (a b : Float.float) : bool :=
  match a, b with
  | Float.NaN, _ | _, Float.NaN => false
  | Float.Fin x, Float.Fin y => Qle_bool x y
  | Float.Inf true, _ => true
  | _, Float.Inf false => true
  | Float.Inf false, _ => false
  | Float.Fin _, Float.Inf true => false
  end.

Definition fuzzy_equals (a b tolerance : Float.float) : bool :=
  fle (fabs (Float.fsub a b)) tolerance.

(** The default [tolerance=1e-8]. *)
Definition default_tolerance : Float.float := Float.round64 (1 # 100000000).

Definition is_ok (self : CreationStatus) : bool :=
  fuzzy_equals (requested_base_quantity self) (actual_base_quantity self)
               default_tolerance.

(** ** The checks of [tests.py] *)

(** A [unittest] assertion. *)
Definition assert_that (b : bool) : result unit :=
  if b then Ok tt else Raise AssertionError.

(** [sum(l)]: the entries added from the left, starting with 0. *)
Definition py_sum (l : list Z) : Z := fold_left Z.add l 0.

(** The body of the loop of [check_invariants] for one entry. *)
Definition check_value (expected_sum parts diff val : Z) : result unit :=
  bind_result (assert_that (1 <=? val)) (fun _ =>
  bind_result (Float.true_div expected_sum parts) (fun average =>
  bind_result (Float.of_int val) (fun v =>
  bind_result (Float.to_int (Float.fsub v average)) (fun d =>
  assert_that (Z.abs d <=? diff))))).

Fixpoint check_values (expected_sum parts diff : Z) (actual : list Z)
  : result unit :=
  match actual with
  | [] => Ok tt
  | val :: rest =>
      bind_result (check_value expected_sum parts diff val)
        (fun _ => check_values expected_sum parts diff rest)
  end.

Definition check_invariants (expected_sum parts diff : Z) (actual : list Z)
  : result unit :=
  bind_result (assert_that (Z.of_nat (List.length actual) =? parts)) (fun _ =>
  bind_result (assert_that (expected_sum =? py_sum actual)) (fun _ =>
  check_values expected_sum parts diff actual)).

(** The common body of the test methods of [TestSplitIntQuantity]. *)
Definition split_test (E : env) (sum parts diff : Z) : M unit :=
  actual <- split_int_quantity E sum parts diff ;;
  lift (check_invariants sum parts diff actual).

Definition test_diff_is_zero (E : env) : M unit := split_test E 10 3 0.
Definition test_diff_is_1 (E : env) : M unit := split_test E 10 3 1.
Definition test_diff_is_2 (E : env) : M unit := split_test E 10 3 2.
Definition test_num_of_parts_is_same_as_total_diff_is_5 (E : env) : M unit :=
  split_test E 10 10 5.
Definition test_num_of_parts_is_1_diff_is_2 (E : env) : M unit :=
  split_test E 10 1 5.
Definition test_num_of_parts_is_large (E : env) : M unit :=
  split_test E 1000000 10000 500.

(** ** Further vocabulary *)

(** The floats added from the left, starting with [0.]: how
    [process_request] accumulates a total. *)
Definition float_total (l : list Float.float) : Float.float :=
  fold_left Float.fadd l (Float.Fin 0).

(** The calls made for a list of orders, each attempted the given
    number of times. *)
Definition attempt_calls (l : list (Order * nat)) : list api_call :=
  flat_map (fun p => repeat (CallCreateOrder (order_args (fst p))) (snd p)) l.

(** An exchange that accepts every order at the first attempt, and one
    that refuses every attempt. *)
Definition always_accepts (E : env) : Prop :=
  forall n args, accepted (client_create_order E n args) = true.

Definition never_accepts (E : env) : Prop :=
  forall n args, accepted (client_create_order E n args) = false.

Definition is_finite (a : Float.float) : bool :=
  match a with
  | Float.Fin _ => true
  | _ => false
  end.

(** The exceptions of float and integer arithmetic and of
    [random.randint]. *)
Definition arithmetic_error (e : exn) : bool :=
  match e with
  | ZeroDivisionError | OverflowError | ValueError => true
  | _ => false
  end.

(** The sample exchange on a bad day: every call made after an even
    number of earlier calls fails, orders with a timestamp error. *)
Definition flaky_env : env :=
  {| rand_source := rand_source sample_env;
     uuid_source := uuid_source sample_env;
     math_log10 := math_log10 sample_env;
     float_of_str := float_of_str sample_env;
     int_of_str := int_of_str sample_env;
     client_create_order :=
       fun n args =>
         if Nat.even n
         then Raise (BinanceAPIException "Timestamp for this request is outside of the recvWindow.")
         else client_create_order sample_env n args;
     client_get_avg_price :=
       fun n sym =>
         if Nat.even n then Raise OtherException
         else client_get_avg_price sample_env n sym;
     client_get_symbol_info :=
       fun n sym =>
         if Nat.even n then Raise OtherException
         else client_get_symbol_info sample_env n sym |}.

(** The sample exchange when it refuses every order. *)
Definition refusing_env : env :=
  {| rand_source := rand_source sample_env;
     uuid_source := uuid_source sample_env;
     math_log10 := math_log10 sample_env;
     float_of_str := float_of_str sample_env;
     int_of_str := int_of_str sample_env;
     client_create_order :=
       fun _ _ => Raise (BinanceAPIException "Account has insufficient balance for requested action.");
     client_get_avg_price := client_get_avg_price sample_env;
     client_get_symbol_info := client_get_symbol_info sample_env |}.

(** The sample exchange when its price answers lack the ['price'] key. *)
Definition priceless_env : env :=
  {| rand_source := rand_source sample_env;
     uuid_source := uuid_source sample_env;
     math_log10 := math_log10 sample_env;
     float_of_str := float_of_str sample_env;
     int_of_str := int_of_str sample_env;
     client_create_order := client_create_order sample_env;
     client_get_avg_price := fun _ _ => Ok [("mins", VInt 5)]%string;
     client_get_symbol_info := client_get_symbol_info sample_env |}.

(** Metadata whose first filter does not name its type. *)
Definition untyped_filter_metadata : pydict :=
  [("baseAssetPrecision", VInt 5);
   ("filters",
    VList [VDict [("tickSize", VStr "0.07")];
           VDict [("filterType", VStr "LOT_SIZE"); ("stepSize", VStr "0.017")]])]%string.

Definition untyped_filter_env : env :=
  {| rand_source := rand_source sample_env;
     uuid_source := uuid_source sample_env;
     math_log10 := math_log10 sample_env;
     float_of_str := float_of_str sample_env;
     int_of_str := int_of_str sample_env;
     client_create_order := client_create_order sample_env;
     client_get_avg_price := client_get_avg_price sample_env;
     client_get_symbol_info := fun _ _ => Ok (Some untyped_filter_metadata) |}.

(** A sample order. *)
Definition sample_order : Order :=
  {| order_id := "1";
     symbol := "BTCUSDT";
     time_in_force := TIME_IN_FORCE_GTC;
     quantity := Float.Fin (1 # 4);
     price := Float.Fin 3;
     side := SELL;
     type := ORDER_TYPE_LIMIT |}.

(** The status of an order every attempt at which failed. *)
Definition gave_up (order : Order) : CreationStatus :=
  {| requested_base_quantity := quantity order;
     actual_base_quantity := Float.Fin 0 |}.

(** [process_request] up to its loop: the two queries and the call of
    [generate_orders]. *)
Definition prepare_orders (E : env) (req : Request) : M (list Order) :=
  avg_price <- get_avg_price_with_retries E (req_symbol req) ;;
  constraints <- get_symbol_info_with_retries E (req_symbol req) ;;
  generate_orders_call E req avg_price constraints.

(** The sample exchange when it quotes an average price of zero. *)
Definition zero_price_env : env :=
  {| rand_source := rand_source sample_env;
     uuid_source := uuid_source sample_env;
     math_log10 := math_log10 sample_env;
     float_of_str := float_of_str sample_env;
     int_of_str := int_of_str sample_env;
     client_create_order := client_create_order sample_env;
     client_get_avg_price := fun _ _ => Ok [("price", VInt 0)]%string;
     client_get_symbol_info := client_get_symbol_info sample_env |}.

(** The cut point for index [i] when the window has no width:
    [int(step * i)], whatever is drawn. *)
Definition even_cut (step : Float.float) (i : Z) : result Z :=
  bind_result (fmul_int step i)
    (fun p => Float.to_int (Float.fadd p (Float.Fin 0))).

Fixpoint even_cuts (step : Float.float) (indices : list Z) : result (list Z) :=
  match indices with
  | [] => Ok []
  | i :: rest =>
      bind_result (even_cut step i) (fun v =>
      bind_result (even_cuts step rest) (fun vs => Ok (v :: vs)))
  end.

(** A total too large for a float to hold exactly. *)
Definition large_total : Z := 2 ^ 60 + 1.




(** * Facts about binary64 rounding *)

Import Float.

Section FloatFacts.

Local Open Scope Q_scope.

Lemma pow2_pos (e : Z) : 0 < 2 ^ e.
Proof. apply Qpower_0_lt. reflexivity. Qed.

Lemma pow2_add (a b : Z) : 2 ^ (a + b) == 2 ^ a * 2 ^ b.
Proof. apply Qpower_plus. discriminate. Qed.

Lemma pow2_Z (n : Z) : (0 <= n)%Z -> 2 ^ n == inject_Z (2 ^ n).
Proof. intros H. symmetry. apply (Zpower_Qpower 2 n H). Qed.

Lemma pow2_succ (e : Z) : 2 ^ (e + 1) == 2 * 2 ^ e.
Proof. rewrite pow2_add. change (2 ^ 1) with 2. ring. Qed.

Lemma pow2_le (a b : Z) : (a <= b)%Z -> 2 ^ a <= 2 ^ b.
Proof. intros H. apply Qpower_le_compat_l; [exact H | discriminate]. Qed.

Lemma Qfloor_eq (x y : Q) : x == y -> Qfloor x = Qfloor y.
Proof. intros H. now rewrite H. Qed.

Lemma ilog2_spec (a : Q) : 0 < a -> 2 ^ ilog2 a <= a /\ a < 2 ^ (ilog2 a + 1).
Proof.
  intros Ha. unfold ilog2.
  destruct (Qle_bool 1 a) eqn:E.
  - apply Qle_bool_iff in E.
    assert (Hf : (1 <= Qfloor a)%Z).
    { change 1%Z with (Qfloor 1). now apply Qfloor_resp_le. }
    destruct (Z.log2_spec (Qfloor a)) as [L U]; [lia|].
    pose proof (Qfloor_le a) as F1. pose proof (Qlt_floor a) as F2.
    assert (N := Z.log2_nonneg (Qfloor a)).
    rewrite !pow2_Z by lia.
    rewrite Zle_Qle in L. rewrite <- Z.add_1_r in U.
    assert (U' : (Qfloor a + 1 <= 2 ^ (Z.log2 (Qfloor a) + 1))%Z) by lia.
    rewrite Zle_Qle in U'. split; lra.
  - assert (E' : a < 1).
    { apply Qnot_le_lt. intros H. apply Qle_bool_iff in H. congruence. }
    set (c := Qceiling (/ a)).
    assert (Hinv : 1 < / a).
    { apply Qlt_shift_inv_l; lra. }
    assert (Hc : (1 < c)%Z).
    { rewrite Zlt_Qlt. pose proof (Qle_ceiling (/ a)). fold c in H. change (inject_Z 1) with 1. lra. }
    destruct (Z.log2_up_spec c Hc) as [L U].
    pose proof (Qle_ceiling (/ a)) as C1. pose proof (Qceiling_lt (/ a)) as C2.
    fold c in C1, C2.
    set (k := Z.log2_up c) in *.
    assert (Hk : (0 < k)%Z) by (apply Z.log2_up_pos; exact Hc).
    assert (P1 : 2 ^ k == inject_Z (2 ^ k)) by (apply pow2_Z; lia).
    assert (P2 : 2 ^ (k - 1) == inject_Z (2 ^ (Z.pred k))) by (rewrite <- Z.sub_1_r; apply pow2_Z; lia).
    rewrite Qpower_opp.
    replace (- k + 1)%Z with (- (k - 1))%Z by lia. rewrite Qpower_opp.
    pose proof (pow2_pos k). pose proof (pow2_pos (k - 1)).
    assert (A1 : / a <= 2 ^ k).
    { rewrite P1. rewrite Zle_Qle in U. lra. }
    assert (A2 : 2 ^ (k - 1) < / a).
    { rewrite P2. assert ((2 ^ Z.pred k <= c - 1)%Z) by lia. rewrite Zle_Qle in H1. lra. }
    split.
    + apply Qle_shift_inv_r; [lra|]. 
      assert (a * / a == 1) by (field; lra).
      nra.
    + apply Qlt_shift_inv_l; [lra|].
      assert (a * / a == 1) by (field; lra).
      nra.
Qed.

Lemma rhe_error (x : Q) : x - (1 # 2) <= inject_Z (rhe x) <= x + (1 # 2).
Proof.
  pose proof (Qfloor_le x) as F1. pose proof (Qlt_floor x) as F2.
  rewrite inject_Z_plus in F2. change (inject_Z 1) with 1 in F2.
  unfold rhe. destruct (x - inject_Z (Qfloor x) ?= 1 # 2) eqn:E.
  - apply Qeq_alt in E. destruct (Z.even _); [|rewrite inject_Z_plus; change (inject_Z 1) with 1]; lra.
  - apply Qlt_alt in E. lra.
  - apply Qgt_alt in E. rewrite inject_Z_plus; change (inject_Z 1) with 1. lra.
Qed.

Lemma rhe_comp (x y : Q) : x == y -> rhe x = rhe y.
Proof.
  intros H. unfold rhe. rewrite (Qfloor_eq x y H).
  assert (E : x - inject_Z (Qfloor y) == y - inject_Z (Qfloor y)) by (rewrite H; reflexivity).
  rewrite (Qcompare_comp _ _ E (1 # 2) (1 # 2) (Qeq_refl _)). reflexivity.
Qed.

Lemma rhe_Z (x : Q) (z : Z) : x == inject_Z z -> rhe x = z.
Proof.
  intros H. rewrite (rhe_comp _ _ H). unfold rhe. rewrite Qfloor_Z.
  assert (E : (inject_Z z - inject_Z z ?= 1 # 2) = Lt).
  { rewrite <- Qlt_alt. lra. }
  now rewrite E.
Qed.

Lemma ilog2_comp (x y : Q) : x == y -> ilog2 x = ilog2 y.
Proof.
  intros H. unfold ilog2.
  assert (E : Qle_bool 1 x = Qle_bool 1 y) by (now rewrite H).
  rewrite E, (Qfloor_eq x y H).
  assert (E2 : Qceiling (/ x) = Qceiling (/ y)) by (now rewrite H).
  now rewrite E2.
Qed.

Lemma quantum_comp (x y : Q) : x == y -> quantum x = quantum y.
Proof. intros H. unfold quantum. now rewrite (ilog2_comp x y H). Qed.

Lemma rnd_pos_comp (x y : Q) : x == y -> rnd_pos x = rnd_pos y.
Proof.
  intros H. unfold rnd_pos. rewrite (quantum_comp x y H).
  assert (E : x / quantum y == y / quantum y) by (now rewrite H).
  now rewrite (rhe_comp _ _ E).
Qed.

Lemma rnd_comp (x y : Q) : x == y -> rnd x = rnd y.
Proof.
  intros H. unfold rnd.
  rewrite (Qcompare_comp _ _ H 0 0 (Qeq_refl _)).
  assert (E : - x == - y) by (now rewrite H).
  now rewrite (rnd_pos_comp _ _ H), (rnd_pos_comp _ _ E).
Qed.

Lemma round64_comp (x y : Q) : x == y -> round64 x = round64 y.
Proof. intros H. unfold round64. now rewrite (rnd_comp x y H). Qed.

Lemma quantum_pos (a : Q) : 0 < quantum a.
Proof. apply pow2_pos. Qed.

(** Rounding moves a positive value by at most half a quantum. *)
Lemma rnd_pos_error (a : Q) :
  a - (1 # 2) * quantum a <= rnd_pos a <= a + (1 # 2) * quantum a.
Proof.
  unfold rnd_pos. pose proof (quantum_pos a) as Hq.
  pose proof (rhe_error (a / quantum a)) as [L U].
  assert (E : a / quantum a * quantum a == a) by (field; lra).
  split; nra.
Qed.

Lemma rnd_of_pos (x : Q) : 0 < x -> rnd x = rnd_pos x.
Proof. intros H. unfold rnd. rewrite Qgt_alt in H. now rewrite H. Qed.

Lemma rnd_of_neg (x : Q) : x < 0 -> rnd x = - rnd_pos (- x).
Proof. intros H. unfold rnd. rewrite Qlt_alt in H. now rewrite H. Qed.

Lemma rnd_zero (x : Q) : x == 0 -> rnd x = 0.
Proof. intros H. unfold rnd. rewrite Qeq_alt in H. now rewrite H. Qed.

(** Integers of at most 53 bits are doubles. *)
Lemma rnd_pos_Z (z : Z) : (0 < z <= 2 ^ 53)%Z -> rnd_pos (inject_Z z) == inject_Z z.
Proof.
  intros Hz. unfold rnd_pos.
  assert (Hpos : 0 < inject_Z z) by (change 0 with (inject_Z 0); rewrite <- Zlt_Qlt; lia).
  destruct (ilog2_spec _ Hpos) as [L U].
  set (e := ilog2 (inject_Z z)) in *.
  assert (He : (0 <= e <= 53)%Z).
  { split.
    - destruct (Z.le_gt_cases 0 e) as [|G]; [assumption|]. exfalso.
      assert (2 ^ (e + 1) <= 2 ^ 0) by (apply pow2_le; lia).
      change (2 ^ 0) with 1 in H.
      assert (1 <= inject_Z z) by (change 1 with (inject_Z 1); rewrite <- Zle_Qle; lia). lra.
    - destruct (Z.le_gt_cases e 53) as [|G]; [assumption|]. exfalso.
      assert (2 ^ 54 <= 2 ^ e) by (apply pow2_le; lia).
      assert (inject_Z z <= inject_Z (2 ^ 53)) by (rewrite <- Zle_Qle; lia).
      assert (2 ^ 53 < 2 ^ 54) by reflexivity.
      rewrite <- (pow2_Z 53) in H0 by lia. lra. }
  unfold quantum. fold e. rewrite Z.max_l by lia.
  pose proof (pow2_pos (e - 52)) as Hq.
  destruct (Z.le_gt_cases e 52) as [Hs | Hs].
  - assert (E : inject_Z z / 2 ^ (e - 52) == inject_Z (z * 2 ^ (52 - e))).
    { rewrite inject_Z_mult, <- pow2_Z by lia.
      replace (e - 52)%Z with (- (52 - e))%Z by lia. rewrite Qpower_opp.
      pose proof (pow2_pos (52 - e)). field. lra. }
    rewrite (rhe_Z _ _ E), inject_Z_mult, <- pow2_Z by lia.
    replace (e - 52)%Z with (- (52 - e))%Z by lia. rewrite Qpower_opp.
    pose proof (pow2_pos (52 - e)). field. lra.
  - assert (e = 53)%Z by lia. subst e. rewrite H in *.
    assert (z = 2 ^ 53)%Z.
    { apply Z.le_antisymm; [lia|]. rewrite Zle_Qle, <- pow2_Z by lia. exact L. }
    subst z. vm_compute. reflexivity.
Qed.

Lemma rnd_Z (z : Z) : (Z.abs z <= 2 ^ 53)%Z -> rnd (inject_Z z) == inject_Z z.
Proof.
  intros Hz. destruct (Z.lt_trichotomy z 0) as [H | [H | H]].
  - assert (Hneg : inject_Z z < 0) by (change 0 with (inject_Z 0); rewrite <- Zlt_Qlt; lia).
    rewrite (rnd_of_neg _ Hneg).
    rewrite (rnd_pos_comp (- inject_Z z) (inject_Z (- z))) by (rewrite inject_Z_opp; reflexivity).
    rewrite rnd_pos_Z by lia. rewrite inject_Z_opp. ring.
  - subst z. reflexivity.
  - assert (Hpos : 0 < inject_Z z) by (change 0 with (inject_Z 0); rewrite <- Zlt_Qlt; lia).
    rewrite (rnd_of_pos _ Hpos). apply rnd_pos_Z. lia.
Qed.

Lemma quantum_bound (a : Q) : 0 < a -> (1 # 2) * quantum a <= u53 * a + eta.
Proof.
  intros Hpos. destruct (ilog2_spec a Hpos) as [L U]. unfold quantum, u53, eta.
  pose proof (pow2_pos (-53)) as H53. pose proof (pow2_pos (-1075)) as He.
  destruct (Z.max_spec (ilog2 a) (-1022)) as [[Hc Hm] | [Hc Hm]]; rewrite Hm.
  - assert (E : 2 ^ (-1022 - 52) == 2 * 2 ^ (-1075)) by reflexivity.
    rewrite E. nra.
  - replace (ilog2 a - 52)%Z with (ilog2 a + -53 + 1)%Z by lia.
    rewrite pow2_succ, pow2_add. nra.
Qed.

(** Rounding error, valid over the whole range (normal and subnormal). *)
Lemma rnd_abs_error (x : Q) : Qabs (rnd x - x) <= u53 * Qabs x + eta.
Proof.
  destruct (Q_dec x 0) as [[H | H] | H].
  - rewrite (Qabs_neg x) by lra. rewrite (rnd_of_neg x H).
    pose proof (rnd_pos_error (- x)) as [L U].
    assert (Hp : 0 < - x) by lra. pose proof (quantum_bound _ Hp).
    apply Qabs_Qle_condition. split; lra.
  - rewrite (Qabs_pos x) by lra. rewrite (rnd_of_pos x H).
    pose proof (rnd_pos_error x) as [L U]. pose proof (quantum_bound _ H).
    apply Qabs_Qle_condition. split; lra.
  - rewrite (rnd_zero x H). rewrite H. vm_compute. discriminate.
Qed.

Lemma rnd_near (x b : Q) :
  Qabs x <= b -> x - (u53 * b + eta) <= rnd x <= x + (u53 * b + eta).
Proof.
  intros Hb. pose proof (rnd_abs_error x) as H.
  apply Qabs_Qle_condition in H. assert (0 < u53) by reflexivity.
  assert (u53 * Qabs x <= u53 * b) by nra. lra.
Qed.

Lemma round64_fin (x : Q) : Qabs x <= 2 ^ 1023 -> round64 x = Fin (rnd x).
Proof.
  intros Hx. pose proof (rnd_near x _ Hx) as [L U].
  apply Qabs_Qle_condition in Hx.
  assert (B : u53 * 2 ^ 1023 + eta < 2 ^ 1023) by reflexivity.
  assert (D : 2 ^ 1024 == 2 * 2 ^ 1023) by reflexivity.
  unfold round64, huge.
  destruct (Qle_bool (2 ^ 1024) (rnd x)) eqn:E1.
  { apply Qle_bool_iff in E1. lra. }
  destruct (Qle_bool (rnd x) (- 2 ^ 1024)) eqn:E2.
  { apply Qle_bool_iff in E2. lra. }
  reflexivity.
Qed.

Lemma inject_Z_abs_le (z b : Z) : (Z.abs z <= b)%Z -> Qabs (inject_Z z) <= inject_Z b.
Proof.
  intros H. apply Qabs_Qle_condition. rewrite <- inject_Z_opp, <- !Zle_Qle. lia.
Qed.

Lemma of_int_small (z : Z) :
  (Z.abs z <= 2 ^ 53)%Z ->
  exists q, of_int z = Ok (Fin q) /\ q == inject_Z z.
Proof.
  intros Hz. exists (rnd (inject_Z z)). split; [|now apply rnd_Z].
  unfold of_int. rewrite round64_fin; [reflexivity|].
  eapply Qle_trans; [apply inject_Z_abs_le; exact Hz|]. discriminate.
Qed.

Lemma inject_Z_sub (a b : Z) : inject_Z (a - b) == inject_Z a - inject_Z b.
Proof. unfold Z.sub. rewrite inject_Z_plus, inject_Z_opp. reflexivity. Qed.

Lemma Qtrunc_nonneg (x : Q) : 0 <= x -> Qtrunc x = Qfloor x.
Proof. intros H. unfold Qtrunc. apply Qle_bool_iff in H. now rewrite H. Qed.

Lemma Qfloor_unique (x : Q) (z : Z) :
  inject_Z z <= x -> x < inject_Z (z + 1) -> Qfloor x = z.
Proof.
  intros L U. pose proof (Qfloor_le x) as F1. pose proof (Qlt_floor x) as F2.
  assert (A : inject_Z z < inject_Z (Qfloor x + 1)) by lra.
  assert (B : inject_Z (Qfloor x) < inject_Z (z + 1)) by lra.
  rewrite <- Zlt_Qlt in A, B. lia.
Qed.

(** A value within [1/b] of the fraction [a/b] has the floor of [a/b],
    or one less when [a/b] is an integer. *)
Lemma approx_floor (m : Q) (a b : Z) :
  (0 < b)%Z ->
  Qabs (m - inject_Z a / inject_Z b) < 1 / inject_Z b ->
  Qfloor m = (a / b)%Z \/ ((a mod b = 0)%Z /\ Qfloor m = (a / b - 1)%Z).
Proof.
  intros Hb H. apply Qabs_Qlt_condition in H.
  assert (Hb' : 0 < inject_Z b) by (change 0 with (inject_Z 0); rewrite <- Zlt_Qlt; lia).
  pose proof (Z.div_mod a b ltac:(lia)) as Hdm.
  pose proof (Z.mod_pos_bound a b Hb) as Hr.
  set (q := (a / b)%Z) in *. set (r := (a mod b)%Z) in *.
  assert (Ha : inject_Z a / inject_Z b == inject_Z q + inject_Z r / inject_Z b).
  { rewrite Hdm, inject_Z_plus, inject_Z_mult. field. lra. }
  assert (Hr1 : 0 <= inject_Z r / inject_Z b).
  { apply Qle_shift_div_l; [exact Hb'|]. rewrite Qmult_0_l.
    change 0 with (inject_Z 0). rewrite <- Zle_Qle. lia. }
  assert (Hinv : 0 < 1 / inject_Z b) by (apply Qlt_shift_div_l; lra).
  destruct (Z.eq_dec r 0) as [Hz | Hnz].
  - (* a/b is the integer q: m is in (q - 1, q + 1) *)
    assert (Hr0 : inject_Z r / inject_Z b == 0) by (rewrite Hz; field; lra).
    assert (Hle1 : 1 / inject_Z b <= 1).
    { apply Qle_shift_div_r; [exact Hb'|]. rewrite Qmult_1_l.
      change 1 with (inject_Z 1). rewrite <- Zle_Qle. lia. }
    destruct (Qlt_le_dec m (inject_Z q)) as [Hlt | Hge].
    + right. split; [exact Hz|]. apply Qfloor_unique.
      * rewrite inject_Z_sub. change (inject_Z 1) with 1. lra.
      * replace (q - 1 + 1)%Z with q by lia. exact Hlt.
    + left. apply Qfloor_unique; [exact Hge|].
      rewrite inject_Z_plus. change (inject_Z 1) with 1. lra.
  - (* a/b is at least 1/b away from the integers around it *)
    left.
    assert (Hlo : 1 / inject_Z b <= inject_Z r / inject_Z b).
    { apply Qle_shift_div_l; [exact Hb'|].
      assert (E : 1 / inject_Z b * inject_Z b == 1) by (field; lra).
      rewrite E. change 1 with (inject_Z 1). rewrite <- Zle_Qle. lia. }
    assert (Hhi : inject_Z r / inject_Z b <= 1 - 1 / inject_Z b).
    { apply Qle_shift_div_r; [exact Hb'|].
      assert (E : (1 - 1 / inject_Z b) * inject_Z b == inject_Z b - 1) by (field; lra).
      rewrite E. change 1 with (inject_Z 1). rewrite <- inject_Z_sub, <- Zle_Qle. lia. }
    apply Qfloor_unique.
    + lra.
    + rewrite inject_Z_plus. change (inject_Z 1) with 1. lra.
Qed.

Lemma inject_Z_pos (z : Z) : (0 < z)%Z -> 0 < inject_Z z.
Proof. intros H. change 0 with (inject_Z 0). now rewrite <- Zlt_Qlt. Qed.

Lemma inject_Z_nonneg (z : Z) : (0 <= z)%Z -> 0 <= inject_Z z.
Proof. intros H. change 0 with (inject_Z 0). now rewrite <- Zle_Qle. Qed.

Lemma is_zero_false (q : Q) : ~ q == 0 -> is_zero (Fin q) = false.
Proof.
  intros H. unfold is_zero. destruct (Qeq_bool q 0) eqn:E; [|reflexivity].
  apply Qeq_bool_iff in E. contradiction.
Qed.


Lemma pow10_pos (n : Z) : 0 < 10 ^ n.
Proof. apply Qpower_0_lt. reflexivity. Qed.

(** Decimal rounding of a float away from the overflow threshold yields
    a float. *)
Lemma round_ndigits_ok (x : Q) (n : Z) :
  Qabs x <= 2 ^ 1000 -> exists f, round_ndigits (Fin x) n = Ok f.
Proof.
  intros Hx. unfold round_ndigits.
  destruct (Z.ltb_spec 323 n); [eexists; reflexivity|].
  destruct (Z.ltb_spec n (-308)); [eexists; reflexivity|].
  set (y := inject_Z (rhe (x * 10 ^ n)) / 10 ^ n).
  assert (Hy : Qabs y <= 2 ^ 1023).
  { pose proof (pow10_pos n) as Hp. pose proof (pow10_pos (- n)) as Hp'.
    pose proof (rhe_error (x * 10 ^ n)) as [L U].
    assert (Hinv : / 10 ^ n == 10 ^ (- n)) by (now rewrite Qpower_opp).
    assert (Hle : 10 ^ (- n) <= 10 ^ 308).
    { apply Qpower_le_compat_l; [lia | discriminate]. }
    assert (Hone : 10 ^ n * 10 ^ (- n) == 1).
    { rewrite <- Qpower_plus by discriminate.
      replace (n + - n)%Z with 0%Z by lia. reflexivity. }
    assert (Ey : y == inject_Z (rhe (x * 10 ^ n)) * 10 ^ (- n)).
    { unfold y, Qdiv. now rewrite Hinv. }
    assert (C : 2 ^ 1000 + (1 # 2) * 10 ^ 308 <= 2 ^ 1023) by (vm_compute; discriminate).
    apply Qabs_Qle_condition in Hx. destruct Hx as [X0 X1].
    rewrite Ey. apply Qabs_Qle_condition.
    set (r := inject_Z (rhe (x * 10 ^ n))) in *.
    set (t := 10 ^ n) in *. set (t' := 10 ^ (- n)) in *.
    assert (L' : x * (t * t') - (1 # 2) * t' <= r * t') by nra.
    assert (U' : r * t' <= x * (t * t') + (1 # 2) * t') by nra.
    rewrite Hone in L', U'. split; lra. }
  rewrite (round64_fin y Hy). eexists; reflexivity.
Qed.

End FloatFacts.

(** * The partitioner on floats *)

Section SplitArithmetic.

Local Open Scope Q_scope.

Variables T P : Z.
Hypothesis HP : (1 <= P <= T)%Z.
Hypothesis Hsize : (T * P <= 2 ^ 50)%Z.

Local Abbreviation Tq := (inject_Z T).
Local Abbreviation Pq := (inject_Z P).
Local Abbreviation x := (inject_Z T / inject_Z P).

(** The error allowed on a cut point before truncation. *)
Local Abbreviation tol := (6 * u53 * inject_Z T + 3 * inject_Z P * eta).

Local Lemma Pq_pos : 1 <= Pq.
Proof. change 1 with (inject_Z 1). rewrite <- Zle_Qle. lia. Qed.

Local Lemma Tq_ge : Pq <= Tq.
Proof. rewrite <- Zle_Qle. lia. Qed.

Local Lemma TP_bound : Tq * Pq <= 1125899906842624.
Proof.
  rewrite <- inject_Z_mult.
  change 1125899906842624 with (inject_Z (2 ^ 50)). now rewrite <- Zle_Qle.
Qed.

Local Lemma u53_facts : 0 < u53 /\ u53 * 1125899906842624 == 1 # 8.
Proof. split; reflexivity. Qed.

Local Lemma eta_facts : 0 < eta /\ eta * 1125899906842624 <= 1 # 1000.
Proof. split; [reflexivity | vm_compute; discriminate]. Qed.

Local Lemma tol_small : tol * Pq < 1 /\ 0 < tol.
Proof.
  pose proof Pq_pos. pose proof Tq_ge. pose proof TP_bound.
  destruct u53_facts as [U0 U1]. destruct eta_facts as [E0 E1].
  assert (A : u53 * (Tq * Pq) <= 1 # 8) by nra.
  assert (B : eta * (Pq * Pq) <= 1 # 1000) by nra.
  split; nra.
Qed.

Local Lemma x_facts : 1 <= x /\ x * Pq == Tq /\ x <= Tq.
Proof.
  pose proof Pq_pos. pose proof Tq_ge.
  assert (E : x * Pq == Tq) by (field; lra).
  repeat split; [nra | exact E | nra].
Qed.


Local Lemma exact_quotient : (T mod P = 0)%Z -> x == inject_Z (T / P).
Proof.
  intros H. pose proof Pq_pos.
  assert (E : T = (P * (T / P))%Z) by (pose proof (Z.div_mod T P ltac:(lia)); lia).
  rewrite E at 1. rewrite inject_Z_mult. field. lra.
Qed.

Local Lemma quotient_small : (0 <= T / P <= 2 ^ 50)%Z.
Proof.
  split; [apply Z.div_pos; lia|].
  transitivity T; [apply Z.div_le_upper_bound; nia | nia].
Qed.

Lemma step_ok : exists s, true_div T P = Ok (Fin s) /\ step_spec T P s.
Proof.
  destruct x_facts as (X1 & X2 & X3). pose proof TP_bound. pose proof Pq_pos.
  exists (rnd x). split.
  - unfold true_div. destruct (Z.eqb_spec P 0) as [|_]; [lia|].
    rewrite round64_fin; [reflexivity|].
    rewrite Qabs_pos by lra.
    assert (1125899906842624 <= 2 ^ 1023) by discriminate. nra.
  - split.
    + apply rnd_near. rewrite Qabs_pos; lra.
    + intros Hd. rewrite (rnd_comp _ _ (exact_quotient Hd)).
      apply rnd_Z. pose proof quotient_small. lia.
Qed.

Lemma half_step_ok (s : Q) :
  step_spec T P s ->
  bind_result (fdiv_int (Fin s) 2) to_int = Ok (T / (2 * P))%Z.
Proof.
  intros [[SL SU] SE].
  destruct x_facts as (X1 & X2 & X3). pose proof TP_bound as HTP. pose proof Pq_pos as HPq.
  destruct u53_facts as [U0 U1]. destruct eta_facts as [E0 E1].
  destruct (of_int_small 2 ltac:(vm_compute; discriminate)) as (q2 & Hq2 & Eq2).
  change (inject_Z 2) with 2 in Eq2.
  unfold fdiv_int. rewrite Hq2. cbn [bind_result].
  unfold fdiv. rewrite is_zero_false by (rewrite Eq2; discriminate).
  assert (Hs : 0 <= s /\ s <= 2 * Tq) by (split; nra).
  destruct Hs as [Hs0 Hs1].
  assert (Ediv : s / q2 == s * (1 # 2)) by (rewrite Eq2; field).
  rewrite (round64_comp _ _ Ediv).
  rewrite round64_fin.
  2:{ rewrite Qabs_pos by lra.
      assert (1125899906842624 <= 2 ^ 1023) by discriminate. nra. }
  cbn [bind_result to_int]. f_equal.
  set (h := rnd (s * (1 # 2))).
  assert (Hh : s * (1 # 2) - (u53 * Tq + eta) <= h <= s * (1 # 2) + (u53 * Tq + eta)).
  { apply rnd_near. rewrite Qabs_pos; lra. }
  destruct Hh as [Hh0 Hh1].
  rewrite Qtrunc_nonneg by nra.
  destruct (Z.eq_dec (T mod (2 * P)) 0) as [Hd | Hd].
  - (* the step is an even integer: every operation is exact *)
    assert (Hd' : (T mod P = 0)%Z).
    { apply Z.mod_divide; [lia|]. apply Z.mod_divide in Hd; [|lia].
      destruct Hd as [k Hk]. exists (2 * k)%Z. lia. }
    assert (Hq : (T / P = 2 * (T / (2 * P)))%Z).
    { apply Z.mod_divide in Hd; [|lia]. destruct Hd as [k Hk].
      assert (H1 : (T / (2 * P) = k)%Z) by (rewrite Hk; apply Z.div_mul; lia).
      assert (H2 : (T / P = 2 * k)%Z).
      { rewrite Hk. replace (k * (2 * P))%Z with (2 * k * P)%Z by lia.
        apply Z.div_mul. lia. }
      lia. }
    assert (Eh : s * (1 # 2) == inject_Z (T / (2 * P))).
    { rewrite (SE Hd'), Hq, inject_Z_mult. change (inject_Z 2) with 2. field. }
    unfold h. rewrite (rnd_comp _ _ Eh).
    assert (Hb : (0 <= T / (2 * P) <= 2 ^ 50)%Z).
    { pose proof quotient_small. lia. }
    assert (Hb' : (Z.abs (T / (2 * P)) <= 2 ^ 53)%Z) by lia.
    rewrite (Qfloor_eq _ _ (rnd_Z _ Hb')). apply Qfloor_Z.
  - destruct (approx_floor h T (2 * P) ltac:(lia)) as [F | [F _]];
      [| exact F | contradiction].
    assert (P2 : inject_Z (2 * P) == 2 * Pq) by (now rewrite inject_Z_mult).
    rewrite P2.
    assert (Ex : Tq / (2 * Pq) == x * (1 # 2)) by (field; lra).
    rewrite Ex.
    apply Qlt_shift_div_l; [lra|].
    assert (A : u53 * (Tq * Pq) <= 1 # 8) by nra.
    assert (B : eta * (Pq * Pq) <= 1 # 1000) by nra.
    assert (C : eta * Pq <= 1 # 1000) by nra.
    assert (D : u53 * (x * Pq) <= 1 # 8) by (rewrite X2; nra).
    apply Qabs_case; intros _; nra.
Qed.


Local Lemma Qtrunc_comp (a b : Q) : a == b -> Qtrunc a = Qtrunc b.
Proof.
  intros H. unfold Qtrunc, Qceiling.
  assert (E1 : Qle_bool 0 a = Qle_bool 0 b) by (now rewrite H).
  assert (E2 : - a == - b) by (now rewrite H).
  now rewrite E1, (Qfloor_eq _ _ H), (Qfloor_eq _ _ E2).
Qed.

Local Lemma Qtrunc_Z (z : Z) : Qtrunc (inject_Z z) = z.
Proof. unfold Qtrunc. destruct (Qle_bool 0 (inject_Z z)); [apply Qfloor_Z | apply Qceiling_Z]. Qed.

Local Lemma tol_quarter : (2 <= P)%Z -> tol <= 2 # 5.
Proof.
  intros H2. assert (2 <= Pq) by (change 2 with (inject_Z 2); rewrite <- Zle_Qle; lia).
  pose proof Tq_ge. pose proof TP_bound.
  destruct u53_facts as [U0 U1]. destruct eta_facts as [E0 E1].
  assert (A : u53 * (Tq * Pq) <= 1 # 8) by nra.
  assert (B : eta * (Pq * Pq) <= 1 # 1000) by nra.
  assert (C : tol * Pq <= 4 # 5) by (nra).
  assert (D : 0 < tol) by (nra).
  nra.
Qed.

Lemma product_ok (s : Q) (i : Z) :
  step_spec T P s -> (0 <= i <= P)%Z ->
  exists p, fmul_int (Fin s) i = Ok (Fin p) /\ product_spec T P i p.
Proof.
  intros [[SL SU] SE] Hi.
  destruct x_facts as (X1 & X2 & X3). pose proof TP_bound as HTP. pose proof Pq_pos as HPq.
  pose proof Tq_ge as HTq.
  destruct u53_facts as [U0 U1]. destruct eta_facts as [E0 E1].
  assert (Hi53 : (Z.abs i <= 2 ^ 53)%Z) by nia.
  destruct (of_int_small i Hi53) as (qi & Hqi & Eqi).
  assert (I0 : 0 <= inject_Z i) by (apply inject_Z_nonneg; lia).
  assert (I1 : inject_Z i <= Pq) by (rewrite <- Zle_Qle; lia).
  assert (A : u53 * (Tq * Pq) <= 1 # 8) by nra.
  assert (C : eta * Pq <= 1 # 1000) by nra.
  assert (XI : x * inject_Z i <= Tq) by nra.
  assert (UX : u53 * x * inject_Z i <= u53 * Tq) by nra.
  assert (EI : eta * inject_Z i <= eta * Pq) by nra.
  assert (S0 : 0 <= s) by nra.
  assert (SI : s * inject_Z i <= 2 * Tq) by nra.
  assert (Eprod : s * qi == s * inject_Z i) by (now rewrite Eqi).
  exists (rnd (s * inject_Z i)). split.
  - unfold fmul_int. rewrite Hqi. cbn [bind_result fmul].
    rewrite (round64_comp _ _ Eprod), round64_fin; [reflexivity|].
    rewrite Qabs_pos by nra.
    assert (1125899906842624 <= 2 ^ 1023) by discriminate. nra.
  - split.
    + assert (R : s * inject_Z i - (u53 * (2 * Tq) + eta) <= rnd (s * inject_Z i)
                  <= s * inject_Z i + (u53 * (2 * Tq) + eta)).
      { apply rnd_near. rewrite Qabs_pos by nra. exact SI. }
      destruct R as [R0 R1]. split; nra.
    + intros Hd.
      assert (Ez : s * inject_Z i == inject_Z (T / P * i)).
      { rewrite (SE Hd), inject_Z_mult. reflexivity. }
      rewrite (rnd_comp _ _ Ez). apply rnd_Z.
      pose proof quotient_small. pose proof (Z.mul_div_le T P ltac:(lia)). nia.
Qed.


(** Truncating a rounded value that is close to the fraction [a / P]. *)
Local Lemma trunc_near (y : Q) (a : Z) :
  (2 <= P)%Z ->
  Qabs (y - inject_Z a / Pq) <= 3 * u53 * Tq + 2 * Pq * eta ->
  Qabs y <= 3 * Tq ->
  3 # 4 <= inject_Z a / Pq ->
  exists v, to_int (round64 y) = Ok v /\ (P * v <= a <= P * v + P)%Z /\
            ((a mod P <> 0)%Z -> v = (a / P)%Z).
Proof.
  intros H2 Hy Hb Ha.
  pose proof TP_bound as HTP. pose proof Pq_pos as HPq. pose proof Tq_ge as HTq.
  destruct u53_facts as [U0 U1]. destruct eta_facts as [E0 E1].
  destruct tol_small as [TS T0]. pose proof (tol_quarter H2) as TQ.
  assert (HT : Tq <= 1125899906842624) by nra.
  assert (Hfin : round64 y = Fin (rnd y)).
  { apply round64_fin. assert (1125899906842624 * 3 <= 2 ^ 1023) by discriminate. lra. }
  rewrite Hfin. cbn [to_int].
  pose proof (rnd_near y _ Hb) as [R0 R1].
  apply Qabs_Qle_condition in Hy. destruct Hy as [Y0 Y1].
  assert (Hclose : Qabs (rnd y - inject_Z a / inject_Z P) < 1 / inject_Z P).
  { apply Qlt_shift_div_l; [lra|].
    assert (D : Qabs (rnd y - inject_Z a / Pq) <= tol).
    { apply Qabs_Qle_condition. split; nra. }
    assert (0 <= Qabs (rnd y - inject_Z a / Pq)) by apply Qabs_nonneg.
    nra. }
  assert (Hpos : 0 <= rnd y) by (nra).
  rewrite (Qtrunc_nonneg _ Hpos).
  exists (Qfloor (rnd y)). split; [reflexivity|].
  pose proof (Z.div_mod a P ltac:(lia)) as Hdm.
  pose proof (Z.mod_pos_bound a P ltac:(lia)) as Hr.
  destruct (approx_floor (rnd y) a P ltac:(lia) Hclose) as [F | [Hm F]];
    rewrite F; split; try lia; intros; lia.
Qed.

Local Lemma trunc_exact (y : Q) (z : Z) :
  y == inject_Z z -> (Z.abs z <= 2 ^ 53)%Z -> to_int (round64 y) = Ok z.
Proof.
  intros Hy Hz.
  rewrite (round64_comp _ _ Hy), round64_fin.
  - cbn [to_int]. now rewrite (Qtrunc_comp _ _ (rnd_Z z Hz)), Qtrunc_Z.
  - eapply Qle_trans; [apply inject_Z_abs_le; exact Hz|]. discriminate.
Qed.

Lemma window_ok (p dd : Q) (d i : Z) :
  product_spec T P i p -> dd == inject_Z d ->
  (0 <= d)%Z -> (4 * d * P <= T)%Z -> (1 <= i < P)%Z ->
  exists lo hi,
    to_int (fsub (Fin p) (Fin dd)) = Ok lo /\
    to_int (fadd (Fin p) (Fin dd)) = Ok hi /\
    (lo <= hi)%Z /\
    (P * (lo + d) <= T * i <= P * (lo + d) + slack T P)%Z /\
    (P * (hi - d) <= T * i <= P * (hi - d) + slack T P)%Z.
Proof.
  intros [[PL PU] PE] Hdd Hd0 Hd4 Hi.
  destruct x_facts as (X1 & X2 & X3).
  pose proof TP_bound as HTP. pose proof Pq_pos as HPq. pose proof Tq_ge as HTq.
  destruct u53_facts as [U0 U1]. destruct eta_facts as [E0 E1].
  cbn [fsub fneg fadd].
  unfold slack. destruct (Z.eqb_spec (T mod P) 0) as [Hdiv | Hndiv].
  - (* whole step: the operations are exact *)
    pose proof (Z.div_mod T P ltac:(lia)) as Hdm. rewrite Hdiv in Hdm.
    pose proof quotient_small as Hq.
    assert (Emin : p + - dd == inject_Z (T / P * i - d)).
    { rewrite (PE Hdiv), Hdd, inject_Z_sub. ring. }
    assert (Emax : p + dd == inject_Z (T / P * i + d)).
    { rewrite (PE Hdiv), Hdd, inject_Z_plus. ring. }
    exists (T / P * i - d)%Z, (T / P * i + d)%Z.
    rewrite (trunc_exact _ _ Emin) by nia.
    rewrite (trunc_exact _ _ Emax) by nia.
    repeat split; nia.
  - assert (H2 : (2 <= P)%Z) by lia.
    assert (I0 : 1 <= inject_Z i) by (change 1 with (inject_Z 1); rewrite <- Zle_Qle; lia).
    assert (I1 : inject_Z i <= Pq) by (rewrite <- Zle_Qle; lia).
    assert (D0 : 0 <= inject_Z d) by (apply inject_Z_nonneg; lia).
    assert (D4 : 4 * inject_Z d * Pq <= Tq).
    { change 4 with (inject_Z 4).
      rewrite <- !inject_Z_mult, <- Zle_Qle. exact Hd4. }
    assert (D4' : 4 * inject_Z d <= x) by nra.
    assert (XI : x * inject_Z i <= Tq) by nra.
    assert (XI' : x <= x * inject_Z i) by nra.
    assert (A : u53 * (Tq * Pq) <= 1 # 8) by nra.
    assert (C : eta * Pq <= 1 # 1000) by nra.
    assert (UT : u53 * Tq <= 1 # 8) by nra.
    assert (Elo : inject_Z (T * i - P * d) / Pq == x * inject_Z i - inject_Z d).
    { rewrite inject_Z_sub, !inject_Z_mult. field.
      lra. }
    assert (Ehi : inject_Z (T * i + P * d) / Pq == x * inject_Z i + inject_Z d).
    { rewrite inject_Z_plus, !inject_Z_mult. field.
      lra. }
    destruct (trunc_near (p + - dd) (T * i - P * d) H2) as (lo & Hlo & Blo & Xlo).
    { rewrite Elo, Hdd. apply Qabs_Qle_condition. split; lra. }
    { rewrite Hdd. apply Qabs_Qle_condition. split; lra. }
    { rewrite Elo. lra. }
    destruct (trunc_near (p + dd) (T * i + P * d) H2) as (hi & Hhi & Bhi & Xhi).
    { rewrite Ehi, Hdd. apply Qabs_Qle_condition. split; lra. }
    { rewrite Hdd. apply Qabs_Qle_condition. split; lra. }
    { rewrite Ehi. lra. }
    exists lo, hi. rewrite Hlo, Hhi.
    split; [reflexivity|]. split; [reflexivity|].
    split; [| split; lia].
    destruct (Z.eq_dec d 0) as [Hz | Hnz].
    + subst d. assert (Esame : p + - dd == p + dd) by (rewrite Hdd; ring).
      rewrite (round64_comp _ _ Esame) in Hlo.
      assert (lo = hi) by congruence. lia.
    + nia.
Qed.


Lemma half_diff_ok (dz : Z) :
  (0 <= dz <= 2 ^ 53)%Z -> (dz mod 2 = 0)%Z ->
  exists dd, int_fdiv dz (Fin 2) = Ok (Fin dd) /\ dd == inject_Z (dz / 2).
Proof.
  intros Hdz Heven.
  destruct (of_int_small dz ltac:(lia)) as (qd & Hqd & Eqd).
  pose proof (Z.div_mod dz 2 ltac:(lia)) as Hdm. rewrite Heven in Hdm.
  assert (Ehalf : qd / 2 == inject_Z (dz / 2)).
  { rewrite Eqd. rewrite Hdm at 1. rewrite Z.add_0_r, inject_Z_mult.
    change (inject_Z 2) with 2. field. }
  exists (rnd (inject_Z (dz / 2))). split.
  - unfold int_fdiv. rewrite Hqd. cbn [bind_result]. unfold fdiv.
    change (is_zero (Fin 2)) with false. cbv iota.
    rewrite (round64_comp _ _ Ehalf), round64_fin; [reflexivity|].
    eapply Qle_trans; [apply (inject_Z_abs_le _ (2 ^ 53)); lia|]. discriminate.
  - apply rnd_Z. lia.
Qed.

Variable E : env.

Lemma randint_ok (lo hi : Z) (w : world) :
  (lo <= hi)%Z ->
  exists v, randint E lo hi w = (Ok v, advance_rand 1 w) /\ (lo <= v <= hi)%Z.
Proof.
  intros H. unfold randint. destruct (Z.ltb_spec hi lo) as [|_]; [lia|].
  eexists. split; [reflexivity|].
  pose proof (Z.mod_pos_bound (rand_source E (rand_used w)) (hi - lo + 1) ltac:(lia)).
  lia.
Qed.

Lemma cut_point_ok (s : Q) (dz i : Z) (w : world) :
  step_spec T P s ->
  (0 <= dz <= T / (2 * P))%Z -> (dz mod 2 = 0)%Z -> (1 <= i < P)%Z ->
  exists v, cut_point E (Fin s) dz i w = (Ok v, advance_rand 1 w) /\
            in_window T P (dz / 2) i v.
Proof.
  intros Hs Hdz Heven Hi.
  pose proof (Z.div_mod dz 2 ltac:(lia)) as Hdm. rewrite Heven in Hdm.
  pose proof (Z.mul_div_le T (2 * P) ltac:(lia)) as Hhalf.
  assert (Hdz53 : (0 <= dz <= 2 ^ 53)%Z) by nia.
  destruct (product_ok s i Hs ltac:(lia)) as (p & Hp & Sp).
  destruct (half_diff_ok dz Hdz53 Heven) as (dd & Hdd & Edd).
  destruct (window_ok p dd (dz / 2) i Sp Edd ltac:(lia) ltac:(nia) Hi)
    as (lo & hi & Hlo & Hhi & Hle & Wlo & Whi).
  destruct (randint_ok lo hi w Hle) as (v & Hv & Bv).
  exists v. split.
  - unfold cut_point, bind, lift. rewrite Hp, Hdd, Hlo, Hhi. exact Hv.
  - unfold in_window. nia.
Qed.


Lemma range_nil (a b : Z) : (b <= a)%Z -> range a b = [].
Proof. intros H. unfold range. replace (Z.to_nat (b - a)) with 0%nat by lia. reflexivity. Qed.

Lemma range_cons (a b : Z) : (a < b)%Z -> range a b = a :: range (a + 1) b.
Proof.
  intros H. unfold range.
  replace (Z.to_nat (b - a)) with (S (Z.to_nat (b - (a + 1)))) by lia.
  cbn [seq map]. f_equal; [lia|].
  rewrite <- seq_shift, map_map. apply map_ext. intros k. lia.
Qed.

Lemma windows_app (d k : Z) (vs : list Z) (v : Z) :
  windows T P d k vs -> in_window T P d (k + Z.of_nat (List.length vs)) v ->
  windows T P d k (vs ++ [v]).
Proof.
  revert k. induction vs as [| a vs IH]; intros k Hw Hv; cbn in *.
  - rewrite Z.add_0_r in Hv. auto.
  - destruct Hw as [Ha Hw]. split; [exact Ha|]. apply IH; [exact Hw|].
    replace (k + 1 + Z.of_nat (List.length vs))%Z
      with (k + Z.pos (Pos.of_succ_nat (List.length vs)))%Z by lia.
    exact Hv.
Qed.

Lemma cut_points_ok (s : Q) (dz : Z) :
  step_spec T P s ->
  (0 <= dz <= T / (2 * P))%Z -> (dz mod 2 = 0)%Z ->
  forall (n : nat) (a : Z) (values : list Z) (w : world),
    (1 <= a)%Z -> (a + Z.of_nat n = P)%Z ->
    exists vs,
      cut_points E (Fin s) dz (range a P) values w
        = (Ok (values ++ vs), advance_rand n w) /\
      List.length vs = n /\ windows T P (dz / 2) a vs.
Proof.
  intros Hs Hdz Heven. induction n as [| n IH]; intros a values w Ha Hn.
  - exists []. rewrite range_nil by lia. rewrite app_nil_r.
    destruct w. repeat split.
  - rewrite range_cons by lia. cbn [cut_points]. unfold bind at 1.
    destruct (cut_point_ok s dz a w Hs Hdz Heven ltac:(lia)) as (v & Hv & Wv).
    rewrite Hv.
    destruct (IH (a + 1)%Z (values ++ [v]) (advance_rand 1 w) ltac:(lia) ltac:(lia))
      as (vs & Hvs & Lvs & Wvs).
    exists (v :: vs). rewrite Hvs, <- app_assoc. cbn [app].
    split; [|split].
    + f_equal. destruct w. unfold advance_rand. cbn. f_equal. lia.
    + cbn. now rewrite Lvs.
    + cbn. auto.
Qed.


Lemma make_even_spec (m : Z) :
  (0 <= m)%Z -> (0 <= make_even m <= m)%Z /\ (make_even m mod 2 = 0)%Z.
Proof.
  intros Hm. unfold make_even.
  pose proof (Z.mod_pos_bound m 2 ltac:(lia)) as Hr.
  pose proof (Z.div_mod m 2 ltac:(lia)) as Hdm.
  destruct (Z.eqb_spec (m mod 2) 1) as [H1 | H1].
  - split; [lia|]. replace (m - 1)%Z with (m / 2 * 2)%Z by lia. apply Z.mod_mul. lia.
  - split; lia.
Qed.

Lemma split_ok (D : Z) (w : world) :
  (0 <= D)%Z ->
  exists vs,
    split_int_quantity E T P D w
      = (Ok (differences (0%Z :: vs ++ [T])), advance_rand (Z.to_nat (P - 1)) w) /\
    List.length vs = Z.to_nat (P - 1) /\
    windows T P (half_width T P D) 1 vs.
Proof.
  intros HD. destruct step_ok as (s & Hstep & Ss).
  assert (Hh : (0 <= T / (2 * P))%Z) by (apply Z.div_pos; lia).
  destruct (make_even_spec (Z.min D (T / (2 * P))) ltac:(lia)) as [Hdz Heven].
  assert (Hdz' : (0 <= make_even (Z.min D (T / (2 * P))) <= T / (2 * P))%Z) by lia.
  destruct (cut_points_ok s _ Ss Hdz' Heven (Z.to_nat (P - 1)) 1 [0%Z] w
              ltac:(lia) ltac:(lia)) as (vs & Hvs & Lvs & Wvs).
  exists vs. split; [|split; assumption].
  unfold split_int_quantity, bind, assert_, lift.
  destruct (Z.leb_spec P T) as [_|]; [|lia]. cbn [ret].
  rewrite Hstep, (half_step_ok s Ss), Hvs. reflexivity.
Qed.

Lemma differences_deltas (l : list Z) : differences l = deltas l.
Proof.
  unfold differences, range.
  replace (Z.to_nat (Z.of_nat (List.length l) - 1)) with (List.length l - 1)%nat by lia.
  rewrite map_map.
  induction l as [| a l IH]; [reflexivity|].
  destruct l as [| b t]; [reflexivity|].
  cbn [List.length Nat.sub] in *. rewrite Nat.sub_0_r in *.
  change (deltas (a :: b :: t)) with ((b - a)%Z :: deltas (b :: t)).
  rewrite <- IH. cbn [seq map]. f_equal.
  rewrite <- seq_shift, map_map. apply map_ext. intros k.
  replace (Z.to_nat (1 + Z.of_nat (S k))) with (S (S k)) by lia.
  replace (Z.to_nat (1 + Z.of_nat (S k) - 1)) with (S k) by lia.
  replace (Z.to_nat (1 + Z.of_nat k)) with (S k) by lia.
  replace (Z.to_nat (1 + Z.of_nat k - 1)) with k by lia.
  reflexivity.
Qed.

Lemma deltas_length (a : Z) (l : list Z) :
  List.length (deltas (a :: l)) = List.length l.
Proof.
  revert a. induction l as [| b t IH]; intros a; [reflexivity|].
  change (deltas (a :: b :: t)) with ((b - a)%Z :: deltas (b :: t)).
  cbn [List.length]. now rewrite IH.
Qed.

Lemma last_default (c u v : Z) (t : list Z) : last (c :: t) u = last (c :: t) v.
Proof.
  revert c. induction t as [| c' t IH]; intros c; [reflexivity|].
  change (last (c :: c' :: t) u) with (last (c' :: t) u).
  change (last (c :: c' :: t) v) with (last (c' :: t) v). apply IH.
Qed.

Lemma zsum_deltas (a : Z) (l : list Z) :
  zsum (deltas (a :: l)) = (last l a - a)%Z.
Proof.
  revert a. induction l as [| b t IH]; intros a; [cbn; lia|].
  change (deltas (a :: b :: t)) with ((b - a)%Z :: deltas (b :: t)).
  unfold zsum in *. cbn [fold_right]. rewrite IH.
  destruct t as [| c t]; [cbn [last]; lia|].
  change (last (b :: c :: t) a) with (last (c :: t) a).
  rewrite (last_default c b a). lia.
Qed.

Lemma deltas_range (d k : Z) (l : list Z) :
  windows T P d k l -> Forall (part_range T P d) (deltas l).
Proof.
  revert k. induction l as [| a l IH]; intros k Hw; [constructor|].
  destruct l as [| b t]; [constructor|].
  change (deltas (a :: b :: t)) with ((b - a)%Z :: deltas (b :: t)).
  destruct Hw as [Wa Wb]. constructor; [|exact (IH _ Wb)].
  destruct Wb as [Wb _]. unfold in_window, slack in *. unfold part_range.
  pose proof (Z.div_mod T P ltac:(lia)) as Hdm.
  pose proof (Z.mod_pos_bound T P ltac:(lia)) as Hr.
  destruct (Z.eqb_spec (T mod P) 0) as [H0 | H0]; split; nia.
Qed.

Lemma parts_ok (D : Z) (vs : list Z) :
  (0 <= D)%Z -> List.length vs = Z.to_nat (P - 1) -> windows T P (half_width T P D) 1 vs ->
  Forall (part_range T P (half_width T P D)) (deltas (0%Z :: vs ++ [T])).
Proof.
  intros HD Lvs Wvs.
  assert (Hh : (0 <= T / (2 * P))%Z) by (apply Z.div_pos; lia).
  destruct (make_even_spec (Z.min D (T / (2 * P))) ltac:(lia)) as [Hdz Heven].
  assert (Hd : (0 <= half_width T P D)%Z) by (apply Z.div_pos; lia).
  assert (Hs : (0 <= slack T P)%Z) by (unfold slack; destruct (_ =? _)%Z; lia).
  apply (deltas_range _ 0). cbn [windows]. split.
  - unfold in_window. nia.
  - apply windows_app; [exact Wvs|]. unfold in_window. rewrite Lvs.
    replace (0 + 1 + Z.of_nat (Z.to_nat (P - 1)))%Z with P by lia. nia.
Qed.

End SplitArithmetic.

(** * The partitioner: [split_int_quantity] *)

Lemma part_range_positive (T P D e : Z) :
  1 <= P <= T -> 0 <= D -> part_range T P (half_width T P D) e -> 1 <= e.
Proof.
  intros HP HD [L _]. unfold half_width in L.
  assert (Hh : 0 <= T / (2 * P)) by (apply Z.div_pos; lia).
  destruct (make_even_spec (Z.min D (T / (2 * P))) ltac:(lia)) as [Hdz Heven].
  pose proof (Z.div_mod (make_even (Z.min D (T / (2 * P)))) 2 ltac:(lia)) as Hdm.
  rewrite Heven in Hdm.
  assert (Hq : 1 <= T / P) by (apply Z.div_le_lower_bound; lia).
  assert (Hqq : T / (2 * P) = T / P / 2).
  { rewrite (Z.mul_comm 2 P). symmetry. apply Z.div_div; lia. }
  pose proof (Z.div_mod (T / P) 2 ltac:(lia)) as Hdm2.
  pose proof (Z.mod_pos_bound (T / P) 2 ltac:(lia)).
  lia.
Qed.

Lemma part_range_deviation (T P D e : Z) :
  1 <= P <= T -> 0 <= D -> part_range T P (half_width T P D) e ->
  (deviation T P e < inject_Z D + 1)%Q.
Proof.
  intros HP HD [L U]. unfold half_width in L, U.
  assert (Hh : 0 <= T / (2 * P)) by (apply Z.div_pos; lia).
  destruct (make_even_spec (Z.min D (T / (2 * P))) ltac:(lia)) as [Hdz Heven].
  pose proof (Z.div_mod (make_even (Z.min D (T / (2 * P)))) 2 ltac:(lia)) as Hdm.
  rewrite Heven in Hdm.
  pose proof (Z.div_mod T P ltac:(lia)) as Hdm2.
  pose proof (Z.mod_pos_bound T P ltac:(lia)) as Hr.
  assert (Hlo : P * e - T > - (D + 1) * P).
  { destruct (Z.eqb_spec (T mod P) 0); nia. }
  assert (Hhi : P * e - T < (D + 1) * P).
  { destruct (Z.eqb_spec (T mod P) 0); nia. }
  assert (Pq : (0 < inject_Z P)%Q) by (apply inject_Z_pos; lia).
  unfold deviation.
  assert (Ed : (inject_Z e - inject_Z T / inject_Z P
                == inject_Z (P * e - T) / inject_Z P)%Q).
  { rewrite inject_Z_sub, inject_Z_mult. field. lra. }
  rewrite Ed. apply Qabs_Qlt_condition.
  assert (B : (inject_Z ((D + 1) * P) == (inject_Z D + 1) * inject_Z P)%Q).
  { rewrite inject_Z_mult, inject_Z_plus. reflexivity. }
  split.
  - apply Qlt_shift_div_l; [exact Pq|].
    setoid_replace (- (inject_Z D + 1) * inject_Z P)%Q
      with (inject_Z (- (D + 1) * P)).
    + rewrite <- Zlt_Qlt. lia.
    + rewrite inject_Z_mult, inject_Z_opp, inject_Z_plus. reflexivity.
  - apply Qlt_shift_div_r; [exact Pq|]. rewrite <- B, <- Zlt_Qlt. lia.
Qed.

(** What a run of the partitioner returns, with the range of its parts. *)
Lemma split_int_quantity_run (E : env) (T P D : Z) (w : world) :
  1 <= P <= T -> 0 <= D -> T * P <= 2 ^ 50 ->
  exists l,
    split_int_quantity E T P D w = (Ok l, advance_rand (Z.to_nat (P - 1)) w) /\
    Z.of_nat (List.length l) = P /\
    zsum l = T /\
    Forall (part_range T P (half_width T P D)) l.
Proof.
  intros HP HD Hsize.
  destruct (split_ok T P HP Hsize E D w HD) as (vs & Hrun & Lvs & Wvs).
  assert (Hparts : Forall (part_range T P (half_width T P D))
                          (deltas (0 :: vs ++ [T])))
    by (eapply parts_ok; eauto).
  rewrite differences_deltas in Hrun.
  eexists. split; [exact Hrun|]. split; [|split].
  - rewrite deltas_length, length_app, Lvs. cbn [List.length]. lia.
  - rewrite zsum_deltas, last_last. lia.
  - exact Hparts.
Qed.

(** C1, as amended: for [total >= parts >= 1], [diff >= 0] and
    [total * parts <= 2 ^ 50], whatever the random draws,
    [split_int_quantity] returns a list of exactly [parts] entries, each
    at least 1, that sum to [total]. *)
Theorem split_int_quantity_parts (E : env) (total parts diff : Z) (w : world) :
  1 <= parts <= total -> 0 <= diff -> total * parts <= 2 ^ 50 ->
  exists l w',
    split_int_quantity E total parts diff w = (Ok l, w') /\
    Z.of_nat (List.length l) = parts /\
    Forall (fun e => 1 <= e) l /\
    zsum l = total.
Proof.
  intros HP HD Hsize.
  destruct (split_int_quantity_run E total parts diff w HP HD Hsize)
    as (l & Hrun & Hlen & Hsum & Hparts).
  exists l, (advance_rand (Z.to_nat (parts - 1)) w).
  repeat split; try assumption.
  eapply Forall_impl; [|exact Hparts]. intros e He.
  now apply (part_range_positive total parts diff).
Qed.

Lemma split_int_quantity_parts_witness :
  exists l w',
    split_int_quantity sample_env 10 3 2 initial_world = (Ok l, w') /\
    Z.of_nat (List.length l) = 3 /\
    Forall (fun e => 1 <= e) l /\
    zsum l = 10.
Proof.
  apply split_int_quantity_parts; [lia | lia | vm_compute; discriminate].
Defined.

(** C1, as stated, fails on a total too large for a float: the division
    [total / num_of_parts] raises [OverflowError] and no list is
    returned. *)
Lemma split_int_quantity_overflow :
  1 <= 1 <= 2 ^ 1024 /\ 0 <= 0 /\
  forall (E : env) (w : world),
    split_int_quantity E (2 ^ 1024) 1 0 w = (Raise OverflowError, w).
Proof.
  split; [split; [lia | vm_compute; discriminate]|]. split; [lia|].
  intros E w. unfold split_int_quantity, bind, assert_, lift.
  replace (1 <=? 2 ^ 1024) with true by (vm_compute; reflexivity).
  replace (true_div (2 ^ 1024) 1) with (@Raise float OverflowError)
    by (vm_compute; reflexivity).
  reflexivity.
Qed.

Section Truncation.

Local Open Scope Q_scope.

Lemma Qtrunc_abs_lt (m : Q) (n : Z) :
  (0 <= n)%Z -> Qabs m < inject_Z n + 1 -> (Z.abs (Qtrunc m) <= n)%Z.
Proof.
  intros Hn Hm. unfold Qtrunc.
  assert (Hfloor : forall y, 0 <= y -> y < inject_Z n + 1 ->
                             (0 <= Qfloor y <= n)%Z).
  { intros y Hy0 Hy1. split.
    - change 0%Z with (Qfloor 0). now apply Qfloor_resp_le.
    - pose proof (Qfloor_le y) as Hf.
      assert (Hlt : inject_Z (Qfloor y) < inject_Z (n + 1)).
      { rewrite inject_Z_plus. change (inject_Z 1) with 1. lra. }
      rewrite <- Zlt_Qlt in Hlt. lia. }
  destruct (Qle_bool 0 m) eqn:H0.
  - apply Qle_bool_iff in H0. rewrite Qabs_pos in Hm by exact H0.
    specialize (Hfloor m H0 Hm). lia.
  - assert (Hneg : m < 0).
    { apply Qnot_le_lt. intros H. apply Qle_bool_iff in H. congruence. }
    rewrite Qabs_neg in Hm by lra.
    assert (H0' : 0 <= - m) by lra.
    specialize (Hfloor (- m) H0' Hm). unfold Qceiling. lia.
Qed.

End Truncation.

(** C3, as amended: under the same conditions every returned entry,
    the final one included, deviates from [total / parts] by less than
    [diff + 1]; truncated to an integer, which is how the spec's
    scenario and the tests measure it, the deviation is at most
    [diff]. *)
Theorem split_int_quantity_deviation (E : env) (total parts diff : Z) (w : world) :
  1 <= parts <= total -> 0 <= diff -> total * parts <= 2 ^ 50 ->
  exists l w',
    split_int_quantity E total parts diff w = (Ok l, w') /\
    Forall (fun e =>
              (deviation total parts e < inject_Z diff + 1)%Q /\
              Z.abs (Qtrunc (inject_Z e - inject_Z total / inject_Z parts))
                <= diff) l.
Proof.
  intros HP HD Hsize.
  destruct (split_int_quantity_run E total parts diff w HP HD Hsize)
    as (l & Hrun & _ & _ & Hparts).
  exists l, (advance_rand (Z.to_nat (parts - 1)) w). split; [exact Hrun|].
  eapply Forall_impl; [|exact Hparts]. intros e He.
  assert (Hdev : (deviation total parts e < inject_Z diff + 1)%Q)
    by now apply part_range_deviation.
  split; [exact Hdev|]. now apply Qtrunc_abs_lt.
Qed.

Lemma split_int_quantity_deviation_witness :
  exists l w',
    split_int_quantity sample_env 10 3 2 initial_world = (Ok l, w') /\
    Forall (fun e =>
              (deviation 10 3 e < inject_Z 2 + 1)%Q /\
              Z.abs (Qtrunc (inject_Z e - inject_Z 10 / inject_Z 3)) <= 2) l.
Proof.
  apply split_int_quantity_deviation; [lia | lia | vm_compute; discriminate].
Defined.

(** * The retrying wrappers *)

Lemma range_0_MAX_RETRIES : range 0 MAX_RETRIES = [0; 1; 2].
Proof. reflexivity. Qed.

(** One attempt at placing an order, and what follows it. *)
Lemma create_order_attempts_step (E : env) (order : Order) (i : Z)
    (rest : list Z) (w : world) :
  let w1 := {| rand_used := rand_used w;
               uuid_used := uuid_used w;
               api_log := api_log w ++ [CallCreateOrder (order_args order)] |} in
  create_order_attempts E order (i :: rest) w =
    if accepted (attempt_response E order w 0)
    then (Ok (filled order), w1)
    else create_order_attempts E order rest w1.
Proof.
  cbn [create_order_attempts]. unfold try_except, bind, place, api, attempt_response.
  rewrite Nat.add_0_r.
  destruct (client_create_order E (List.length (api_log w)) (order_args order))
    as [[] | e]; cbn [accepted]; [reflexivity|].
  destruct (is_duplicate e); reflexivity.
Qed.

Lemma attempt_response_next (E : env) (order : Order) (w : world) (c : api_call)
    (k : nat) :
  attempt_response E order
    {| rand_used := rand_used w; uuid_used := uuid_used w;
       api_log := api_log w ++ [c] |} k
  = attempt_response E order w (S k).
Proof.
  unfold attempt_response. cbn [api_log]. rewrite length_app. cbn [List.length].
  f_equal. lia.
Qed.

Lemma extend_log_nil (w : world) : extend_log w [] = w.
Proof. destruct w. unfold extend_log. cbn. now rewrite app_nil_r. Qed.

Lemma extend_log_app (w : world) (c1 c2 : list api_call) :
  extend_log (extend_log w c1) c2 = extend_log w (c1 ++ c2).
Proof. unfold extend_log. cbn. now rewrite app_assoc. Qed.

(** C4: [create_order_with_retries] never raises: after at most 3
    attempts it returns a [CreationStatus] requesting [order.quantity];
    if one of the attempts is answered with success or with the
    duplicate-order error the actual quantity is [order.quantity] too,
    and if all 3 attempts fail it is [0]. *)
Theorem create_order_with_retries_status (E : env) (order : Order) (w : world) :
  exists st attempts,
    (1 <= attempts <= 3)%nat /\
    create_order_with_retries E order w
      = (Ok st, extend_log w (repeat (CallCreateOrder (order_args order))
                                     attempts)) /\
    requested_base_quantity st = quantity order /\
    ((exists k, (k < 3)%nat /\ accepted (attempt_response E order w k) = true) ->
     actual_base_quantity st = quantity order) /\
    ((forall k, (k < 3)%nat -> accepted (attempt_response E order w k) = false) ->
     actual_base_quantity st = Fin 0).
Proof.
  unfold create_order_with_retries. rewrite range_0_MAX_RETRIES.
  rewrite create_order_attempts_step.
  destruct (accepted (attempt_response E order w 0)) eqn:A0.
  { exists (filled order), 1%nat. split; [lia|]. split; [reflexivity|].
    split; [reflexivity|]. split.
    - reflexivity.
    - intros H. specialize (H 0%nat ltac:(lia)). congruence. }
  rewrite create_order_attempts_step, attempt_response_next.
  destruct (accepted (attempt_response E order w 1)) eqn:A1.
  { exists (filled order), 2%nat. split; [lia|]. split.
    { unfold extend_log. cbn. now rewrite <- app_assoc. }
    split; [reflexivity|]. split.
    - reflexivity.
    - intros H. specialize (H 1%nat ltac:(lia)). congruence. }
  rewrite create_order_attempts_step, !attempt_response_next.
  destruct (accepted (attempt_response E order w 2)) eqn:A2.
  { exists (filled order), 3%nat. split; [lia|]. split.
    { unfold extend_log. cbn. now rewrite <- !app_assoc. }
    split; [reflexivity|]. split.
    - reflexivity.
    - intros H. specialize (H 2%nat ltac:(lia)). congruence. }
  eexists _, 3%nat. split; [lia|]. split.
  { unfold extend_log. cbn. now rewrite <- !app_assoc. }
  split; [reflexivity|]. split.
  - intros (k & Hk & Hacc).
    assert (k = 0 \/ k = 1 \/ k = 2)%nat as [-> | [-> | ->]] by lia; congruence.
  - reflexivity.
Qed.

(** The calls of [create_order_with_retries]: between one and three,
    all with the order's own arguments; no identifier and no random
    number is drawn. *)
Lemma create_order_with_retries_calls (E : env) (order : Order) (w : world) :
  exists st n,
    (1 <= n <= 3)%nat /\
    create_order_with_retries E order w
      = (Ok st, extend_log w (repeat (CallCreateOrder (order_args order)) n)).
Proof.
  unfold create_order_with_retries. rewrite range_0_MAX_RETRIES.
  rewrite create_order_attempts_step.
  destruct (accepted _).
  { exists (filled order), 1%nat. split; [lia | reflexivity]. }
  rewrite create_order_attempts_step.
  destruct (accepted _).
  { exists (filled order), 2%nat. split; [lia|].
    unfold extend_log. cbn. now rewrite <- app_assoc. }
  rewrite create_order_attempts_step.
  destruct (accepted _).
  { exists (filled order), 3%nat. split; [lia|].
    unfold extend_log. cbn. now rewrite <- !app_assoc. }
  eexists _, 3%nat. split; [lia|].
  unfold extend_log. cbn. now rewrite <- !app_assoc.
Qed.

Lemma get_avg_price_attempts_step (E : env) (sym : string) (i : Z)
    (rest : list Z) (w : world) :
  get_avg_price_attempts E sym (i :: rest) w =
    match avg_price_attempt E sym (List.length (api_log w)) with
    | Ok f => (Ok (Some f), extend_log w [CallGetAvgPrice sym])
    | Raise _ => get_avg_price_attempts E sym rest
                   (extend_log w [CallGetAvgPrice sym])
    end.
Proof.
  cbn [get_avg_price_attempts].
  unfold try_except, bind, api, lift, avg_price_attempt, extend_log.
  destruct (client_get_avg_price E (List.length (api_log w)) sym) as [dict | e];
    cbn [bind_result]; [|reflexivity].
  destruct (dict_item dict "price") as [v | e]; cbn [bind_result]; [|reflexivity].
  destruct (py_float E v); reflexivity.
Qed.

Lemma get_symbol_info_attempts_step (E : env) (sym : string) (i : Z)
    (rest : list Z) (w : world) :
  get_symbol_info_attempts E sym (i :: rest) w =
    match symbol_info_attempt E sym (List.length (api_log w)) with
    | Ok c => (Ok (Some c), extend_log w [CallGetSymbolInfo sym])
    | Raise _ => get_symbol_info_attempts E sym rest
                   (extend_log w [CallGetSymbolInfo sym])
    end.
Proof.
  cbn [get_symbol_info_attempts].
  unfold try_except, bind, api, lift, symbol_info_attempt, extend_log.
  destruct (client_get_symbol_info E (List.length (api_log w)) sym) as [dict | e];
    cbn [bind_result]; [|reflexivity].
  destruct (extract_constraints E dict); reflexivity.
Qed.

(** The metadata wrappers never raise, and only query the exchange. *)
Lemma get_avg_price_attempts_run (E : env) (sym : string) (attempts : list Z)
    (w : world) :
  exists r calls,
    get_avg_price_attempts E sym attempts w = (Ok r, extend_log w calls) /\
    Forall (fun c => is_create_order c = false) calls.
Proof.
  revert w. induction attempts as [| i rest IH]; intros w.
  - exists None, []. rewrite extend_log_nil. split; [reflexivity | constructor].
  - rewrite get_avg_price_attempts_step.
    destruct (avg_price_attempt E sym _) as [f | e].
    + exists (Some f), [CallGetAvgPrice sym]. split; [reflexivity|].
      repeat constructor.
    + destruct (IH (extend_log w [CallGetAvgPrice sym])) as (r & calls & Hrun & Hq).
      exists r, (CallGetAvgPrice sym :: calls).
      rewrite Hrun, extend_log_app. split; [reflexivity|].
      constructor; [reflexivity | exact Hq].
Qed.

Lemma get_symbol_info_attempts_run (E : env) (sym : string) (attempts : list Z)
    (w : world) :
  exists r calls,
    get_symbol_info_attempts E sym attempts w = (Ok r, extend_log w calls) /\
    Forall (fun c => is_create_order c = false) calls.
Proof.
  revert w. induction attempts as [| i rest IH]; intros w.
  - exists None, []. rewrite extend_log_nil. split; [reflexivity | constructor].
  - rewrite get_symbol_info_attempts_step.
    destruct (symbol_info_attempt E sym _) as [c | e].
    + exists (Some c), [CallGetSymbolInfo sym]. split; [reflexivity|].
      repeat constructor.
    + destruct (IH (extend_log w [CallGetSymbolInfo sym])) as (r & calls & Hrun & Hq).
      exists r, (CallGetSymbolInfo sym :: calls).
      rewrite Hrun, extend_log_app. split; [reflexivity|].
      constructor; [reflexivity | exact Hq].
Qed.

(** After three failed attempts the wrapper has made three calls and
    returns [None]. *)
Lemma get_avg_price_exhausted (E : env) (sym : string) (w : world) :
  (forall k, (k < 3)%nat ->
     failed (avg_price_attempt E sym (List.length (api_log w) + k))) ->
  get_avg_price_with_retries E sym w
    = (Ok None, extend_log w (repeat (CallGetAvgPrice sym) 3)).
Proof.
  intros H. unfold get_avg_price_with_retries. rewrite range_0_MAX_RETRIES.
  pose proof (H 0%nat ltac:(lia)) as H0. pose proof (H 1%nat ltac:(lia)) as H1.
  pose proof (H 2%nat ltac:(lia)) as H2. rewrite Nat.add_0_r in H0.
  rewrite get_avg_price_attempts_step.
  destruct (avg_price_attempt E sym (List.length (api_log w))); [contradiction|].
  rewrite get_avg_price_attempts_step. cbn [extend_log api_log].
  rewrite length_app. cbn [List.length].
  destruct (avg_price_attempt E sym (List.length (api_log w) + 1)); [contradiction|].
  rewrite get_avg_price_attempts_step. cbn [extend_log api_log].
  rewrite !length_app. cbn [List.length].
  replace (List.length (api_log w) + 1 + 1)%nat with (List.length (api_log w) + 2)%nat by lia.
  destruct (avg_price_attempt E sym (List.length (api_log w) + 2)); [contradiction|].
  cbn [get_avg_price_attempts]. unfold ret, extend_log. cbn.
  now rewrite <- !app_assoc.
Qed.

Lemma get_symbol_info_exhausted (E : env) (sym : string) (w : world) :
  (forall k, (k < 3)%nat ->
     failed (symbol_info_attempt E sym (List.length (api_log w) + k))) ->
  get_symbol_info_with_retries E sym w
    = (Ok None, extend_log w (repeat (CallGetSymbolInfo sym) 3)).
Proof.
  intros H. unfold get_symbol_info_with_retries. rewrite range_0_MAX_RETRIES.
  pose proof (H 0%nat ltac:(lia)) as H0. pose proof (H 1%nat ltac:(lia)) as H1.
  pose proof (H 2%nat ltac:(lia)) as H2. rewrite Nat.add_0_r in H0.
  rewrite get_symbol_info_attempts_step.
  destruct (symbol_info_attempt E sym (List.length (api_log w))); [contradiction|].
  rewrite get_symbol_info_attempts_step. cbn [extend_log api_log].
  rewrite length_app. cbn [List.length].
  destruct (symbol_info_attempt E sym (List.length (api_log w) + 1)); [contradiction|].
  rewrite get_symbol_info_attempts_step. cbn [extend_log api_log].
  rewrite !length_app. cbn [List.length].
  replace (List.length (api_log w) + 1 + 1)%nat with (List.length (api_log w) + 2)%nat by lia.
  destruct (symbol_info_attempt E sym (List.length (api_log w) + 2)); [contradiction|].
  cbn [get_symbol_info_attempts]. unfold ret, extend_log. cbn.
  now rewrite <- !app_assoc.
Qed.

(** C9 (the code's behaviour): when all 3 attempts at the average price
    fail, [get_avg_price_with_retries] raises nothing: it returns
    [None].  The request then dies of a [TypeError] inside
    [generate_orders]; only queries have reached the exchange and no
    identifier has been drawn. *)
Theorem get_avg_price_exhausted_returns_none (E : env) (req : Request) (w : world) :
  (forall k, (k < 3)%nat ->
     failed (avg_price_attempt E (req_symbol req) (List.length (api_log w) + k))) ->
  get_avg_price_with_retries E (req_symbol req) w
    = (Ok None, extend_log w (repeat (CallGetAvgPrice (req_symbol req)) 3)) /\
  exists calls,
    process_request E req w = (Raise TypeError, extend_log w calls) /\
    Forall (fun c => is_create_order c = false) calls.
Proof.
  intros H. pose proof (get_avg_price_exhausted E _ w H) as Havg.
  split; [exact Havg|].
  unfold process_request, bind. rewrite Havg.
  destruct (get_symbol_info_attempts_run E (req_symbol req) (range 0 MAX_RETRIES)
              (extend_log w (repeat (CallGetAvgPrice (req_symbol req)) 3)))
    as (r & calls & Hrun & Hq).
  unfold get_symbol_info_with_retries. rewrite Hrun, extend_log_app.
  eexists. split; [reflexivity|].
  apply Forall_app. split; [repeat constructor | exact Hq].
Qed.

Lemma get_avg_price_exhausted_returns_none_witness :
  get_avg_price_with_retries price_down_env "BTCUSDT" initial_world
    = (Ok None, extend_log initial_world (repeat (CallGetAvgPrice "BTCUSDT") 3)) /\
  exists calls,
    process_request price_down_env sample_request initial_world
      = (Raise TypeError, extend_log initial_world calls) /\
    Forall (fun c => is_create_order c = false) calls.
Proof.
  apply (get_avg_price_exhausted_returns_none price_down_env sample_request).
  intros k _. exact I.
Defined.

(** ** Constraints from exchange metadata *)








(** * The order generator: [generate_orders] *)

Section Dequantize.

Local Open Scope Q_scope.

(** Multiplying a moderate step by a count of at most 53 bits and
    rounding to decimals cannot overflow. *)
Lemma fmul_int_moderate (sv : Q) (k : Z) :
  Qabs sv <= 2 ^ 900 -> (Z.abs k <= 2 ^ 53)%Z ->
  exists x, fmul_int (Fin sv) k = Ok (Fin x) /\ Qabs x <= 2 ^ 1000.
Proof.
  intros Hs Hk. destruct (of_int_small k Hk) as (qk & Hqk & Eqk).
  assert (Hk' : Qabs qk <= 2 ^ 53).
  { rewrite Eqk. eapply Qle_trans; [apply inject_Z_abs_le; exact Hk|]. discriminate. }
  assert (Hprod : Qabs (sv * qk) <= 2 ^ 953).
  { rewrite Qabs_Qmult.
    pose proof (Qabs_nonneg sv). pose proof (Qabs_nonneg qk).
    assert (E : 2 ^ 953 == 2 ^ 900 * 2 ^ 53) by reflexivity.
    rewrite E. nra. }
  exists (rnd (sv * qk)). split.
  - unfold fmul_int. rewrite Hqk. cbn [bind_result fmul].
    rewrite round64_fin; [reflexivity|].
    eapply Qle_trans; [exact Hprod|]. discriminate.
  - pose proof (rnd_near _ _ Hprod) as [L U].
    apply Qabs_Qle_condition in Hprod. destruct Hprod as [P0 P1].
    assert (C : 2 ^ 953 + (u53 * 2 ^ 953 + eta) <= 2 ^ 1000) by (vm_compute; discriminate).
    apply Qabs_Qle_condition. split; lra.
Qed.

End Dequantize.

Lemma dequantized_quantity_ok (c : Constraints) (sv : Q) (k : Z) :
  quantity_step_size c = Fin sv -> (Qabs sv <= 2 ^ 900)%Q -> Z.abs k <= 2 ^ 53 ->
  exists qv, dequantized_quantity c k = Ok qv.
Proof.
  intros Hc Hs Hk. unfold dequantized_quantity. rewrite Hc.
  destruct (fmul_int_moderate sv k Hs Hk) as (x & Hx & Bx).
  rewrite Hx. cbn [bind_result]. now apply round_ndigits_ok.
Qed.

Lemma dequantized_price_ok (E : env) (c : Constraints) (pv : Q) (n k : Z) :
  price_step_size c = Fin pv -> (Qabs pv <= 2 ^ 900)%Q ->
  price_digits E (price_step_size c) = Ok n -> Z.abs k <= 2 ^ 53 ->
  exists v, dequantized_price E c k = Ok v.
Proof.
  intros Hc Hs Hn Hk. unfold dequantized_price. rewrite Hn, Hc.
  destruct (fmul_int_moderate pv k Hs Hk) as (x & Hx & Bx).
  rewrite Hx. cbn [bind_result]. now apply round_ndigits_ok.
Qed.

(** One round of the loop of [generate_orders]. *)
Lemma make_order_run (E : env) (req : Request) (c : Constraints)
    (a b k : Z) (w : world) :
  step_count (min_price req) (price_step_size c) = Ok a ->
  step_count (max_price req) (price_step_size c) = Ok b ->
  a <= b ->
  (exists qv, dequantized_quantity c k = Ok qv) ->
  (forall ip, a <= ip <= b -> exists pv, dequantized_price E c ip = Ok pv) ->
  exists o,
    make_order E req c k w = (Ok o, after_order w) /\
    order_made E req c a b (uuid_used w) k o.
Proof.
  intros Hmin Hmax Hab [qv Hq] Hprice.
  destruct (randint_ok E a b w Hab) as (ip & Hdraw & Hip).
  destruct (Hprice ip Hip) as (pv & Hp).
  eexists. split.
  - unfold make_order, bind, lift. rewrite Hq, Hmin, Hmax, Hdraw, Hp.
    unfold uuid4_str, ret, after_order, advance_rand. cbn. reflexivity.
  - unfold order_made. cbn. repeat split; try assumption.
    exists ip. split; assumption.
Qed.

Lemma batch_made_length (E : env) (req : Request) (c : Constraints) (a b : Z)
    (i : nat) (ks : list Z) (os : list Order) :
  batch_made E req c a b i ks os -> List.length os = List.length ks.
Proof.
  revert i os. induction ks as [| k ks IH]; intros i [| o os] H;
    cbn in H; try contradiction; [reflexivity|].
  destruct H as [_ H]. cbn. f_equal. exact (IH _ _ H).
Qed.

(** The world after [n] orders were made. *)
Lemma make_orders_run (E : env) (req : Request) (c : Constraints) (a b : Z) :
  step_count (min_price req) (price_step_size c) = Ok a ->
  step_count (max_price req) (price_step_size c) = Ok b ->
  a <= b ->
  (forall ip, a <= ip <= b -> exists pv, dequantized_price E c ip = Ok pv) ->
  forall (ks : list Z) (acc : list Order) (w : world),
    Forall (fun k => exists qv, dequantized_quantity c k = Ok qv) ks ->
    exists os w',
      make_orders E req c ks acc w = (Ok (acc ++ os), w') /\
      batch_made E req c a b (uuid_used w) ks os /\
      api_log w' = api_log w /\
      uuid_used w' = (uuid_used w + List.length ks)%nat /\
      rand_used w' = (rand_used w + List.length ks)%nat.
Proof.
  intros Hmin Hmax Hab Hprice.
  induction ks as [| k ks IH]; intros acc w Hks.
  - exists [], w. rewrite app_nil_r. cbn. repeat split; lia.
  - inversion Hks as [| k' ks' Hk Hks']; subst.
    destruct (make_order_run E req c a b k w Hmin Hmax Hab Hk Hprice)
      as (o & Hrun & Ho).
    destruct (IH (acc ++ [o]) (after_order w) Hks')
      as (os & w' & Hrest & Hbatch & Hlog & Huuid & Hrand).
    exists (o :: os), w'. cbn [make_orders]. unfold bind at 1.
    rewrite Hrun, Hrest, <- app_assoc. cbn [app].
    split; [reflexivity|]. split; [|split; [|split]].
    + cbn [batch_made]. split; [exact Ho | exact Hbatch].
    + exact Hlog.
    + rewrite Huuid. cbn. lia.
    + rewrite Hrand. cbn. lia.
Qed.

Lemma zsum_nonneg (l : list Z) : Forall (fun e => 1 <= e) l -> 0 <= zsum l.
Proof.
  induction 1 as [| e l He _ IH]; unfold zsum in *; cbn [fold_right]; lia.
Qed.

Lemma zsum_bound (l : list Z) (k : Z) :
  Forall (fun e => 1 <= e) l -> In k l -> 1 <= k <= zsum l.
Proof.
  induction 1 as [| e l He Hl IH]; intros Hin; [contradiction|].
  pose proof (zsum_nonneg l Hl) as Hs.
  unfold zsum in *. cbn [fold_right].
  destruct Hin as [-> | Hin]; [lia|]. specialize (IH Hin). lia.
Qed.

(** A run of the generator on a request whose quantity makes at least
    [splits] steps: the parts it makes and the orders made for them. *)
Lemma generate_orders_run (E : env) (req : Request) (avg_price : float)
    (c : Constraints) (w : world) (T D a b n : Z) (sv pv : Q) :
  int_base_quantity req avg_price c = Ok T ->
  int_base_quantity_diff req avg_price c = Ok D ->
  1 <= splits req <= T -> T * splits req <= 2 ^ 50 -> 0 <= D ->
  quantity_step_size c = Fin sv -> (Qabs sv <= 2 ^ 900)%Q ->
  price_step_size c = Fin pv -> (Qabs pv <= 2 ^ 900)%Q ->
  step_count (min_price req) (price_step_size c) = Ok a ->
  step_count (max_price req) (price_step_size c) = Ok b ->
  - 2 ^ 53 <= a -> a <= b -> b <= 2 ^ 53 ->
  price_digits E (price_step_size c) = Ok n ->
  exists ks os w',
    generate_orders E req avg_price c w = (Ok os, w') /\
    Z.of_nat (List.length ks) = splits req /\
    Forall (fun k => 1 <= k) ks /\
    zsum ks = T /\
    Forall (part_range T (splits req) (half_width T (splits req) D)) ks /\
    batch_made E req c a b (uuid_used w) ks os /\
    api_log w' = api_log w /\
    uuid_used w' = (uuid_used w + List.length ks)%nat.
Proof.
  intros HT HD HP Hsize HD0 Hqs Bqs Hps Bps Hmin Hmax Ha Hab Hb Hdig.
  destruct (split_int_quantity_run E T (splits req) D w HP HD0 Hsize)
    as (ks & Hsplit & Hlen & Hsum & Hrange).
  assert (Hpos : Forall (fun k => 1 <= k) ks).
  { eapply Forall_impl; [|exact Hrange]. intros e He.
    now apply (part_range_positive T (splits req) D). }
  assert (Hprice : forall ip, a <= ip <= b ->
                     exists v, dequantized_price E c ip = Ok v).
  { intros ip Hip. apply (dequantized_price_ok E c pv n); try assumption. lia. }
  assert (Hquant : Forall (fun k => exists qv, dequantized_quantity c k = Ok qv) ks).
  { apply Forall_forall. intros k Hin.
    pose proof (zsum_bound ks k Hpos Hin) as Hk. rewrite Hsum in Hk.
    apply (dequantized_quantity_ok c sv); try assumption. nia. }
  destruct (make_orders_run E req c a b Hmin Hmax Hab Hprice ks []
              (advance_rand (Z.to_nat (splits req - 1)) w) Hquant)
    as (os & w' & Hmake & Hbatch & Hlog & Huuid & _).
  exists ks, os, w'. split; [|repeat split; assumption].
  unfold int_base_quantity in HT. unfold int_base_quantity_diff in HD.
  unfold generate_orders, bind, lift.
  destruct (fdiv (usd_vol req) avg_price) as [bq | e]; [|discriminate HT].
  cbn [bind_result] in HT. rewrite HT.
  destruct (fdiv (usd_diff req) avg_price) as [bd | e]; [|discriminate HD].
  cbn [bind_result] in HD. rewrite HD, Hsplit. exact Hmake.
Qed.

Section DecimalSteps.

Local Open Scope Q_scope.

Lemma rhe_near (z : Q) (n : Z) : Qabs (z - inject_Z n) < 1 # 2 -> rhe z = n.
Proof.
  intros H. apply Qabs_Qlt_condition in H. destruct H as [L U].
  pose proof (rhe_error z) as [RL RU].
  assert (A : inject_Z (n - 1) < inject_Z (rhe z)).
  { rewrite inject_Z_sub. change (inject_Z 1) with 1. lra. }
  assert (B : inject_Z (rhe z) < inject_Z (n + 1)).
  { rewrite inject_Z_plus. change (inject_Z 1) with 1. lra. }
  rewrite <- Zlt_Qlt in A, B. lia.
Qed.

(** Error of [x * t] against [K * M] when [x] is the rounded product of
    [K] and the rounded quotient [M / t]. *)
Lemma decimal_error (u e t K M y0 sv x : Q) :
  0 <= u -> 0 <= e -> 0 <= t -> 0 <= K -> y0 * t == M ->
  y0 - (u * y0 + e) <= sv -> sv <= y0 + (u * y0 + e) ->
  sv * K - (u * (2 * y0 * K) + e) <= x -> x <= sv * K + (u * (2 * y0 * K) + e) ->
  u * (K * M) <= 1 # 8 -> e * t * K <= 1 # 1000 -> e * t <= 1 # 1000 ->
  Qabs (x * t - K * M) < 1 # 2.
Proof.
  intros Hu He Ht HK Hy S0 S1 X0 X1 G1 G2 G3.
  assert (KT : 0 <= K * t) by (apply Qmult_le_0_compat; assumption).
  assert (D1 : (sv - y0) * (K * t) <= (u * y0 + e) * (K * t))
    by (apply Qmult_le_compat_r; [lra | exact KT]).
  assert (D2 : (- (u * y0 + e)) * (K * t) <= (sv - y0) * (K * t))
    by (apply Qmult_le_compat_r; [lra | exact KT]).
  assert (D3 : (x - sv * K) * t <= (u * (2 * y0 * K) + e) * t)
    by (apply Qmult_le_compat_r; [lra | exact Ht]).
  assert (D4 : (- (u * (2 * y0 * K) + e)) * t <= (x - sv * K) * t)
    by (apply Qmult_le_compat_r; [lra | exact Ht]).
  assert (F1 : (u * y0 + e) * (K * t) == u * (K * M) + e * t * K)
    by (rewrite <- Hy; ring).
  assert (F1' : (- (u * y0 + e)) * (K * t) == - (u * (K * M) + e * t * K))
    by (rewrite <- Hy; ring).
  assert (F2 : (u * (2 * y0 * K) + e) * t == 2 * (u * (K * M)) + e * t)
    by (rewrite <- Hy; ring).
  assert (F2' : (- (u * (2 * y0 * K) + e)) * t == - (2 * (u * (K * M)) + e * t))
    by (rewrite <- Hy; ring).
  assert (F3 : x * t - K * M == (x - sv * K) * t + (sv - y0) * (K * t))
    by (rewrite <- Hy; ring).
  rewrite F1 in D1. rewrite F1' in D2. rewrite F2 in D3. rewrite F2' in D4.
  rewrite F3. apply Qabs_Qlt_condition. split; lra.
Qed.

Lemma Qmult_le_1 (a b c : Q) : 0 <= a -> b <= c -> a * b <= a * c.
Proof. intros Ha Hbc. rewrite !(Qmult_comm a). now apply Qmult_le_compat_r. Qed.

(** When the quantity step is the double nearest to the decimal
    [m / 10^p] and quantities are rounded to [p] places, the quantity
    of [k] steps is the double nearest to the decimal [k * m / 10^p],
    and it is positive. *)
Lemma dequantized_quantity_decimal (c : Constraints) (m k : Z) :
  quantity_step_size c = round64 (inject_Z m / 10 ^ quantity_precision c) ->
  (0 <= quantity_precision c <= 300)%Z ->
  (1 <= m)%Z -> (1 <= k)%Z -> (k * m <= 2 ^ 50)%Z ->
  exists v,
    dequantized_quantity c k = Ok (Fin v) /\
    Fin v = round64 (inject_Z (k * m) / 10 ^ quantity_precision c) /\
    0 < v.
Proof.
  remember (quantity_precision c) as p eqn:Dp. intros Hstep Hp Hm Hk Hkm.
  remember (10 ^ p) as t eqn:Dt. remember (10 ^ 300) as t300 eqn:Dt300.
  set (K := inject_Z k). set (Mq := inject_Z m).
  assert (Ht1 : 1 <= t).
  { subst t. change 1 with (10 ^ 0). apply Qpower_le_compat_l; [lia | discriminate]. }
  assert (Ht2 : t <= t300).
  { subst t t300. apply Qpower_le_compat_l; [lia | discriminate]. }
  assert (HK1 : 1 <= K) by (unfold K; change 1 with (inject_Z 1); rewrite <- Zle_Qle; lia).
  assert (HM1 : 1 <= Mq) by (unfold Mq; change 1 with (inject_Z 1); rewrite <- Zle_Qle; lia).
  assert (HKM : K * Mq <= 1125899906842624).
  { unfold K, Mq. rewrite <- inject_Z_mult.
    change 1125899906842624 with (inject_Z (2 ^ 50)). now rewrite <- Zle_Qle. }
  assert (U0 : 0 < u53) by reflexivity.
  assert (U1 : u53 * 1125899906842624 == 1 # 8) by reflexivity.
  assert (U2 : u53 <= 1 # 2) by (vm_compute; discriminate).
  assert (E0 : 0 < eta) by reflexivity.
  assert (E1 : eta * t300 * 1125899906842624 <= 1 # 1000)
    by (subst t300; vm_compute; discriminate).
  assert (E2 : eta * t300 <= 1 # 1000) by (subst t300; vm_compute; discriminate).
  assert (E3 : eta * t300 <= (1 # 4) * (1 - u53)) by (subst t300; vm_compute; discriminate).
  assert (HMle : Mq <= 1125899906842624).
  { apply Qle_trans with (K * Mq); [|exact HKM].
    rewrite <- (Qmult_1_l Mq) at 1. apply Qmult_le_compat_r; lra. }
  assert (HKle : K <= 1125899906842624).
  { apply Qle_trans with (K * Mq); [|exact HKM].
    rewrite <- (Qmult_1_r K) at 1. apply Qmult_le_1; lra. }
  assert (Et : eta * t <= eta * t300) by (apply Qmult_le_1; lra).
  assert (ET0 : 0 <= eta * t300) by (apply Qmult_le_0_compat; lra).
  assert (EtK : eta * t * K <= 1 # 1000).
  { apply Qle_trans with (eta * t300 * 1125899906842624); [|exact E1].
    apply Qle_trans with (eta * t300 * K);
      [apply Qmult_le_compat_r; lra | apply Qmult_le_1; lra]. }
  assert (G1 : u53 * (K * Mq) <= 1 # 8).
  { rewrite <- U1. apply Qmult_le_1; lra. }
  set (y0 := Mq / t).
  assert (Hy0 : y0 * t == Mq) by (unfold y0; field; lra).
  assert (Hy0pos : 0 < y0) by (unfold y0; apply Qlt_shift_div_l; lra).
  assert (Hy0le : y0 <= Mq).
  { rewrite <- Hy0. rewrite <- (Qmult_1_r y0) at 1. apply Qmult_le_1; lra. }
  (* the step *)
  assert (Hfin0 : round64 y0 = Fin (rnd y0)).
  { apply round64_fin. rewrite Qabs_pos by lra.
    assert (1125899906842624 <= 2 ^ 1023) by discriminate. lra. }
  pose proof (rnd_near y0 y0 ltac:(rewrite Qabs_pos; lra)) as [S0 S1].
  set (sv := rnd y0) in *.
  assert (Uy : u53 * y0 <= (1 # 2) * y0) by (apply Qmult_le_compat_r; lra).
  assert (Ey : eta <= (1 # 4) * y0).
  { assert (A : eta * t300 <= (1 # 4) * (y0 * t300)).
    { apply Qle_trans with ((1 # 4) * (1 - u53)); [exact E3|].
      assert (1 <= y0 * t300); [|lra].
      apply Qle_trans with (y0 * t); [lra | apply Qmult_le_1; lra]. }
    assert (B : 0 < t300) by lra.
    assert (C : eta * t300 <= ((1 # 4) * y0) * t300) by lra.
    apply Qmult_lt_0_le_reg_r in C; assumption. }
  assert (Hsv0 : 0 <= sv) by lra.
  assert (Hsv1 : sv <= 2 * y0) by lra.
  (* the product *)
  destruct (of_int_small k ltac:(lia)) as (qk & Hqk & Eqk). fold K in Eqk.
  assert (Eprod : sv * qk == sv * K) by (now rewrite Eqk).
  assert (Hprod : Qabs (sv * K) <= 2 * y0 * K).
  { rewrite Qabs_pos by (apply Qmult_le_0_compat; lra).
    apply Qmult_le_compat_r; lra. }
  assert (Hy0K : y0 * K <= 1125899906842624).
  { apply Qle_trans with (K * Mq); [|exact HKM]. rewrite (Qmult_comm K).
    apply Qmult_le_compat_r; lra. }
  assert (Hfin1 : round64 (sv * K) = Fin (rnd (sv * K))).
  { apply round64_fin. eapply Qle_trans; [exact Hprod|].
    assert (2 * 1125899906842624 <= 2 ^ 1023) by discriminate. lra. }
  pose proof (rnd_near _ _ Hprod) as [X0 X1].
  set (x := rnd (sv * K)) in *.
  (* the decimal rounding *)
  assert (Hclose : Qabs (x * t - inject_Z (k * m)) < 1 # 2).
  { rewrite inject_Z_mult. fold K Mq.
    apply (decimal_error u53 eta t K Mq y0 sv x); try lra. }
  pose proof (rhe_near _ _ Hclose) as Hrhe.
  set (y := inject_Z (k * m) / t).
  assert (Hyt : y * t == K * Mq).
  { unfold y. rewrite inject_Z_mult. fold K Mq. field. lra. }
  assert (HKM1 : 1 <= K * Mq).
  { apply Qle_trans with (K * 1); [lra | apply Qmult_le_1; lra]. }
  assert (Hy1 : 0 < y).
  { unfold y. apply Qlt_shift_div_l; [lra|]. rewrite Qmult_0_l, inject_Z_mult.
    fold K Mq. lra. }
  assert (Hy2 : y <= 1125899906842624).
  { apply Qle_trans with (K * Mq); [|exact HKM]. rewrite <- Hyt.
    rewrite <- (Qmult_1_r y) at 1. apply Qmult_le_1; lra. }
  assert (Hfin2 : round64 y = Fin (rnd y)).
  { apply round64_fin. rewrite Qabs_pos by lra.
    assert (1125899906842624 <= 2 ^ 1023) by discriminate. lra. }
  exists (rnd y). split; [|split].
  - unfold dequantized_quantity. rewrite Hstep, <- Dp. fold Mq y0.
    rewrite Hfin0. fold sv. unfold fmul_int. rewrite Hqk. cbn [bind_result fmul].
    rewrite (round64_comp _ _ Eprod), Hfin1. fold x. unfold round_ndigits.
    destruct (Z.ltb_spec 323 p); [lia|]. destruct (Z.ltb_spec p (-308)); [lia|].
    rewrite <- Dt, Hrhe. fold y. now rewrite Hfin2.
  - fold y. now rewrite Hfin2.
  - pose proof (rnd_near y y ltac:(rewrite Qabs_pos; lra)) as [V0 V1].
    assert (Uy' : u53 * y <= (1 # 2) * y) by (apply Qmult_le_compat_r; lra).
    assert (Ey' : eta <= (1 # 4) * y).
    { assert (A : eta * t300 <= (1 # 4) * (y * t300)).
      { apply Qle_trans with ((1 # 4) * (1 - u53)); [exact E3|].
        assert (1 <= y * t300); [|lra].
        apply Qle_trans with (y * t); [lra | apply Qmult_le_1; lra]. }
      assert (B : 0 < t300) by lra.
      assert (C : eta * t300 <= ((1 # 4) * y) * t300) by lra.
      apply Qmult_lt_0_le_reg_r in C; assumption. }
    lra.
Qed.

Lemma decimal_step_moderate (c : Constraints) (m : Z) :
  quantity_step_size c = round64 (inject_Z m / 10 ^ quantity_precision c) ->
  (0 <= quantity_precision c)%Z -> (1 <= m <= 2 ^ 50)%Z ->
  exists sv, quantity_step_size c = Fin sv /\ Qabs sv <= 2 ^ 900.
Proof.
  intros Hstep Hp Hm. remember (10 ^ quantity_precision c) as t eqn:Dt.
  assert (Ht1 : 1 <= t).
  { subst t. change 1 with (10 ^ 0). apply Qpower_le_compat_l; [lia | discriminate]. }
  assert (HM1 : 1 <= inject_Z m) by (change 1 with (inject_Z 1); rewrite <- Zle_Qle; lia).
  assert (HM2 : inject_Z m <= 1125899906842624).
  { change 1125899906842624 with (inject_Z (2 ^ 50)). rewrite <- Zle_Qle. lia. }
  set (y0 := inject_Z m / t) in *.
  assert (Hy0 : y0 * t == inject_Z m) by (unfold y0; field; lra).
  assert (Hy0pos : 0 < y0) by (unfold y0; apply Qlt_shift_div_l; lra).
  assert (Hy0le : y0 <= inject_Z m).
  { rewrite <- Hy0. rewrite <- (Qmult_1_r y0) at 1. apply Qmult_le_1; lra. }
  assert (Hb : Qabs y0 <= 1125899906842624) by (rewrite Qabs_pos; lra).
  exists (rnd y0). split.
  - rewrite Hstep. apply round64_fin.
    assert (1125899906842624 <= 2 ^ 1023) by discriminate. lra.
  - pose proof (rnd_near _ _ Hb) as [L U].
    assert (C : 1125899906842624 + (u53 * 1125899906842624 + eta) <= 2 ^ 900)
      by (vm_compute; discriminate).
    apply Qabs_Qle_condition. split; lra.
Qed.

(** Truncation of a ratio that gives at least 1 rounds down by less
    than one. *)
Lemma Qtrunc_within_one (r : Q) (T : Z) :
  Qtrunc r = T -> (1 <= T)%Z -> inject_Z T <= r < inject_Z T + 1.
Proof.
  intros Ht HT. unfold Qtrunc in Ht. destruct (Qle_bool 0 r) eqn:Hr.
  - subst T. pose proof (Qfloor_le r). pose proof (Qlt_floor r) as U.
    rewrite inject_Z_plus in U. change (inject_Z 1) with 1 in U. split; lra.
  - exfalso. assert (Hneg : r <= 0).
    { apply Qlt_le_weak, Qnot_le_lt. intros H. apply Qle_bool_iff in H. congruence. }
    apply Qceiling_resp_le in Hneg. change (Qceiling 0) with 0%Z in Hneg. lia.
Qed.

End DecimalSteps.

(** * What every run leaves untouched *)

Lemma bind_run {A B} (c : M A) (k : A -> M B) (w : world) (r : result B)
    (w' : world) :
  bind c k w = (r, w') ->
  (exists a w1, c w = (Ok a, w1) /\ k a w1 = (r, w')) \/
  (exists e, c w = (Raise e, w') /\ r = Raise e).
Proof.
  unfold bind. destruct (c w) as [[a | e] w1]; intros H.
  - left. eauto.
  - right. injection H as <- <-. eauto.
Qed.

Lemma lift_run {A} (x : result A) (w : world) (r : result A) (w' : world) :
  lift x w = (r, w') -> r = x /\ w' = w.
Proof. unfold lift. intros H. injection H as <- <-. auto. Qed.

Lemma only_random_refl (w : world) : only_random w w.
Proof. split; reflexivity. Qed.

Lemma only_random_trans (w1 w2 w3 : world) :
  only_random w1 w2 -> only_random w2 w3 -> only_random w1 w3.
Proof. intros [A1 B1] [A2 B2]. split; congruence. Qed.

Lemma randint_frame (E : env) (a b : Z) (w : world) (r : result Z) (w' : world) :
  randint E a b w = (r, w') -> only_random w w'.
Proof.
  unfold randint. destruct (b <? a); intros H; injection H as <- <-;
    split; reflexivity.
Qed.

Lemma randint_empty (E : env) (a b : Z) (w : world) :
  b < a -> randint E a b w = (Raise ValueError, w).
Proof. intros H. unfold randint. now destruct (Z.ltb_spec b a); [|lia]. Qed.

(** Peel the monadic steps of a run off a hypothesis. *)
Tactic Notation "step_run" hyp(H) "as" ident(a) ident(w1) ident(H1) :=
  let e := fresh "e" in
  apply bind_run in H;
  destruct H as [(a & w1 & H1 & H) | (e & H1 & H)].

(** The same for a step that is a pure computation. *)
Ltac lift_step H :=
  let a := fresh "a" in let w1 := fresh "w" in
  let H1 := fresh "Hs" in let e := fresh "e" in
  let Hr := fresh "Hr" in let Hw := fresh "Hw" in
  apply bind_run in H;
  destruct H as [(a & w1 & H1 & H) | (e & H1 & H)];
  apply lift_run in H1; destruct H1 as [Hr Hw]; subst.

Lemma cut_point_frame (E : env) (step : float) (diff i : Z) (w : world)
    (r : result Z) (w' : world) :
  cut_point E step diff i w = (r, w') -> only_random w w'.
Proof.
  unfold cut_point. intros H.
  repeat (lift_step H; [| apply only_random_refl]).
  now apply randint_frame in H.
Qed.

Lemma cut_points_frame (E : env) (step : float) (diff : Z) (indices : list Z) :
  forall (values : list Z) (w : world) (r : result (list Z)) (w' : world),
    cut_points E step diff indices values w = (r, w') ->
    only_random w w' /\
    forall vs, r = Ok vs -> (List.length values <= List.length vs)%nat.
Proof.
  induction indices as [| i rest IH]; intros values w r w' H.
  - cbn in H. unfold ret in H. injection H as <- <-.
    split; [apply only_random_refl|]. intros vs Hvs. injection Hvs as <-. lia.
  - cbn [cut_points] in H. step_run H as v w1 Hstep.
    + apply cut_point_frame in Hstep. apply IH in H. destruct H as [F L].
      split; [eapply only_random_trans; eauto|].
      intros vs Hvs. specialize (L vs Hvs). rewrite length_app in L. cbn in L. lia.
    + apply cut_point_frame in Hstep. split; [exact Hstep|].
      intros vs Hvs. congruence.
Qed.

Lemma differences_nonempty (values : list Z) (total : Z) :
  values <> [] -> differences (values ++ [total]) <> [].
Proof.
  intros Hne. rewrite differences_deltas.
  destruct values as [| v vs]; [contradiction|].
  cbn [app]. intros Hnil. apply (f_equal (@List.length Z)) in Hnil.
  rewrite deltas_length, length_app in Hnil. cbn in Hnil. lia.
Qed.

(** The partitioner only draws random numbers, and a list it returns is
    not empty. *)
Lemma split_int_quantity_frame (E : env) (total parts diff : Z) (w : world)
    (r : result (list Z)) (w' : world) :
  split_int_quantity E total parts diff w = (r, w') ->
  only_random w w' /\ forall l, r = Ok l -> l <> [].
Proof.
  unfold split_int_quantity. intros H.
  step_run H as u w1 Hassert.
  2:{ unfold assert_ in Hassert. destruct (parts <=? total); [discriminate|].
      unfold raise in Hassert. injection Hassert as <- <-.
      split; [apply only_random_refl | intros; congruence]. }
  assert (w1 = w).
  { unfold assert_ in Hassert. destruct (parts <=? total);
      unfold ret, raise in Hassert; congruence. }
  subst w1. clear Hassert.
  lift_step H; [| split; [apply only_random_refl | intros; congruence]].
  lift_step H; [| split; [apply only_random_refl | intros; congruence]].
  step_run H as values w1 Hcuts.
  - apply cut_points_frame in Hcuts. destruct Hcuts as [F L].
    unfold ret in H. injection H as <- <-. split; [exact F|].
    intros l Hl. injection Hl as <-. apply differences_nonempty.
    specialize (L _ eq_refl). cbn in L. destruct values; [cbn in L; lia | discriminate].
  - apply cut_points_frame in Hcuts. destruct Hcuts as [F _].
    split; [exact F | intros; congruence].
Qed.


Lemma make_order_frame (E : env) (req : Request) (c : Constraints) (k : Z)
    (w : world) (r : result Order) (w' : world) :
  make_order E req c k w = (r, w') ->
  api_log w' = api_log w /\
  match r with
  | Ok o => uuid_used w' = S (uuid_used w) /\
            order_id o = uuid_source E (uuid_used w) /\
            carries_request req o
  | Raise _ => uuid_used w' = uuid_used w
  end.
Proof.
  unfold make_order. intros H.
  lift_step H; [| auto].
  lift_step H; [| auto].
  lift_step H; [| auto].
  step_run H as ip w1 Hdraw.
  2:{ apply randint_frame in Hdraw. destruct Hdraw as [U L]. subst. auto. }
  apply randint_frame in Hdraw. destruct Hdraw as [U L].
  lift_step H; [| auto].
  unfold bind, uuid4_str, ret in H. injection H as <- <-. cbn.
  rewrite U, L. repeat split.
Qed.


Lemma fresh_ids_cons (E : env) (i n : nat) :
  fresh_ids E i (S n) = uuid_source E i :: fresh_ids E (S i) n.
Proof. reflexivity. Qed.

Lemma make_orders_frame (E : env) (req : Request) (c : Constraints)
    (ks : list Z) :
  forall (acc : list Order) (w : world) (r : result (list Order)) (w' : world),
    make_orders E req c ks acc w = (r, w') ->
    api_log w' = api_log w /\
    match r with
    | Ok os =>
        exists new,
          os = acc ++ new /\
          List.length new = List.length ks /\
          map order_id new = fresh_ids E (uuid_used w) (List.length ks) /\
          Forall (carries_request req) new /\
          uuid_used w' = (uuid_used w + List.length ks)%nat
    | Raise _ => True
    end.
Proof.
  induction ks as [| k ks IH]; intros acc w r w' H.
  - cbn in H. unfold ret in H. injection H as <- <-. split; [reflexivity|].
    exists []. rewrite app_nil_r. cbn. repeat split; [constructor | lia].
  - cbn [make_orders] in H. step_run H as o w1 Hmake.
    + apply make_order_frame in Hmake. destruct Hmake as (L1 & U1 & Hid & Hreq).
      apply IH in H. destruct H as [L2 H]. split; [congruence|].
      destruct r as [os | e]; [|exact I].
      destruct H as (new & -> & Hlen & Hids & Hall & U2).
      exists (o :: new). rewrite <- app_assoc. cbn [app List.length map].
      rewrite fresh_ids_cons, Hid, Hids, U1, Hlen.
      repeat split; [constructor; assumption | lia].
    + apply make_order_frame in Hmake. destruct Hmake as [L1 _]. subst. auto.
Qed.

(** The generator never calls the exchange; the orders it returns bear
    the identifiers drawn during the call, one each and in order, and
    the request's symbol and side with the two constants. *)
Lemma generate_orders_frame (E : env) (req : Request) (avg_price : float)
    (c : Constraints) (w : world) (r : result (list Order)) (w' : world) :
  generate_orders E req avg_price c w = (r, w') ->
  api_log w' = api_log w /\
  match r with
  | Ok os =>
      map order_id os = fresh_ids E (uuid_used w) (List.length os) /\
      Forall (carries_request req) os /\
      uuid_used w' = (uuid_used w + List.length os)%nat /\
      os <> []
  | Raise _ => True
  end.
Proof.
  unfold generate_orders. intros H.
  lift_step H; [| auto].
  lift_step H; [| auto].
  lift_step H; [| auto].
  lift_step H; [| auto].
  step_run H as parts w1 Hsplit.
  2:{ apply split_int_quantity_frame in Hsplit. destruct Hsplit as [[_ L] _].
      subst. auto. }
  apply split_int_quantity_frame in Hsplit. destruct Hsplit as [[U L] Hne].
  specialize (Hne parts eq_refl).
  apply make_orders_frame in H. destruct H as [L2 H]. split; [congruence|].
  destruct r as [os | e]; [|exact I].
  destruct H as (new & -> & Hlen & Hids & Hall & U2). cbn [app].
  rewrite Hlen, Hids, U2, U. repeat split; try assumption.
  intros ->. destruct parts; [contradiction | discriminate].
Qed.


(** * Claims about the generated orders *)

Lemma batch_made_quantities (E : env) (req : Request) (c : Constraints) (a b : Z)
    (i : nat) (ks : list Z) (os : list Order) :
  batch_made E req c a b i ks os ->
  Forall2 (fun k o => dequantized_quantity c k = Ok (quantity o)) ks os.
Proof.
  revert i os. induction ks as [| k ks IH]; intros i [| o os] H;
    cbn in H; try contradiction; [constructor|].
  destruct H as [Ho H]. constructor; [|exact (IH _ _ H)].
  unfold order_made in Ho. tauto.
Qed.

(** C6, as amended: when the request's quantity makes at least [splits]
    quantity steps ([splits <= T], with [T * splits <= 2 ^ 50]), the step
    sizes are floats of moderate size, the price bounds quantize to step
    counts [a <= b] of at most 53 bits, [log10] of the price step is
    defined, and the identifiers drawn are distinct, [generate_orders]
    returns exactly [splits] orders with pairwise distinct [order_id]s,
    each carrying the request's symbol and side with
    [time_in_force = "GTC"] and [type = "LIMIT"]. *)
Theorem generate_orders_count_ids_fields (E : env) (req : Request)
    (avg_price : float) (c : Constraints) (w : world)
    (T D a b n : Z) (sv pv : Q) :
  int_base_quantity req avg_price c = Ok T ->
  int_base_quantity_diff req avg_price c = Ok D ->
  1 <= splits req <= T -> T * splits req <= 2 ^ 50 -> 0 <= D ->
  quantity_step_size c = Fin sv -> (Qabs sv <= 2 ^ 900)%Q ->
  price_step_size c = Fin pv -> (Qabs pv <= 2 ^ 900)%Q ->
  step_count (min_price req) (price_step_size c) = Ok a ->
  step_count (max_price req) (price_step_size c) = Ok b ->
  - 2 ^ 53 <= a -> a <= b -> b <= 2 ^ 53 ->
  price_digits E (price_step_size c) = Ok n ->
  NoDup (fresh_ids E (uuid_used w) (Z.to_nat (splits req))) ->
  exists os w',
    generate_orders E req avg_price c w = (Ok os, w') /\
    Z.of_nat (List.length os) = splits req /\
    NoDup (map order_id os) /\
    Forall (carries_request req) os.
Proof.
  intros HT HD HP Hsize HD0 Hqs Bqs Hps Bps Hmin Hmax Ha Hab Hb Hdig Hfresh.
  destruct (generate_orders_run E req avg_price c w T D a b n sv pv
              HT HD HP Hsize HD0 Hqs Bqs Hps Bps Hmin Hmax Ha Hab Hb Hdig)
    as (ks & os & w' & Hrun & Hlen & _ & _ & _ & Hbatch & _ & _).
  pose proof (batch_made_length _ _ _ _ _ _ _ _ Hbatch) as Hlos.
  destruct (generate_orders_frame E req avg_price c w _ _ Hrun)
    as (_ & Hids & Hfields & _ & _).
  exists os, w'. split; [exact Hrun|].
  assert (Hn : List.length os = Z.to_nat (splits req)) by lia.
  split; [lia|]. split; [|exact Hfields].
  rewrite Hids, Hn. exact Hfresh.
Qed.

Lemma generate_orders_count_ids_fields_witness :
  exists os w',
    generate_orders sample_env sample_request (Fin 3) sample_constraints
      initial_world = (Ok os, w') /\
    Z.of_nat (List.length os) = splits sample_request /\
    NoDup (map order_id os) /\
    Forall (carries_request sample_request) os.
Proof.
  apply (generate_orders_count_ids_fields sample_env sample_request (Fin 3)
           sample_constraints initial_world 196 19 28 57 3
           (rnd (17 # 1000)) (rnd (7 # 100)));
    try (vm_compute; reflexivity); try (vm_compute; discriminate).
  - split; vm_compute; discriminate.
  - vm_compute. repeat (constructor; [cbn; intuition discriminate|]). constructor.
Defined.

(** C6, as stated, fails for a valid request whose volume makes fewer
    quantity steps than [splits]: the assertion of the partitioner
    stops the call and no order is returned. *)
Lemma generate_orders_small_volume :
  valid_request small_request = true /\
  valid_constraints sample_constraints = true /\
  forall (E : env) (w : world),
    generate_orders E small_request (Fin 3) sample_constraints w
      = (Raise AssertionError, w).
Proof.
  split; [reflexivity|]. split; [reflexivity|].
  intros E w. vm_compute. reflexivity.
Qed.

(** C7: every attempt of [create_order_with_retries] passes the order's
    own [order_id] as [newClientOrderId] and draws no identifier; the
    identifiers of a generated batch were drawn during [generate_orders],
    one per order, before any call to the exchange; and, the identifiers
    drawn being distinct, no two orders of the batch share one. *)
Theorem idempotency_key_stable (E : env) (req : Request) (avg_price : float)
    (c : Constraints) (w : world) (os : list Order) (w1 : world) :
  generate_orders E req avg_price c w = (Ok os, w1) ->
  NoDup (fresh_ids E (uuid_used w) (List.length os)) ->
  map order_id os = fresh_ids E (uuid_used w) (List.length os) /\
  uuid_used w1 = (uuid_used w + List.length os)%nat /\
  api_log w1 = api_log w /\
  NoDup (map order_id os) /\
  forall (order : Order) (w2 : world),
    In order os ->
    exists st attempts,
      (1 <= attempts <= 3)%nat /\
      create_order_with_retries E order w2
        = (Ok st, extend_log w2 (repeat (CallCreateOrder (order_args order))
                                        attempts)) /\
      newClientOrderId (order_args order) = order_id order /\
      uuid_used (extend_log w2 (repeat (CallCreateOrder (order_args order))
                                       attempts)) = uuid_used w2.
Proof.
  intros Hrun Hfresh.
  destruct (generate_orders_frame E req avg_price c w _ _ Hrun)
    as (Hlog & Hids & _ & Huuid & _).
  repeat split; try assumption.
  - rewrite Hids. exact Hfresh.
  - intros order w2 _.
    destruct (create_order_with_retries_calls E order w2) as (st & n & Hn & Hcalls).
    exists st, n. repeat split; try assumption; lia.
Qed.

Lemma idempotency_key_stable_witness :
  exists os w1,
    generate_orders sample_env sample_request (Fin 3) sample_constraints
      initial_world = (Ok os, w1) /\
    map order_id os = fresh_ids sample_env (uuid_used initial_world)
                                (List.length os) /\
    uuid_used w1 = (uuid_used initial_world + List.length os)%nat /\
    api_log w1 = api_log initial_world /\
    NoDup (map order_id os) /\
    forall (order : Order) (w2 : world),
      In order os ->
      exists st attempts,
        (1 <= attempts <= 3)%nat /\
        create_order_with_retries sample_env order w2
          = (Ok st, extend_log w2 (repeat (CallCreateOrder (order_args order))
                                          attempts)) /\
        newClientOrderId (order_args order) = order_id order /\
        uuid_used (extend_log w2 (repeat (CallCreateOrder (order_args order))
                                         attempts)) = uuid_used w2.
Proof.
  eexists. eexists. split; [vm_compute; reflexivity|].
  apply (idempotency_key_stable sample_env sample_request (Fin 3)
           sample_constraints initial_world).
  - vm_compute. reflexivity.
  - vm_compute. repeat (constructor; [cbn; intuition discriminate|]). constructor.
Defined.

(** C2 (the code's behaviour): in the scenario of the repository's test
    (prices between 2 and 4 in steps of 0.07), when the random draws pick
    the lowest step count, 28, every order is priced at 1.96, below
    [min_price = 2]. *)
Theorem generate_orders_price_below_min :
  valid_request sample_request = true /\
  valid_constraints sample_constraints = true /\
  exists os w',
    generate_orders lowest_draw_env sample_request (Fin 3) sample_constraints
      initial_world = (Ok os, w') /\
    List.length os = 3%nat /\
    Forall (fun o => price o = round64 (196 # 100) /\
                     float_le (min_price sample_request) (price o) = false) os.
Proof.
  split; [reflexivity|]. split; [reflexivity|].
  eexists. eexists. split; [vm_compute; reflexivity|].
  split; [reflexivity|].
  repeat constructor; vm_compute; reflexivity.
Qed.

Lemma Forall2_with_left {A B} (P : A -> Prop) (R : A -> B -> Prop)
    (l : list A) (l' : list B) :
  Forall2 R l l' -> Forall P l -> Forall2 (fun a b => P a /\ R a b) l l'.
Proof.
  induction 1 as [| a b l l' Hab _ IH]; intros HP; [constructor|].
  inversion HP; subst. constructor; auto.
Qed.

(** C5, as amended: when the quantity step is the double nearest to the
    decimal [m / 10^quantity_precision] (the precision resolves the
    step), the request makes [T >= splits] quantity steps with
    [T * splits] and [T * m] at most [2 ^ 50], and the price side of the
    generation is defined, [generate_orders] returns orders whose
    quantities are the doubles nearest to [k * m / 10^quantity_precision]
    for whole numbers [k >= 1] of steps: positive multiples of the step at
    the declared precision.  These [k] sum to [T], the truncation of the
    float quotient [(usd_vol / avg_price) / quantity_step_size], which it
    falls short of by less than one step. *)
Theorem generate_orders_quantities (E : env) (req : Request) (avg_price : float)
    (c : Constraints) (w : world) (T D a b n m : Z) (pv : Q) :
  int_base_quantity req avg_price c = Ok T ->
  int_base_quantity_diff req avg_price c = Ok D ->
  1 <= splits req <= T -> T * splits req <= 2 ^ 50 -> 0 <= D ->
  quantity_step_size c
    = round64 (inject_Z m / 10 ^ quantity_precision c)%Q ->
  0 <= quantity_precision c <= 300 -> 1 <= m -> T * m <= 2 ^ 50 ->
  price_step_size c = Fin pv -> (Qabs pv <= 2 ^ 900)%Q ->
  step_count (min_price req) (price_step_size c) = Ok a ->
  step_count (max_price req) (price_step_size c) = Ok b ->
  - 2 ^ 53 <= a -> a <= b -> b <= 2 ^ 53 ->
  price_digits E (price_step_size c) = Ok n ->
  exists ks os w',
    generate_orders E req avg_price c w = (Ok os, w') /\
    Forall2 (fun k o =>
               1 <= k /\
               quantity o
                 = round64 (inject_Z (k * m) / 10 ^ quantity_precision c)%Q /\
               float_pos (quantity o) = true) ks os /\
    zsum ks = T /\
    exists base ratio,
      fdiv (usd_vol req) avg_price = Ok base /\
      fdiv base (quantity_step_size c) = Ok (Fin ratio) /\
      (inject_Z T <= ratio < inject_Z T + 1)%Q.
Proof.
  intros HT HD HP Hsize HD0 Hstep Hprec Hm HTm Hps Bps Hmin Hmax Ha Hab Hb Hdig.
  destruct (decimal_step_moderate c m Hstep ltac:(lia) ltac:(nia)) as (sv & Hqs & Bqs).
  destruct (generate_orders_run E req avg_price c w T D a b n sv pv
              HT HD HP Hsize HD0 Hqs Bqs Hps Bps Hmin Hmax Ha Hab Hb Hdig)
    as (ks & os & w' & Hrun & Hlen & Hpos & Hsum & _ & Hbatch & _ & _).
  exists ks, os, w'. split; [exact Hrun|]. split; [|split; [exact Hsum|]].
  - assert (Hks : Forall (fun k => 1 <= k <= T) ks).
    { apply Forall_forall. intros k Hin.
      pose proof (zsum_bound ks k Hpos Hin). lia. }
    pose proof (Forall2_with_left _ _ _ _ (batch_made_quantities _ _ _ _ _ _ _ _ Hbatch) Hks)
      as Hall.
    eapply Forall2_impl; [|exact Hall]. cbn beta. intros k o [Hk Hq].
    destruct (dequantized_quantity_decimal c m k Hstep Hprec Hm ltac:(lia) ltac:(nia))
      as (v & Hv & Ev & Pv).
    assert (Eq : quantity o = Fin v) by congruence.
    split; [lia|]. split; [congruence|].
    rewrite Eq. cbn [float_pos].
    destruct (Qle_bool v 0) eqn:Hle; [|reflexivity].
    apply Qle_bool_iff in Hle. exfalso. lra.
  - unfold int_base_quantity, step_count in HT.
    destruct (fdiv (usd_vol req) avg_price) as [base | e] eqn:Hbase;
      [|discriminate HT].
    cbn [bind_result] in HT.
    destruct (fdiv base (quantity_step_size c)) as [f | e] eqn:Hratio;
      [|discriminate HT].
    cbn [bind_result] in HT.
    destruct f as [r | s |]; cbn [to_int] in HT; try discriminate HT.
    exists base, r. split; [reflexivity|]. split; [exact Hratio|].
    apply Qtrunc_within_one; [congruence | lia].
Qed.

Lemma generate_orders_quantities_witness :
  exists ks os w',
    generate_orders sample_env sample_request (Fin 3) sample_constraints
      initial_world = (Ok os, w') /\
    Forall2 (fun k o =>
               1 <= k /\
               quantity o
                 = round64 (inject_Z (k * 1700)
                            / 10 ^ quantity_precision sample_constraints)%Q /\
               float_pos (quantity o) = true) ks os /\
    zsum ks = 196 /\
    exists base ratio,
      fdiv (usd_vol sample_request) (Fin 3) = Ok base /\
      fdiv base (quantity_step_size sample_constraints) = Ok (Fin ratio) /\
      (inject_Z 196 <= ratio < inject_Z 196 + 1)%Q.
Proof.
  apply (generate_orders_quantities sample_env sample_request (Fin 3)
           sample_constraints initial_world 196 19 28 57 3 1700 (rnd (7 # 100)));
    try (vm_compute; reflexivity); try (vm_compute; discriminate);
    split; vm_compute; discriminate.
Defined.

(** C5, as stated, fails for valid constraints whose precision is
    coarser than their quantity step: with a step of 0.5 and a precision
    of 0 decimals, a volume of 1.5 is split into three orders of
    [round(0.5, 0) = 0.0] each: no quantity is positive, and they sum to
    0, three steps away from 1.5. *)
Lemma generate_orders_coarse_precision :
  valid_request coarse_request = true /\
  valid_constraints coarse_constraints = true /\
  exists os w',
    generate_orders sample_env coarse_request (Fin 1) coarse_constraints
      initial_world = (Ok os, w') /\
    List.length os = 3%nat /\
    Forall (fun o => quantity o = Fin 0 /\ float_pos (quantity o) = false) os.
Proof.
  split; [reflexivity|]. split; [reflexivity|].
  eexists. eexists. split; [vm_compute; reflexivity|].
  split; [reflexivity|]. repeat constructor.
Qed.

(** * Malformed requests *)




(** * Further properties of the partitioner *)

Section PartitionerEdges.

Local Open Scope Q_scope.

Lemma quotient_abs_le (T P : Z) :
  P <> 0%Z -> Qabs (inject_Z T / inject_Z P) <= Qabs (inject_Z T).
Proof.
  intros HP. unfold Qdiv. rewrite Qabs_Qmult, Qabs_Qinv.
  change (Qabs (inject_Z P)) with (inject_Z (Z.abs P)).
  assert (H1 : 1 <= inject_Z (Z.abs P)).
  { change 1 with (inject_Z 1). rewrite <- Zle_Qle. lia. }
  pose proof (Qabs_nonneg (inject_Z T)) as H0.
  apply Qle_shift_div_r; [lra | nra].
Qed.

(** The step and its half for a total of moderate size, whatever the
    sign of the operands. *)
Lemma step_and_half_moderate (T P : Z) :
  P <> 0%Z -> (Z.abs T <= 2 ^ 1000)%Z ->
  exists s h,
    true_div T P = Ok (Fin s) /\
    bind_result (fdiv_int (Fin s) 2) to_int = Ok h.
Proof.
  intros HP HT.
  assert (HB : Qabs (inject_Z T / inject_Z P) <= 2 ^ 1000).
  { eapply Qle_trans; [apply quotient_abs_le; exact HP|].
    eapply Qle_trans; [apply inject_Z_abs_le; exact HT|].
    rewrite pow2_Z by lia. apply Qle_refl. }
  assert (N1 : u53 * 2 ^ 1000 + eta <= 2 ^ 1000) by (vm_compute; discriminate).
  assert (N2 : 2 ^ 1000 + 2 ^ 1000 <= 2 ^ 1023) by (vm_compute; discriminate).
  assert (N3 : 0 <= 2 ^ 1000) by (vm_compute; discriminate).
  set (B := 2 ^ 1000) in *. set (C := 2 ^ 1023) in *.
  pose proof (rnd_near _ _ HB) as [R0 R1].
  apply Qabs_Qle_condition in HB. destruct HB as [B0 B1].
  exists (rnd (inject_Z T / inject_Z P)). eexists. split.
  - unfold true_div. destruct (Z.eqb_spec P 0) as [|_]; [contradiction|].
    rewrite round64_fin; [reflexivity|].
    apply Qabs_Qle_condition. fold C. split; lra.
  - destruct (of_int_small 2 ltac:(vm_compute; discriminate)) as (q2 & Hq2 & Eq2).
    change (inject_Z 2) with 2 in Eq2.
    unfold fdiv_int. rewrite Hq2. cbn [bind_result].
    unfold fdiv. rewrite is_zero_false by (rewrite Eq2; discriminate).
    set (s := rnd (inject_Z T / inject_Z P)) in *.
    assert (Ediv : s / q2 == s * (1 # 2)) by (rewrite Eq2; field).
    rewrite (round64_comp _ _ Ediv), round64_fin; [reflexivity|].
    apply Qabs_Qle_condition. fold C. split; lra.
Qed.

Variable E : env.

(** With at most one part and a total of moderate size there is nothing
    to cut: the total comes back as the only part. *)
Lemma split_no_cut (T P D : Z) (w : world) :
  (P <= 1)%Z -> P <> 0%Z -> (P <= T)%Z -> (Z.abs T <= 2 ^ 1000)%Z ->
  split_int_quantity E T P D w = (Ok [T], w).
Proof.
  intros H1 H0 HT HB.
  destruct (step_and_half_moderate T P H0 HB) as (s & h & Hs & Hh).
  unfold split_int_quantity, bind, assert_, lift.
  destruct (Z.leb_spec P T) as [_|]; [|lia]. cbn [ret].
  rewrite Hs, Hh, range_nil by lia. cbn [cut_points]. unfold ret.
  rewrite differences_deltas. cbn [app deltas]. now rewrite Z.sub_0_r.
Qed.

End PartitionerEdges.

(** X1: asked for a single part, [split_int_quantity] returns the total
    as the only entry, whatever [diff] is, and draws no random number. *)
Theorem split_int_quantity_single_part (E : env) (total diff : Z) (w : world) :
  1 <= total <= 2 ^ 1000 ->
  split_int_quantity E total 1 diff w = (Ok [total], w).
Proof. intros H. apply split_no_cut; lia. Qed.

Lemma split_int_quantity_single_part_witness :
  split_int_quantity sample_env 10 1 5 initial_world = (Ok [10], initial_world).
Proof.
  apply (split_int_quantity_single_part sample_env 10 5 initial_world).
  split; [lia | vm_compute; discriminate].
Defined.

(** X2: a negative number of parts is not rejected: as long as
    [total >= num_of_parts], the total comes back as a single entry,
    negative totals included, and no random number is drawn. *)
Theorem split_int_quantity_negative_parts (E : env) (total parts diff : Z)
    (w : world) :
  parts < 0 -> parts <= total -> Z.abs total <= 2 ^ 1000 ->
  split_int_quantity E total parts diff w = (Ok [total], w).
Proof. intros H1 H2 H3. apply split_no_cut; lia. Qed.

Lemma split_int_quantity_negative_parts_witness :
  split_int_quantity sample_env (-2) (-3) 4 initial_world
    = (Ok [-2], initial_world).
Proof.
  apply (split_int_quantity_negative_parts sample_env (-2) (-3) 4 initial_world);
    [lia | lia | vm_compute; discriminate].
Defined.

Lemma make_even_min_odd (D h : Z) :
  D mod 2 = 1 -> make_even (Z.min D h) = make_even (Z.min (D - 1) h).
Proof.
  intros Hodd. unfold make_even.
  destruct (Z.min_spec D h) as [[H1 ->] | [H1 ->]];
    destruct (Z.min_spec (D - 1) h) as [[H2 ->] | [H2 ->]];
    repeat match goal with
           | |- context [?a mod 2 =? 1] => destruct (Z.eqb_spec (a mod 2) 1)
           end;
    Z.div_mod_to_equations; lia.
Qed.

(** X3: an odd [diff] acts as the even number just below it: the two
    calls run identically, on every input. *)
Theorem split_int_quantity_odd_diff (E : env) (total parts diff : Z) (w : world) :
  diff mod 2 = 1 ->
  split_int_quantity E total parts diff w
    = split_int_quantity E total parts (diff - 1) w.
Proof.
  intros Hodd. unfold split_int_quantity, bind.
  destruct (assert_ (parts <=? total) w) as [[u | e] w1]; [|reflexivity].
  destruct (lift (true_div total parts) w1) as [[step | e] w2]; [|reflexivity].
  destruct (lift (bind_result (fdiv_int step 2) to_int) w2) as [[h | e] w3];
    [|reflexivity].
  now rewrite (make_even_min_odd diff h Hodd).
Qed.

Lemma split_int_quantity_odd_diff_witness :
  split_int_quantity sample_env 100 4 7 initial_world
    = split_int_quantity sample_env 100 4 (7 - 1) initial_world.
Proof.
  apply (split_int_quantity_odd_diff sample_env 100 4 7 initial_world).
  reflexivity.
Defined.

(** ** The exceptions of the partitioner *)

Lemma bind_result_error {A B} (r : result A) (k : A -> result B) (e : exn)
    (P : exn -> Prop) :
  (forall e', r = Raise e' -> P e') ->
  (forall a e', r = Ok a -> k a = Raise e' -> P e') ->
  bind_result r k = Raise e -> P e.
Proof.
  intros H1 H2. destruct r as [a | e']; cbn; intros H.
  - eapply H2; eauto.
  - injection H as <-. now apply H1.
Qed.

Lemma of_int_error (z : Z) (e : exn) :
  of_int z = Raise e -> arithmetic_error e = true.
Proof.
  unfold of_int. destruct (round64 (inject_Z z)); intros H;
    congruence || (injection H as <-; reflexivity).
Qed.

Lemma to_int_error (a : float) (e : exn) :
  to_int a = Raise e -> arithmetic_error e = true.
Proof.
  destruct a; cbn [to_int]; intros H;
    congruence || (injection H as <-; reflexivity).
Qed.

Lemma fdiv_error (a b : float) (e : exn) :
  fdiv a b = Raise e -> arithmetic_error e = true.
Proof.
  unfold fdiv. destruct (is_zero b); intros H;
    congruence || (injection H as <-; reflexivity).
Qed.

Lemma true_div_error (a b : Z) (e : exn) :
  true_div a b = Raise e -> arithmetic_error e = true.
Proof.
  unfold true_div. destruct (b =? 0)%Z; [intros H; injection H as <-; reflexivity|].
  destruct (round64 _); intros H;
    congruence || (injection H as <-; reflexivity).
Qed.

Lemma fmul_int_error (f : float) (i : Z) (e : exn) :
  fmul_int f i = Raise e -> arithmetic_error e = true.
Proof.
  unfold fmul_int. apply (bind_result_error _ _ e (fun e => arithmetic_error e = true)).
  - apply of_int_error.
  - intros; discriminate.
Qed.

Lemma fdiv_int_error (f : float) (i : Z) (e : exn) :
  fdiv_int f i = Raise e -> arithmetic_error e = true.
Proof.
  unfold fdiv_int. apply (bind_result_error _ _ e (fun e => arithmetic_error e = true)).
  - apply of_int_error.
  - intros a e' _. apply fdiv_error.
Qed.

Lemma int_fdiv_error (i : Z) (f : float) (e : exn) :
  int_fdiv i f = Raise e -> arithmetic_error e = true.
Proof.
  unfold int_fdiv. apply (bind_result_error _ _ e (fun e => arithmetic_error e = true)).
  - apply of_int_error.
  - intros a e' _. apply fdiv_error.
Qed.

Lemma randint_run (E : env) (a b : Z) (w : world) :
  randint E a b w = (Raise ValueError, w) /\ b < a \/
  exists v, randint E a b w = (Ok v, advance_rand 1 w) /\ a <= v <= b.
Proof.
  destruct (Z.lt_ge_cases b a) as [H | H].
  - left. split; [now apply randint_empty | exact H].
  - right. apply randint_ok. lia.
Qed.

(** One round of the loop either draws one number or raises an
    arithmetic exception without drawing. *)
Lemma cut_point_run (E : env) (step : float) (diff i : Z) (w : world) :
  (exists e, cut_point E step diff i w = (Raise e, w) /\
             arithmetic_error e = true) \/
  (exists v, cut_point E step diff i w = (Ok v, advance_rand 1 w)).
Proof.
  unfold cut_point, bind, lift.
  destruct (fmul_int step i) as [p | e] eqn:Hp;
    [| left; exists e; split; [reflexivity | eapply fmul_int_error; eauto]].
  destruct (int_fdiv diff (Fin 2)) as [h | e] eqn:Hh;
    [| left; exists e; split; [reflexivity | eapply int_fdiv_error; eauto]].
  destruct (to_int (fsub p h)) as [lo | e] eqn:Hlo;
    [| left; exists e; split; [reflexivity | eapply to_int_error; eauto]].
  destruct (to_int (fadd p h)) as [hi | e] eqn:Hhi;
    [| left; exists e; split; [reflexivity | eapply to_int_error; eauto]].
  destruct (randint_run E lo hi w) as [[Hr _] | (v & Hr & _)].
  - left. exists ValueError. split; [exact Hr | reflexivity].
  - right. exists v. exact Hr.
Qed.

Lemma advance_rand_add (m n : nat) (w : world) :
  advance_rand m (advance_rand n w) = advance_rand (n + m) w.
Proof. unfold advance_rand. cbn. f_equal. lia. Qed.

Lemma advance_rand_0 (w : world) : advance_rand 0 w = w.
Proof. now destruct w. Qed.

(** The loop appends one cut point per index, drawing one number for
    each; it stops at the first round that raises. *)
Lemma cut_points_run (E : env) (step : float) (diff : Z) (indices : list Z) :
  forall (values : list Z) (w : world),
    (exists e n, cut_points E step diff indices values w
                   = (Raise e, advance_rand n w) /\
                 arithmetic_error e = true) \/
    (exists vs, cut_points E step diff indices values w
                  = (Ok (values ++ vs), advance_rand (List.length indices) w) /\
                List.length vs = List.length indices).
Proof.
  induction indices as [| i rest IH]; intros values w.
  - right. exists []. cbn. rewrite app_nil_r, advance_rand_0. auto.
  - cbn [cut_points]. unfold bind at 1 2.
    destruct (cut_point_run E step diff i w) as [(e & Hc & He) | (v & Hc)];
      rewrite Hc.
    + left. exists e, 0%nat. rewrite advance_rand_0. auto.
    + destruct (IH (values ++ [v]) (advance_rand 1 w))
        as [(e & n & Hr & He) | (vs & Hr & Hlen)]; rewrite Hr.
      * left. exists e, (1 + n)%nat. rewrite advance_rand_add. auto.
      * right. exists (v :: vs). rewrite advance_rand_add, <- app_assoc.
        cbn [app List.length]. rewrite Hlen. split; reflexivity.
Qed.

Lemma range_length (a b : Z) : List.length (range a b) = Z.to_nat (b - a).
Proof. unfold range. now rewrite length_map, length_seq. Qed.

(** The three ways a call of the partitioner can go. *)
Lemma split_int_quantity_cases (E : env) (T P D : Z) (w : world) :
  (T < P /\ split_int_quantity E T P D w = (Raise AssertionError, w)) \/
  (P <= T /\
   exists e n, split_int_quantity E T P D w = (Raise e, advance_rand n w) /\
               arithmetic_error e = true) \/
  (P <= T /\
   exists step h vs,
     true_div T P = Ok step /\
     bind_result (fdiv_int step 2) to_int = Ok h /\
     cut_points E step (make_even (Z.min D h)) (range 1 P) [0] w
       = (Ok (0 :: vs), advance_rand (Z.to_nat (P - 1)) w) /\
     List.length vs = Z.to_nat (P - 1) /\
     split_int_quantity E T P D w
       = (Ok (deltas (0 :: vs ++ [T])), advance_rand (Z.to_nat (P - 1)) w)).
Proof.
  unfold split_int_quantity, bind, assert_, lift.
  destruct (Z.leb_spec P T) as [HP | HP]; [right | left; split; [lia | reflexivity]].
  cbn [ret].
  destruct (true_div T P) as [step | e] eqn:Hstep.
  2:{ left. split; [exact HP|]. exists e, 0%nat. rewrite advance_rand_0.
      split; [reflexivity | eapply true_div_error; eauto]. }
  destruct (bind_result (fdiv_int step 2) to_int) as [h | e] eqn:Hh.
  2:{ left. split; [exact HP|]. exists e, 0%nat. rewrite advance_rand_0.
      split; [reflexivity|]. revert Hh.
      apply (bind_result_error _ _ e (fun e => arithmetic_error e = true)).
      - apply fdiv_int_error.
      - intros a e' _. apply to_int_error. }
  destruct (cut_points_run E step (make_even (Z.min D h)) (range 1 P) [0] w)
    as [(e & n & Hr & He) | (vs & Hr & Hlen)].
  - left. split; [exact HP|]. exists e, n. rewrite Hr. auto.
  - right. split; [exact HP|]. rewrite range_length in Hr, Hlen.
    exists step, h, vs. rewrite Hr.
    split; [reflexivity|]. split; [exact Hh|]. split; [reflexivity|].
    split; [exact Hlen|]. unfold ret. now rewrite differences_deltas.
Qed.

(** X4: [split_int_quantity] raises [AssertionError] exactly when
    [total < num_of_parts], and then before drawing any random number;
    every other exception it raises is a [ZeroDivisionError], an
    [OverflowError] or a [ValueError]. *)
Theorem split_int_quantity_exceptions (E : env) (total parts diff : Z)
    (w : world) :
  (total < parts ->
   split_int_quantity E total parts diff w = (Raise AssertionError, w)) /\
  (forall e w',
     split_int_quantity E total parts diff w = (Raise e, w') ->
     (e = AssertionError /\ total < parts) \/
     (parts <= total /\ arithmetic_error e = true)).
Proof.
  destruct (split_int_quantity_cases E total parts diff w)
    as [[H Hr] | [[H (e0 & n & Hr & He)] | [H (step & h & vs & _ & _ & _ & _ & Hr)]]];
    rewrite Hr; (split; [intros; reflexivity || lia |]); intros e w' Heq.
  - left. split; [congruence | exact H].
  - right. split; [exact H | congruence].
  - discriminate.
Qed.

(** What any successful call of the partitioner returns. *)
Lemma split_int_quantity_returns (E : env) (T P D : Z) (w : world)
    (l : list Z) (w' : world) :
  split_int_quantity E T P D w = (Ok l, w') ->
  zsum l = T /\
  Z.of_nat (List.length l) = Z.max P 1 /\
  w' = advance_rand (List.length l - 1) w.
Proof.
  intros Hrun.
  destruct (split_int_quantity_cases E T P D w)
    as [[H Hr] | [[H (e0 & n & Hr & He)] | [H (step & h & vs & _ & _ & _ & Hlen & Hr)]]];
    rewrite Hr in Hrun; try discriminate.
  assert (Hl : l = deltas (0 :: vs ++ [T])) by congruence.
  assert (Hw : w' = advance_rand (Z.to_nat (P - 1)) w) by congruence.
  subst l w'. clear Hrun.
  rewrite zsum_deltas, last_last, deltas_length, length_app, Hlen.
  cbn [List.length]. repeat split; [lia | lia |].
  f_equal. lia.
Qed.

(** X5: whenever [split_int_quantity] returns, whatever the size of its
    arguments, the entries sum to [total], there are [max(parts, 1)] of
    them, and one random number was drawn per entry but the last. *)
Theorem split_int_quantity_conserves_total (E : env) (total parts diff : Z)
    (w : world) (l : list Z) (w' : world) :
  split_int_quantity E total parts diff w = (Ok l, w') ->
  zsum l = total /\
  Z.of_nat (List.length l) = Z.max parts 1 /\
  w' = advance_rand (List.length l - 1) w.
Proof. apply split_int_quantity_returns. Qed.

Lemma split_int_quantity_conserves_total_witness :
  zsum [3; 3; 4] = 10 /\
  Z.of_nat (List.length [3; 3; 4]) = Z.max 3 1 /\
  advance_rand 2 initial_world
    = advance_rand (List.length [3; 3; 4] - 1) initial_world.
Proof.
  apply (split_int_quantity_conserves_total sample_env 10 3 2 initial_world).
  vm_compute. reflexivity.
Defined.

(** ** A window without width *)

(** With a [diff] of 0 both ends of the window are the same integer,
    which is then the cut point whatever the draw. *)
Lemma cut_point_zero_diff (E : env) (step : float) (i : Z) (w : world)
    (v : Z) (w1 : world) :
  cut_point E step 0 i w = (Ok v, w1) ->
  bind_result (fmul_int step i) (fun p => to_int (fadd p (Fin 0))) = Ok v.
Proof.
  unfold cut_point, bind, lift.
  destruct (fmul_int step i) as [p | e]; [|discriminate].
  replace (int_fdiv 0 (Fin 2)) with (Ok (Fin 0)) by (vm_compute; reflexivity).
  assert (Hsame : fsub p (Fin 0) = fadd p (Fin 0)).
  { destruct p as [x | s |]; cbn [fsub fneg fadd]; [|reflexivity..].
    apply round64_comp. ring. }
  rewrite Hsame. cbn [bind_result].
  destruct (to_int (fadd p (Fin 0))) as [lo | e]; [|discriminate].
  unfold randint. rewrite Z.ltb_irrefl. intros H.
  assert (Hv : v = lo + rand_source E (rand_used w) mod (lo - lo + 1)) by congruence.
  rewrite Hv. replace (lo - lo + 1) with 1 by lia. rewrite Z.mod_1_r. f_equal. lia.
Qed.

Lemma cut_points_zero_diff (E E' : env) (step : float) (indices : list Z) :
  forall (values : list Z) (w w' : world) (r r' : list Z) (w1 w1' : world),
    cut_points E step 0 indices values w = (Ok r, w1) ->
    cut_points E' step 0 indices values w' = (Ok r', w1') ->
    r = r'.
Proof.
  induction indices as [| i rest IH]; intros values w w' r r' w1 w1' H H'.
  - cbn in H, H'. unfold ret in H, H'. congruence.
  - cbn [cut_points] in H, H'.
    step_run H as v w2 Hv; [|discriminate].
    step_run H' as v' w2' Hv'; [|discriminate].
    apply cut_point_zero_diff in Hv, Hv'.
    assert (v = v') by congruence. subst v'.
    exact (IH _ _ _ _ _ _ _ H H').
Qed.

Lemma cut_point_zero_run (E : env) (step : float) (i : Z) (w : world) (v : Z) :
  even_cut step i = Ok v ->
  cut_point E step 0 i w = (Ok v, advance_rand 1 w).
Proof.
  unfold even_cut, cut_point, bind, lift.
  destruct (fmul_int step i) as [p | e]; [|discriminate].
  replace (int_fdiv 0 (Fin 2)) with (Ok (Fin 0)) by (vm_compute; reflexivity).
  assert (Hsame : fsub p (Fin 0) = fadd p (Fin 0)).
  { destruct p as [x | s |]; cbn [fsub fneg fadd]; [|reflexivity..].
    apply round64_comp. ring. }
  rewrite Hsame. cbn [bind_result]. intros Hv. rewrite Hv.
  unfold randint. rewrite Z.ltb_irrefl.
  replace (v - v + 1) with 1 by lia. rewrite Z.mod_1_r, Z.add_0_r. reflexivity.
Qed.

Lemma cut_points_zero_run (E : env) (step : float) (indices : list Z) :
  forall (values : list Z) (w : world) (vs : list Z),
    even_cuts step indices = Ok vs ->
    cut_points E step 0 indices values w
      = (Ok (values ++ vs), advance_rand (List.length indices) w).
Proof.
  induction indices as [| i rest IH]; intros values w vs Hvs.
  - cbn in Hvs. injection Hvs as <-. cbn. now rewrite app_nil_r, advance_rand_0.
  - cbn [even_cuts] in Hvs.
    destruct (even_cut step i) as [v | e] eqn:Hv; [|discriminate].
    destruct (even_cuts step rest) as [vs' | e] eqn:Hrest; [|discriminate].
    cbn [bind_result] in Hvs. injection Hvs as <-.
    cbn [cut_points]. unfold bind. rewrite (cut_point_zero_run E step i w v Hv).
    rewrite (IH (values ++ [v]) (advance_rand 1 w) vs' eq_refl).
    rewrite advance_rand_add, <- app_assoc. reflexivity.
Qed.

(** C3, as stated, fails beyond the precision of a float: for the total
    [2 ^ 60 + 1] in 3 parts with [diff = 0], the step
    [total / 3 = 384307168202282325.67] rounds to a multiple of 64, both
    cut points land on multiples of it, and every run returns the same
    list, whose last entry is 43 away from [total / 3] and fails the
    check of the tests. *)
Lemma split_int_quantity_beyond_precision :
  (1 <= 3 <= large_total /\ 0 <= 0) /\
  (forall (E : env) (w : world),
     split_int_quantity E large_total 3 0 w
       = (Ok [384307168202282304; 384307168202282304; 384307168202282369],
          advance_rand 2 w)) /\
  (inject_Z 43 < deviation large_total 3 384307168202282369)%Q /\
  Qtrunc (inject_Z 384307168202282369 - inject_Z large_total / inject_Z 3) = 43 /\
  check_invariants large_total 3 0
    [384307168202282304; 384307168202282304; 384307168202282369]
    = Raise AssertionError.
Proof.
  split; [split; [split; [lia | vm_compute; discriminate] | lia]|].
  split; [|split; [vm_compute; reflexivity | split; vm_compute; reflexivity]].
  intros E w.
  assert (Hstep : true_div large_total 3 = Ok (Fin (384307168202282304 # 1)))
    by (vm_compute; reflexivity).
  assert (Hhalf : bind_result (fdiv_int (Fin (384307168202282304 # 1)) 2) to_int
                  = Ok 192153584101141152) by (vm_compute; reflexivity).
  assert (Hcuts : even_cuts (Fin (384307168202282304 # 1)) (range 1 3)
                  = Ok [384307168202282304; 768614336404564608])
    by (vm_compute; reflexivity).
  unfold split_int_quantity, bind, assert_, lift.
  replace (3 <=? large_total) with true by (vm_compute; reflexivity).
  cbn [ret]. rewrite Hstep, Hhalf.
  change (make_even (Z.min 0 192153584101141152)) with 0.
  rewrite (cut_points_zero_run E _ _ _ _ _ Hcuts). unfold ret.
  vm_compute. reflexivity.
Qed.

(** X6: when [diff] is 0 or 1, or the total is less than four times the
    number of parts, the split does not depend on the random generator:
    every run returns the same list, whose entries are [total // parts]
    or one more. *)
Theorem split_int_quantity_even_split (total parts diff : Z) :
  1 <= parts <= total -> total * parts <= 2 ^ 50 -> 0 <= diff ->
  diff <= 1 \/ total < 4 * parts ->
  exists l,
    (forall (E : env) (w : world),
       split_int_quantity E total parts diff w
         = (Ok l, advance_rand (Z.to_nat (parts - 1)) w)) /\
    Forall (fun e => e = total / parts \/ e = total / parts + 1) l.
Proof.
  intros HP Hsize HD Hflat.
  destruct (step_ok total parts HP Hsize) as (s & Hs & Ss).
  pose proof (half_step_ok total parts HP Hsize s Ss) as Hh.
  assert (Hz : make_even (Z.min diff (total / (2 * parts))) = 0).
  { assert (H0 : 0 <= total / (2 * parts)) by (apply Z.div_pos; lia).
    assert (Hm : 0 <= Z.min diff (total / (2 * parts)) <= 1).
    { destruct Hflat as [H | H]; [lia|].
      assert (total / (2 * parts) < 2) by (apply Z.div_lt_upper_bound; lia).
      lia. }
    unfold make_even.
    destruct (Z.eqb_spec (Z.min diff (total / (2 * parts)) mod 2) 1);
      Z.div_mod_to_equations; lia. }
  destruct (split_int_quantity_run sample_env total parts diff initial_world
              HP HD Hsize) as (l & Hrun & _ & _ & Hparts).
  exists l. split.
  - intros E w.
    destruct (split_int_quantity_run E total parts diff w HP HD Hsize)
      as (l' & Hrun' & _). rewrite Hrun'. do 2 f_equal.
    destruct (split_int_quantity_cases sample_env total parts diff initial_world)
      as [[H Hr] | [[H (e0 & n & Hr & He)]
                   | [H (step & h & vs & Hstep & Hhalf & Hcut & _ & Hr)]]];
      rewrite Hr in Hrun; try discriminate.
    destruct (split_int_quantity_cases E total parts diff w)
      as [[H' Hr'] | [[H' (e0 & n & Hr' & He)]
                     | [H' (step' & h' & vs' & Hstep' & Hhalf' & Hcut' & _ & Hr')]]];
      rewrite Hr' in Hrun'; try discriminate.
    assert (step = Fin s) by congruence. assert (step' = Fin s) by congruence.
    subst step step'.
    assert (h = total / (2 * parts)) by congruence.
    assert (h' = total / (2 * parts)) by congruence. subst h h'.
    rewrite Hz in Hcut, Hcut'.
    pose proof (cut_points_zero_diff _ _ _ _ _ _ _ _ _ _ _ Hcut' Hcut) as Heq.
    assert (vs' = vs) by congruence. subst vs'. congruence.
  - eapply Forall_impl; [|exact Hparts]. intros e [L U].
    unfold half_width in L, U. rewrite Hz in L, U.
    change (0 / 2) with 0 in L, U.
    destruct (total mod parts =? 0); lia.
Qed.

Lemma split_int_quantity_even_split_witness :
  exists l,
    (forall (E : env) (w : world),
       split_int_quantity E 10 3 1 w
         = (Ok l, advance_rand (Z.to_nat (3 - 1)) w)) /\
    Forall (fun e => e = 10 / 3 \/ e = 10 / 3 + 1) l.
Proof.
  apply (split_int_quantity_even_split 10 3 1);
    [lia | vm_compute; discriminate | lia | left; lia].
Defined.

(** X7: however large [diff] is, it is cut down to half the step: every
    entry lies within [total // (2 * parts)], plus one, of
    [total // parts], so no entry is smaller than half the average. *)
Theorem split_int_quantity_clamped (E : env) (total parts diff : Z) (w : world) :
  1 <= parts <= total -> total * parts <= 2 ^ 50 -> 0 <= diff ->
  exists l w',
    split_int_quantity E total parts diff w = (Ok l, w') /\
    Forall (fun e => total / parts - total / (2 * parts) <= e
                       <= total / parts + total / (2 * parts) + 1) l.
Proof.
  intros HP Hsize HD.
  destruct (split_int_quantity_run E total parts diff w HP HD Hsize)
    as (l & Hrun & _ & _ & Hparts).
  exists l, (advance_rand (Z.to_nat (parts - 1)) w). split; [exact Hrun|].
  eapply Forall_impl; [|exact Hparts]. intros e [L U].
  unfold half_width in L, U.
  assert (H0 : 0 <= total / (2 * parts)) by (apply Z.div_pos; lia).
  destruct (make_even_spec (Z.min diff (total / (2 * parts))) ltac:(lia))
    as [Hdz Heven].
  pose proof (Z.div_mod (make_even (Z.min diff (total / (2 * parts)))) 2 ltac:(lia))
    as Hdm.
  rewrite Heven in Hdm.
  destruct (total mod parts =? 0); lia.
Qed.

Lemma split_int_quantity_clamped_witness :
  exists l w',
    split_int_quantity sample_env 1000 10 100000 initial_world = (Ok l, w') /\
    Forall (fun e => 1000 / 10 - 1000 / (2 * 10) <= e
                       <= 1000 / 10 + 1000 / (2 * 10) + 1) l.
Proof.
  apply (split_int_quantity_clamped sample_env 1000 10 100000 initial_world);
    [lia | vm_compute; discriminate | lia].
Defined.

(** * The invariants checked by [tests.py] *)

Lemma py_sum_zsum (l : list Z) : py_sum l = zsum l.
Proof.
  unfold py_sum, zsum. apply fold_symmetric; intros; lia.
Qed.

Section TestInvariants.

Local Open Scope Q_scope.

Variables T P : Z.
Hypothesis HP : (1 <= P <= T)%Z.
Hypothesis Hsize : (T * P <= 2 ^ 50)%Z.

(** The check made on one entry passes on every part in range. *)
Lemma check_value_ok (D e : Z) :
  (0 <= D)%Z -> part_range T P (half_width T P D) e ->
  check_value T P D e = Ok tt.
Proof.
  intros HD He.
  pose proof (part_range_positive T P D e HP HD He) as He1.
  destruct He as [L U].
  assert (Hh : (0 <= T / (2 * P))%Z) by (apply Z.div_pos; lia).
  destruct (make_even_spec (Z.min D (T / (2 * P))) ltac:(lia)) as [Hdz Heven].
  pose proof (Z.div_mod (make_even (Z.min D (T / (2 * P)))) 2 ltac:(lia)) as Hdm.
  rewrite Heven in Hdm.
  unfold half_width in L, U.
  set (d2 := (2 * (make_even (Z.min D (T / (2 * P))) / 2))%Z) in *.
  assert (Hd2 : (0 <= d2 <= D)%Z) by lia.
  assert (Hd2T : (d2 <= T)%Z).
  { assert (T / (2 * P) <= T)%Z by (apply Z.div_le_upper_bound; nia). lia. }
  pose proof (quotient_small T P HP Hsize) as Hq.
  assert (HqT : (T / P <= T)%Z) by (apply Z.div_le_upper_bound; nia).
  assert (HT50 : (T <= 2 ^ 50)%Z) by nia.
  assert (He3 : (e <= 3 * T)%Z) by (destruct (T mod P =? 0)%Z; lia).
  destruct (step_ok T P HP Hsize) as (s & Hs & [[SL SU] SE]).
  destruct (x_facts T P HP) as (X1 & X2 & X3).
  pose proof (TP_bound T P Hsize) as HTP. pose proof (Pq_pos T P HP) as HPq.
  pose proof (Tq_ge T P HP) as HTq.
  destruct u53_facts as [U0 U1]. destruct eta_facts as [E0 E1].
  assert (A : u53 * (inject_Z T * inject_Z P) <= 1 # 8) by nra.
  assert (C : eta * inject_Z P <= 1 # 1000) by nra.
  assert (UT : u53 * inject_Z T <= 1 # 8) by nra.
  assert (HTbig : inject_Z T <= 1125899906842624) by nra.
  destruct (of_int_small e ltac:(lia)) as (qe & Hqe & Eqe).
  assert (Qe0 : 1 <= qe).
  { rewrite Eqe. change 1 with (inject_Z 1). rewrite <- Zle_Qle. lia. }
  assert (Qe3 : qe <= 3 * inject_Z T).
  { rewrite Eqe. change 3 with (inject_Z 3). rewrite <- inject_Z_mult, <- Zle_Qle. lia. }
  assert (Hy : Qabs (qe + - s) <= 5 * inject_Z T).
  { apply Qabs_Qle_condition. split; nra. }
  unfold check_value.
  destruct (Z.leb_spec 1 e) as [_|]; [|lia]. cbn [assert_that bind_result].
  rewrite Hs. cbn [bind_result]. rewrite Hqe. cbn [bind_result fsub fneg fadd].
  rewrite round64_fin.
  2:{ eapply Qle_trans; [exact Hy|].
      assert (5 * 1125899906842624 <= 2 ^ 1023) by discriminate. lra. }
  cbn [to_int bind_result].
  enough (Hgoal : (Z.abs (Qtrunc (rnd (qe + - s))) <= d2)%Z).
  { destruct (Z.leb_spec (Z.abs (Qtrunc (rnd (qe + - s)))) D); [reflexivity | lia]. }
  destruct (Z.eqb_spec (T mod P) 0) as [Hdiv | Hndiv].
  - (* whole step: the subtraction is exact *)
    assert (Ey : qe + - s == inject_Z (e - T / P)).
    { rewrite (SE Hdiv), Eqe, inject_Z_sub. ring. }
    rewrite (rnd_comp _ _ Ey).
    assert (Hb : (Z.abs (e - T / P) <= 2 ^ 53)%Z) by lia.
    rewrite (Qtrunc_comp _ _ (rnd_Z _ Hb)), Qtrunc_Z. lia.
  - pose proof (Z.div_mod T P ltac:(lia)) as Hdm2.
    pose proof (Z.mod_pos_bound T P ltac:(lia)) as Hr.
    apply Qtrunc_abs_lt; [lia|].
    pose proof (rnd_near _ _ Hy) as [R0 R1].
    assert (Hup : (P * e - T <= (d2 + 1) * P - 1)%Z) by nia.
    assert (Hlo : (T - P * e <= (d2 + 1) * P - 1)%Z) by nia.
    rewrite Zle_Qle in Hup, Hlo.
    rewrite !inject_Z_sub, !inject_Z_mult, inject_Z_plus in Hup, Hlo.
    change (inject_Z 1) with 1 in Hup, Hlo.
    rewrite <- Eqe in Hup, Hlo.
    set (K := inject_Z d2 + 1) in *.
    assert (HK : 0 <= K).
    { unfold K. assert (0 <= inject_Z d2) by (apply inject_Z_nonneg; lia). lra. }
    assert (Hsmall : (u53 * (inject_Z T / inject_Z P) + eta
                      + (u53 * (5 * inject_Z T) + eta)) * inject_Z P < 1).
    { assert (Ex : u53 * (inject_Z T / inject_Z P) * inject_Z P == u53 * inject_Z T)
        by (field; lra).
      nra. }
    set (err := u53 * (inject_Z T / inject_Z P) + eta
                + (u53 * (5 * inject_Z T) + eta)) in *.
    assert (Herr : rnd (qe + - s) - (qe - inject_Z T / inject_Z P) <= err
                   /\ - err <= rnd (qe + - s) - (qe - inject_Z T / inject_Z P)).
    { unfold err. split; lra. }
    destruct Herr as [He1' He2'].
    set (r := rnd (qe + - s)) in *. set (x := inject_Z T / inject_Z P) in *.
    assert (Hdev1 : (qe - x) * inject_Z P <= K * inject_Z P - 1).
    { assert (Ed : (qe - x) * inject_Z P == inject_Z P * qe - inject_Z T)
        by (rewrite <- X2; ring).
      rewrite Ed. exact Hup. }
    assert (Hdev2 : (x - qe) * inject_Z P <= K * inject_Z P - 1).
    { assert (Ed : (x - qe) * inject_Z P == inject_Z T - inject_Z P * qe)
        by (rewrite <- X2; ring).
      rewrite Ed. exact Hlo. }
    apply Qabs_Qlt_condition. split.
    + apply Qnot_le_lt. intros Hc. nra.
    + apply Qnot_le_lt. intros Hc. nra.
Qed.

Lemma check_values_ok (D : Z) (l : list Z) :
  (0 <= D)%Z -> Forall (part_range T P (half_width T P D)) l ->
  check_values T P D l = Ok tt.
Proof.
  intros HD Hl. induction Hl as [| e l He _ IH]; [reflexivity|].
  cbn [check_values]. now rewrite (check_value_ok D e HD He).
Qed.

End TestInvariants.

(** X8: the assertions of [check_invariants] hold on every list
    [split_int_quantity] returns for [total >= parts >= 1],
    [diff >= 0] and [total * parts <= 2 ^ 50], whatever the random
    draws; the six test methods of [TestSplitIntQuantity] are instances. *)
Theorem split_test_passes (E : env) (total parts diff : Z) (w : world) :
  1 <= parts <= total -> total * parts <= 2 ^ 50 -> 0 <= diff ->
  split_test E total parts diff w
    = (Ok tt, advance_rand (Z.to_nat (parts - 1)) w).
Proof.
  intros HP Hsize HD.
  destruct (split_int_quantity_run E total parts diff w HP HD Hsize)
    as (l & Hrun & Hlen & Hsum & Hparts).
  unfold split_test, bind, lift. rewrite Hrun.
  unfold check_invariants. rewrite Hlen, Z.eqb_refl. cbn [assert_that bind_result].
  rewrite py_sum_zsum, Hsum, Z.eqb_refl. cbn [assert_that bind_result].
  now rewrite (check_values_ok total parts HP Hsize diff l HD Hparts).
Qed.

Lemma split_test_passes_witness :
  test_num_of_parts_is_large sample_env initial_world
    = (Ok tt, advance_rand (Z.to_nat (10000 - 1)) initial_world).
Proof.
  apply (split_test_passes sample_env 1000000 10000 500 initial_world);
    [lia | vm_compute; discriminate | lia].
Defined.

(** * Further properties of the retrying wrappers *)

Lemma create_order_attempts_first (E : env) (order : Order) :
  forall (k : nat) (attempts : list Z) (w : world),
    (k < List.length attempts)%nat ->
    accepted (attempt_response E order w k) = true ->
    (forall j, (j < k)%nat -> accepted (attempt_response E order w j) = false) ->
    create_order_attempts E order attempts w
      = (Ok (filled order),
         extend_log w (repeat (CallCreateOrder (order_args order)) (S k))).
Proof.
  induction k as [| k IH]; intros attempts w Hlen Hk Hbefore;
    (destruct attempts as [| i rest]; [cbn in Hlen; lia|]);
    rewrite create_order_attempts_step.
  - now rewrite Hk.
  - rewrite (Hbefore 0%nat ltac:(lia)).
    cbn [List.length] in Hlen.
    change {| rand_used := rand_used w; uuid_used := uuid_used w;
              api_log := api_log w ++ [CallCreateOrder (order_args order)] |}
      with (extend_log w [CallCreateOrder (order_args order)]).
    rewrite (IH rest (extend_log w [CallCreateOrder (order_args order)])).
    + now rewrite extend_log_app.
    + lia.
    + unfold extend_log. rewrite attempt_response_next. exact Hk.
    + intros j Hj. unfold extend_log. rewrite attempt_response_next.
      apply Hbefore. lia.
Qed.

(** X9: [create_order_with_retries] stops at the first attempt the
    exchange accepts (a normal answer or the duplicate-order error): if
    that is the attempt number [k], exactly [k + 1] calls are made and the
    order counts as placed in full. *)
Theorem create_order_stops_at_first_acceptance (E : env) (order : Order)
    (w : world) (k : nat) :
  (k < 3)%nat ->
  accepted (attempt_response E order w k) = true ->
  (forall j, (j < k)%nat -> accepted (attempt_response E order w j) = false) ->
  create_order_with_retries E order w
    = (Ok (filled order),
       extend_log w (repeat (CallCreateOrder (order_args order)) (S k))).
Proof.
  intros Hk Hacc Hbefore. unfold create_order_with_retries.
  rewrite range_0_MAX_RETRIES.
  apply create_order_attempts_first; [cbn; lia | exact Hacc | exact Hbefore].
Qed.

Lemma create_order_stops_at_first_acceptance_witness :
  create_order_with_retries flaky_env sample_order initial_world
    = (Ok (filled sample_order),
       extend_log initial_world
         (repeat (CallCreateOrder (order_args sample_order)) 2)).
Proof.
  apply (create_order_stops_at_first_acceptance flaky_env sample_order
           initial_world 1).
  - lia.
  - reflexivity.
  - intros j Hj. assert (j = 0%nat) by lia. subst j. reflexivity.
Defined.

Lemma get_avg_price_attempts_first (E : env) (sym : string) (f : float) :
  forall (k : nat) (attempts : list Z) (w : world),
    (k < List.length attempts)%nat ->
    avg_price_attempt E sym (List.length (api_log w) + k) = Ok f ->
    (forall j, (j < k)%nat ->
       failed (avg_price_attempt E sym (List.length (api_log w) + j))) ->
    get_avg_price_attempts E sym attempts w
      = (Ok (Some f), extend_log w (repeat (CallGetAvgPrice sym) (S k))).
Proof.
  induction k as [| k IH]; intros attempts w Hlen Hk Hbefore;
    (destruct attempts as [| i rest]; [cbn in Hlen; lia|]);
    rewrite get_avg_price_attempts_step.
  - rewrite Nat.add_0_r in Hk. now rewrite Hk.
  - pose proof (Hbefore 0%nat ltac:(lia)) as H0. rewrite Nat.add_0_r in H0.
    destruct (avg_price_attempt E sym (List.length (api_log w))) as [|e];
      [contradiction|].
    cbn [List.length] in Hlen.
    assert (Hshift : forall j,
              (List.length (api_log (extend_log w [CallGetAvgPrice sym])) + j
               = List.length (api_log w) + S j)%nat).
    { intros j. cbn [extend_log api_log]. rewrite length_app. cbn. lia. }
    rewrite (IH rest (extend_log w [CallGetAvgPrice sym])).
    + now rewrite extend_log_app.
    + lia.
    + rewrite Hshift. exact Hk.
    + intros j Hj. rewrite Hshift. apply Hbefore. lia.
Qed.

(** X10: [get_avg_price_with_retries] returns the price of the first
    attempt that succeeds: after [k] failed attempts (a failing call, a
    missing ['price'] or a value that is no number) it has made exactly
    [k + 1] queries. *)
Theorem get_avg_price_first_success (E : env) (sym : string) (w : world)
    (k : nat) (f : float) :
  (k < 3)%nat ->
  avg_price_attempt E sym (List.length (api_log w) + k) = Ok f ->
  (forall j, (j < k)%nat ->
     failed (avg_price_attempt E sym (List.length (api_log w) + j))) ->
  get_avg_price_with_retries E sym w
    = (Ok (Some f), extend_log w (repeat (CallGetAvgPrice sym) (S k))).
Proof.
  intros Hk Hok Hbefore. unfold get_avg_price_with_retries.
  rewrite range_0_MAX_RETRIES.
  apply get_avg_price_attempts_first; [cbn; lia | exact Hok | exact Hbefore].
Qed.

Lemma get_avg_price_first_success_witness :
  get_avg_price_with_retries flaky_env "BTCUSDT" initial_world
    = (Ok (Some (Fin 3)),
       extend_log initial_world (repeat (CallGetAvgPrice "BTCUSDT") 2)).
Proof.
  apply (get_avg_price_first_success flaky_env "BTCUSDT" initial_world 1 (Fin 3)).
  - lia.
  - reflexivity.
  - intros j Hj. assert (j = 0%nat) by lia. subst j. exact I.
Defined.

Lemma get_symbol_info_attempts_first (E : env) (sym : string) (c : Constraints) :
  forall (k : nat) (attempts : list Z) (w : world),
    (k < List.length attempts)%nat ->
    symbol_info_attempt E sym (List.length (api_log w) + k) = Ok c ->
    (forall j, (j < k)%nat ->
       failed (symbol_info_attempt E sym (List.length (api_log w) + j))) ->
    get_symbol_info_attempts E sym attempts w
      = (Ok (Some c), extend_log w (repeat (CallGetSymbolInfo sym) (S k))).
Proof.
  induction k as [| k IH]; intros attempts w Hlen Hk Hbefore;
    (destruct attempts as [| i rest]; [cbn in Hlen; lia|]);
    rewrite get_symbol_info_attempts_step.
  - rewrite Nat.add_0_r in Hk. now rewrite Hk.
  - pose proof (Hbefore 0%nat ltac:(lia)) as H0. rewrite Nat.add_0_r in H0.
    destruct (symbol_info_attempt E sym (List.length (api_log w))) as [|e];
      [contradiction|].
    cbn [List.length] in Hlen.
    assert (Hshift : forall j,
              (List.length (api_log (extend_log w [CallGetSymbolInfo sym])) + j
               = List.length (api_log w) + S j)%nat).
    { intros j. cbn [extend_log api_log]. rewrite length_app. cbn. lia. }
    rewrite (IH rest (extend_log w [CallGetSymbolInfo sym])).
    + now rewrite extend_log_app.
    + lia.
    + rewrite Hshift. exact Hk.
    + intros j Hj. rewrite Hshift. apply Hbefore. lia.
Qed.

(** X11: [get_symbol_info_with_retries] returns the constraints
    extracted at the first attempt that succeeds, after exactly [k + 1]
    queries when [k] attempts failed before it. *)
Theorem get_symbol_info_first_success (E : env) (sym : string) (w : world)
    (k : nat) (c : Constraints) :
  (k < 3)%nat ->
  symbol_info_attempt E sym (List.length (api_log w) + k) = Ok c ->
  (forall j, (j < k)%nat ->
     failed (symbol_info_attempt E sym (List.length (api_log w) + j))) ->
  get_symbol_info_with_retries E sym w
    = (Ok (Some c), extend_log w (repeat (CallGetSymbolInfo sym) (S k))).
Proof.
  intros Hk Hok Hbefore. unfold get_symbol_info_with_retries.
  rewrite range_0_MAX_RETRIES.
  apply get_symbol_info_attempts_first; [cbn; lia | exact Hok | exact Hbefore].
Qed.

Lemma get_symbol_info_first_success_witness :
  get_symbol_info_with_retries flaky_env "BTCUSDT" initial_world
    = (Ok (Some sample_constraints),
       extend_log initial_world (repeat (CallGetSymbolInfo "BTCUSDT") 2)).
Proof.
  apply (get_symbol_info_first_success flaky_env "BTCUSDT" initial_world 1
           sample_constraints).
  - lia.
  - reflexivity.
  - intros j Hj. assert (j = 0%nat) by lia. subst j. exact I.
Defined.

Lemma get_avg_price_attempts_bounded (E : env) (sym : string)
    (attempts : list Z) :
  forall w : world,
    exists r n,
      get_avg_price_attempts E sym attempts w
        = (Ok r, extend_log w (repeat (CallGetAvgPrice sym) n)) /\
      (n <= List.length attempts)%nat /\
      (r = None -> n = List.length attempts) /\
      (attempts <> [] -> 1 <= n)%nat.
Proof.
  induction attempts as [| i rest IH]; intros w.
  - exists None, 0%nat. cbn. rewrite extend_log_nil.
    repeat split; try lia; intros; congruence.
  - rewrite get_avg_price_attempts_step.
    destruct (avg_price_attempt E sym (List.length (api_log w))) as [f | e].
    + exists (Some f), 1%nat. cbn. repeat split; try lia; intros; congruence.
    + destruct (IH (extend_log w [CallGetAvgPrice sym])) as (r & n & Hr & Hn & Hnone & _).
      exists r, (S n). rewrite Hr, extend_log_app. cbn [List.length].
      repeat split; [lia | intros H; rewrite (Hnone H); reflexivity | lia].
Qed.

Lemma get_symbol_info_attempts_bounded (E : env) (sym : string)
    (attempts : list Z) :
  forall w : world,
    exists r n,
      get_symbol_info_attempts E sym attempts w
        = (Ok r, extend_log w (repeat (CallGetSymbolInfo sym) n)) /\
      (n <= List.length attempts)%nat /\
      (r = None -> n = List.length attempts) /\
      (attempts <> [] -> 1 <= n)%nat.
Proof.
  induction attempts as [| i rest IH]; intros w.
  - exists None, 0%nat. cbn. rewrite extend_log_nil.
    repeat split; try lia; intros; congruence.
  - rewrite get_symbol_info_attempts_step.
    destruct (symbol_info_attempt E sym (List.length (api_log w))) as [f | e].
    + exists (Some f), 1%nat. cbn. repeat split; try lia; intros; congruence.
    + destruct (IH (extend_log w [CallGetSymbolInfo sym])) as (r & n & Hr & Hn & Hnone & _).
      exists r, (S n). rewrite Hr, extend_log_app. cbn [List.length].
      repeat split; [lia | intros H; rewrite (Hnone H); reflexivity | lia].
Qed.

(** X12: the two metadata wrappers never raise, whatever the client
    does: each makes between one and three queries of its own kind and
    nothing else, and returns [None] only after the third. *)
Theorem metadata_wrappers_never_raise (E : env) (sym : string) (w : world) :
  (exists r n,
     get_avg_price_with_retries E sym w
       = (Ok r, extend_log w (repeat (CallGetAvgPrice sym) n)) /\
     (1 <= n <= 3)%nat /\ (r = None -> n = 3%nat)) /\
  (exists r n,
     get_symbol_info_with_retries E sym w
       = (Ok r, extend_log w (repeat (CallGetSymbolInfo sym) n)) /\
     (1 <= n <= 3)%nat /\ (r = None -> n = 3%nat)).
Proof.
  unfold get_avg_price_with_retries, get_symbol_info_with_retries.
  rewrite range_0_MAX_RETRIES. split.
  - destruct (get_avg_price_attempts_bounded E sym [0; 1; 2] w)
      as (r & n & Hr & Hn & Hnone & Hpos).
    exists r, n. cbn [List.length] in *.
    repeat split; [exact Hr | apply Hpos; discriminate | exact Hn | exact Hnone].
  - destruct (get_symbol_info_attempts_bounded E sym [0; 1; 2] w)
      as (r & n & Hr & Hn & Hnone & Hpos).
    exists r, n. cbn [List.length] in *.
    repeat split; [exact Hr | apply Hpos; discriminate | exact Hn | exact Hnone].
Qed.

(** X13: an answer of the price endpoint without a ['price'] entry
    counts as a failed attempt: when all three answers lack it, the
    wrapper returns [None] after three queries. *)
Theorem get_avg_price_missing_key (E : env) (sym : string) (w : world) :
  (forall k, (k < 3)%nat ->
     exists d, client_get_avg_price E (List.length (api_log w) + k) sym = Ok d /\
               dict_mem d "price" = false) ->
  get_avg_price_with_retries E sym w
    = (Ok None, extend_log w (repeat (CallGetAvgPrice sym) 3)).
Proof.
  intros Hmiss. apply get_avg_price_exhausted. intros k Hk.
  destruct (Hmiss k Hk) as (d & Hd & Hkey).
  unfold avg_price_attempt. rewrite Hd. cbn [bind_result].
  unfold dict_mem in Hkey. unfold dict_item.
  destruct (dict_get d "price"); [discriminate | exact I].
Qed.

Lemma get_avg_price_missing_key_witness :
  get_avg_price_with_retries priceless_env "BTCUSDT" initial_world
    = (Ok None, extend_log initial_world (repeat (CallGetAvgPrice "BTCUSDT") 3)).
Proof.
  apply (get_avg_price_missing_key priceless_env "BTCUSDT" initial_world).
  intros k Hk. eexists. split; reflexivity.
Defined.

(** ** Reading the metadata *)

Lemma first_filter_untyped (name : string) (d : pydict) (rest : list pyval)
    (prefix : list pyval) :
  Forall (fun f => well_formed_filter f /\ is_filter_of name f = false) prefix ->
  dict_mem d "filterType" = false ->
  first_filter name (prefix ++ VDict d :: rest) = Raise KeyError.
Proof.
  intros Hprefix Hd. induction Hprefix as [| f prefix [Hwf Hno] _ IH].
  - cbn [app first_filter filter_has_type]. unfold dict_item.
    unfold dict_mem in Hd. destruct (dict_get d "filterType"); [discriminate|].
    reflexivity.
  - cbn [app first_filter]. destruct f as [| | | | | | fd]; try contradiction.
    cbn [well_formed_filter] in Hwf. cbn [is_filter_of] in Hno.
    cbn [filter_has_type]. unfold dict_item. unfold dict_mem in Hwf.
    destruct (dict_get fd "filterType") as [t |]; [|discriminate].
    cbn [bind_result].
    destruct t; try exact IH. rewrite Hno. exact IH.
Qed.

(** X14: a filter that does not name its type, met before any
    [LOT_SIZE] filter, fails the attempt with the [KeyError] of
    [filter['filterType']]: when the exchange keeps answering with such
    metadata, the wrapper returns [None] after three queries, a valid
    precision or step size in the same answer notwithstanding. *)
Theorem get_symbol_info_untyped_filter (E : env) (sym : string) (w : world)
    (m d : pydict) (prefix rest : list pyval) :
  (forall k, (k < 3)%nat ->
     client_get_symbol_info E (List.length (api_log w) + k) sym = Ok (Some m)) ->
  dict_get m "filters" = Some (VList (prefix ++ VDict d :: rest)) ->
  Forall (fun f => well_formed_filter f /\ is_filter_of "LOT_SIZE" f = false)
         prefix ->
  dict_mem d "filterType" = false ->
  get_symbol_info_with_retries E sym w
    = (Ok None, extend_log w (repeat (CallGetSymbolInfo sym) 3)).
Proof.
  intros Hanswer Hfilters Hprefix Hd. apply get_symbol_info_exhausted.
  intros k Hk. unfold symbol_info_attempt. rewrite (Hanswer k Hk).
  cbn [bind_result]. destruct m as [| kv m']; [discriminate|].
  unfold extract_constraints.
  match goal with |- failed (bind_result ?r _) => destruct r as [c | e] end;
    [| exact I].
  cbn [bind_result]. unfold dict_mem, dict_item. rewrite Hfilters.
  cbn [bind_result find_filter].
  now rewrite (first_filter_untyped "LOT_SIZE" d rest prefix Hprefix Hd).
Qed.

Lemma get_symbol_info_untyped_filter_witness :
  get_symbol_info_with_retries untyped_filter_env "BTCUSDT" initial_world
    = (Ok None,
       extend_log initial_world (repeat (CallGetSymbolInfo "BTCUSDT") 3)).
Proof.
  apply (get_symbol_info_untyped_filter untyped_filter_env "BTCUSDT"
           initial_world untyped_filter_metadata
           [("tickSize", VStr "0.07")]%string []
           [VDict [("filterType", VStr "LOT_SIZE"); ("stepSize", VStr "0.017")]%string]).
  - intros k Hk. reflexivity.
  - reflexivity.
  - constructor.
  - reflexivity.
Defined.

Lemma dict_get_skip (k key : string) (v : pyval) (d : pydict) :
  k <> key -> dict_get ((k, v) :: d) key = dict_get d key.
Proof.
  intros H. cbn [dict_get]. apply String.eqb_neq in H. now rewrite H.
Qed.

(** X15: entries of the metadata other than ['baseAssetPrecision'] and
    ['filters'] are ignored: adding one changes nothing of what is
    extracted. *)
Theorem extract_constraints_ignores_other_keys (E : env) (k : string)
    (v : pyval) (d : pydict) :
  k <> "baseAssetPrecision"%string -> k <> "filters"%string ->
  extract_constraints E (Some ((k, v) :: d)) = extract_constraints E (Some d).
Proof.
  intros H1 H2. unfold extract_constraints, dict_mem, dict_item.
  rewrite !(dict_get_skip k _ v d) by assumption.
  destruct d as [| kv d']; reflexivity.
Qed.

Lemma extract_constraints_ignores_other_keys_witness :
  extract_constraints sample_env (Some sample_metadata)
    = extract_constraints sample_env
        (Some [("baseAssetPrecision", VInt 5);
               ("filters",
                VList [VDict [("filterType", VStr "PRICE_FILTER");
                              ("tickSize", VStr "0.07")];
                       VDict [("filterType", VStr "LOT_SIZE");
                              ("stepSize", VStr "0.017")]])]%string).
Proof.
  apply (extract_constraints_ignores_other_keys sample_env "symbol"
           (VStr "BTCUSDT")); discriminate.
Defined.

(** * Further properties of the order generator *)

(** What a successful round of the generator's loop did. *)
Lemma make_order_inv (E : env) (req : Request) (c : Constraints) (k : Z)
    (w : world) (o : Order) (w' : world) :
  make_order E req c k w = (Ok o, w') ->
  w' = after_order w /\
  dequantized_quantity c k = Ok (quantity o) /\
  exists a b ip,
    step_count (min_price req) (price_step_size c) = Ok a /\
    step_count (max_price req) (price_step_size c) = Ok b /\
    a <= ip <= b /\
    dequantized_price E c ip = Ok (price o).
Proof.
  unfold make_order, bind, lift.
  destruct (dequantized_quantity c k) as [q | e]; [|discriminate].
  destruct (step_count (min_price req) (price_step_size c)) as [a | e];
    [|discriminate].
  destruct (step_count (max_price req) (price_step_size c)) as [b | e];
    [|discriminate].
  destruct (randint_run E a b w) as [[Hr _] | (ip & Hr & Hip)]; rewrite Hr;
    [discriminate|].
  destruct (dequantized_price E c ip) as [p | e] eqn:Hp; [|discriminate].
  unfold uuid4_str, ret. intros H.
  assert (Ho : o = {| order_id := uuid_source E (uuid_used (advance_rand 1 w));
                      symbol := req_symbol req;
                      time_in_force := TIME_IN_FORCE_GTC;
                      quantity := q; price := p;
                      side := req_side req;
                      type := ORDER_TYPE_LIMIT |}) by congruence.
  split; [|split].
  - unfold after_order. cbn in H. congruence.
  - now rewrite Ho.
  - exists a, b, ip. rewrite Ho. cbn [price]. auto.
Qed.

Lemma make_orders_inv (E : env) (req : Request) (c : Constraints) (ks : list Z) :
  forall (acc : list Order) (w : world) (os : list Order) (w' : world),
    make_orders E req c ks acc w = (Ok os, w') ->
    exists new,
      os = acc ++ new /\
      Forall2 (fun k o => dequantized_quantity c k = Ok (quantity o)) ks new /\
      Forall (fun o =>
                exists a b ip,
                  step_count (min_price req) (price_step_size c) = Ok a /\
                  step_count (max_price req) (price_step_size c) = Ok b /\
                  a <= ip <= b /\
                  dequantized_price E c ip = Ok (price o)) new /\
      rand_used w' = (rand_used w + List.length ks)%nat /\
      uuid_used w' = (uuid_used w + List.length ks)%nat /\
      api_log w' = api_log w.
Proof.
  induction ks as [| k ks IH]; intros acc w os w' H.
  - cbn in H. unfold ret in H. exists []. rewrite app_nil_r. cbn.
    assert (os = acc) by congruence. assert (w' = w) by congruence. subst.
    split; [reflexivity|]. split; [constructor|]. split; [constructor|].
    repeat split; lia.
  - cbn [make_orders] in H. step_run H as o w1 Hmake; [|discriminate].
    apply make_order_inv in Hmake. destruct Hmake as (-> & Hq & Hp).
    apply IH in H. destruct H as (new & -> & Hqs & Hps & Hr & Hu & Hl).
    exists (o :: new). rewrite <- app_assoc. cbn [app List.length].
    cbn [after_order rand_used uuid_used api_log] in Hr, Hu, Hl.
    split; [reflexivity|]. split; [constructor; assumption|].
    split; [constructor; assumption|]. repeat split; (lia || congruence).
Qed.

(** A successful call of the generator, step by step. *)
Lemma generate_orders_inv (E : env) (req : Request) (avg_price : float)
    (c : Constraints) (w : world) (os : list Order) (w' : world) :
  generate_orders E req avg_price c w = (Ok os, w') ->
  exists T D ks w1,
    int_base_quantity req avg_price c = Ok T /\
    int_base_quantity_diff req avg_price c = Ok D /\
    split_int_quantity E T (splits req) D w = (Ok ks, w1) /\
    make_orders E req c ks [] w1 = (Ok os, w').
Proof.
  unfold generate_orders, int_base_quantity, int_base_quantity_diff, bind, lift.
  destruct (fdiv (usd_vol req) avg_price) as [bq | e]; [|discriminate].
  cbn [bind_result].
  destruct (step_count bq (quantity_step_size c)) as [T | e]; [|discriminate].
  destruct (fdiv (usd_diff req) avg_price) as [bd | e]; [|discriminate].
  cbn [bind_result].
  destruct (step_count bd (quantity_step_size c)) as [D | e]; [|discriminate].
  destruct (split_int_quantity E T (splits req) D w) as [[ks | e] w1] eqn:Hsplit;
    [|discriminate].
  intros H. exists T, D, ks, w1. auto.
Qed.

(** X16: whenever [generate_orders] returns, the step count of
    [min_price] is at most that of [max_price], and every order's price
    is the rounded product of the price step and an integer between the
    two counts. *)
Theorem generate_orders_price_counts (E : env) (req : Request)
    (avg_price : float) (c : Constraints) (w : world) (os : list Order)
    (w' : world) :
  generate_orders E req avg_price c w = (Ok os, w') ->
  exists a b,
    step_count (min_price req) (price_step_size c) = Ok a /\
    step_count (max_price req) (price_step_size c) = Ok b /\
    a <= b /\
    Forall (fun o => exists ip, a <= ip <= b /\
                                dequantized_price E c ip = Ok (price o)) os.
Proof.
  intros Hrun.
  destruct (generate_orders_frame _ _ _ _ _ _ _ Hrun) as (_ & _ & _ & _ & Hne).
  apply generate_orders_inv in Hrun.
  destruct Hrun as (T & D & ks & w1 & _ & _ & _ & Hmake).
  apply make_orders_inv in Hmake.
  destruct Hmake as (new & -> & _ & Hps & _). cbn [app] in *.
  destruct new as [| o new]; [contradiction|].
  pose proof (Forall_inv Hps) as (a & b & ip & Ha & Hb & Hip & _).
  exists a, b. repeat split; try assumption; try lia.
  eapply Forall_impl; [|exact Hps].
  intros o' (a' & b' & ip' & Ha' & Hb' & Hip' & Hp').
  exists ip'. split; [|exact Hp']. split; congruence || (
    assert (a' = a) by congruence; assert (b' = b) by congruence; lia).
Qed.

Lemma generate_orders_price_counts_witness :
  exists os w',
    generate_orders sample_env sample_request (Fin 3) sample_constraints
      initial_world = (Ok os, w') /\
    exists a b,
      step_count (min_price sample_request) (price_step_size sample_constraints)
        = Ok a /\
      step_count (max_price sample_request) (price_step_size sample_constraints)
        = Ok b /\
      a <= b /\
      Forall (fun o => exists ip, a <= ip <= b /\
                                  dequantized_price sample_env sample_constraints ip
                                    = Ok (price o)) os.
Proof.
  destruct (generate_orders sample_env sample_request (Fin 3)
              sample_constraints initial_world) as [[os | e] w'] eqn:Hrun.
  - exists os, w'. split; [reflexivity|].
    exact (generate_orders_price_counts _ _ _ _ _ _ _ Hrun).
  - exfalso. revert Hrun. vm_compute. discriminate.
Defined.

(** X17: whenever [generate_orders] returns, it returns
    [max(splits, 1)] orders, and their quantities are the rounded
    products of the quantity step and integers that sum to the whole
    quantity in steps, [int((usd_vol / avg_price) / quantity_step_size)]:
    no step of the volume is lost or added by the split. *)
Theorem generate_orders_conserves_steps (E : env) (req : Request)
    (avg_price : float) (c : Constraints) (w : world) (os : list Order)
    (w' : world) :
  generate_orders E req avg_price c w = (Ok os, w') ->
  Z.of_nat (List.length os) = Z.max (splits req) 1 /\
  exists ks,
    int_base_quantity req avg_price c = Ok (zsum ks) /\
    Forall2 (fun k o => dequantized_quantity c k = Ok (quantity o)) ks os.
Proof.
  intros Hrun. apply generate_orders_inv in Hrun.
  destruct Hrun as (T & D & ks & w1 & HT & _ & Hsplit & Hmake).
  apply split_int_quantity_returns in Hsplit. destruct Hsplit as (Hsum & Hlen & _).
  apply make_orders_inv in Hmake.
  destruct Hmake as (new & -> & Hqs & _). cbn [app].
  split.
  - rewrite <- (Forall2_length Hqs). exact Hlen.
  - exists ks. rewrite Hsum. auto.
Qed.

Lemma generate_orders_conserves_steps_witness :
  exists os w',
    generate_orders sample_env sample_request (Fin 3) sample_constraints
      initial_world = (Ok os, w') /\
    Z.of_nat (List.length os) = Z.max (splits sample_request) 1 /\
    exists ks,
      int_base_quantity sample_request (Fin 3) sample_constraints = Ok (zsum ks) /\
      Forall2 (fun k o => dequantized_quantity sample_constraints k
                            = Ok (quantity o)) ks os.
Proof.
  destruct (generate_orders sample_env sample_request (Fin 3)
              sample_constraints initial_world) as [[os | e] w'] eqn:Hrun.
  - exists os, w'. split; [reflexivity|].
    exact (generate_orders_conserves_steps _ _ _ _ _ _ _ Hrun).
  - exfalso. revert Hrun. vm_compute. discriminate.
Defined.

(** X18: a call of [generate_orders] that returns [n] orders has drawn
    [2 n - 1] random numbers ([n - 1] cut points and [n] prices) and [n]
    identifiers, and has not called the exchange. *)
Theorem generate_orders_draws (E : env) (req : Request) (avg_price : float)
    (c : Constraints) (w : world) (os : list Order) (w' : world) :
  generate_orders E req avg_price c w = (Ok os, w') ->
  rand_used w' = (rand_used w + (2 * List.length os - 1))%nat /\
  uuid_used w' = (uuid_used w + List.length os)%nat /\
  api_log w' = api_log w.
Proof.
  intros Hrun. apply generate_orders_inv in Hrun.
  destruct Hrun as (T & D & ks & w1 & _ & _ & Hsplit & Hmake).
  apply split_int_quantity_returns in Hsplit.
  destruct Hsplit as (_ & Hlen & ->).
  apply make_orders_inv in Hmake.
  destruct Hmake as (new & -> & Hqs & _ & Hr & Hu & Hl). cbn [app].
  rewrite <- (Forall2_length Hqs).
  cbn [advance_rand rand_used uuid_used api_log] in Hr, Hu, Hl.
  repeat split; (lia || congruence).
Qed.

Lemma generate_orders_draws_witness :
  exists os w',
    generate_orders sample_env sample_request (Fin 3) sample_constraints
      initial_world = (Ok os, w') /\
    rand_used w' = (rand_used initial_world + (2 * List.length os - 1))%nat /\
    uuid_used w' = (uuid_used initial_world + List.length os)%nat /\
    api_log w' = api_log initial_world.
Proof.
  destruct (generate_orders sample_env sample_request (Fin 3)
              sample_constraints initial_world) as [[os | e] w'] eqn:Hrun.
  - exists os, w'. split; [reflexivity|].
    exact (generate_orders_draws _ _ _ _ _ _ _ Hrun).
  - exfalso. revert Hrun. vm_compute. discriminate.
Defined.

(** * Further properties of [process_request] *)

Lemma create_order_attempts_none (E : env) (order : Order) :
  forall (attempts : list Z) (w : world),
    (forall k, (k < List.length attempts)%nat ->
       accepted (attempt_response E order w k) = false) ->
    create_order_attempts E order attempts w
      = (Ok (gave_up order),
         extend_log w (repeat (CallCreateOrder (order_args order))
                              (List.length attempts))).
Proof.
  induction attempts as [| i rest IH]; intros w Hnone.
  - cbn. now rewrite extend_log_nil.
  - rewrite create_order_attempts_step.
    rewrite (Hnone 0%nat ltac:(cbn; lia)).
    change {| rand_used := rand_used w; uuid_used := uuid_used w;
              api_log := api_log w ++ [CallCreateOrder (order_args order)] |}
      with (extend_log w [CallCreateOrder (order_args order)]).
    rewrite IH.
    + now rewrite extend_log_app.
    + intros k Hk. unfold extend_log. rewrite attempt_response_next.
      apply Hnone. cbn. lia.
Qed.

(** The two outcomes of placing one order. *)
Lemma create_order_outcome (E : env) (order : Order) (w : world) :
  (exists k,
     (k < 3)%nat /\
     create_order_with_retries E order w
       = (Ok (filled order),
          extend_log w (repeat (CallCreateOrder (order_args order)) (S k)))) \/
  ((forall k, (k < 3)%nat -> accepted (attempt_response E order w k) = false) /\
   create_order_with_retries E order w
     = (Ok (gave_up order),
        extend_log w (repeat (CallCreateOrder (order_args order)) 3))).
Proof.
  unfold create_order_with_retries. rewrite range_0_MAX_RETRIES.
  destruct (accepted (attempt_response E order w 0)) eqn:H0.
  { left. exists 0%nat. split; [lia|].
    apply create_order_attempts_first; [cbn; lia | exact H0 | intros; lia]. }
  destruct (accepted (attempt_response E order w 1)) eqn:H1.
  { left. exists 1%nat. split; [lia|].
    apply create_order_attempts_first; [cbn; lia | exact H1 |].
    intros j Hj. assert (j = 0%nat) by lia. now subst j. }
  destruct (accepted (attempt_response E order w 2)) eqn:H2.
  { left. exists 2%nat. split; [lia|].
    apply create_order_attempts_first; [cbn; lia | exact H2 |].
    intros j Hj. assert (j = 0 \/ j = 1)%nat as [-> | ->] by lia; assumption. }
  right.
  assert (Hnone : forall k, (k < 3)%nat ->
                            accepted (attempt_response E order w k) = false).
  { intros k Hk.
    assert (k = 0 \/ k = 1 \/ k = 2)%nat as [-> | [-> | ->]] by lia; assumption. }
  split; [exact Hnone|].
  now apply (create_order_attempts_none E order [0; 1; 2] w).
Qed.

Lemma attempt_calls_cons (o : Order) (n : nat) (l : list (Order * nat)) :
  attempt_calls ((o, n) :: l)
    = repeat (CallCreateOrder (order_args o)) n ++ attempt_calls l.
Proof. reflexivity. Qed.

(** The loop of [process_request] never raises: it attempts every order
    one to three times, in order, and adds up what was requested. *)
Lemma submit_orders_run (E : env) (os : list Order) :
  forall (st : CreationStatus) (w : world),
    exists st' ns,
      submit_orders E os st w
        = (Ok st', extend_log w (attempt_calls (combine os ns))) /\
      List.length ns = List.length os /\
      Forall (fun n => 1 <= n <= 3)%nat ns /\
      requested_base_quantity st'
        = fold_left fadd (map quantity os) (requested_base_quantity st).
Proof.
  induction os as [| o os IH]; intros st w.
  - exists st, []. cbn. rewrite extend_log_nil. auto.
  - cbn [submit_orders]. unfold bind at 1.
    destruct (create_order_outcome E o w) as [(k & Hk & Hr) | [_ Hr]];
      rewrite Hr;
      match goal with
      | |- context [submit_orders E os ?s ?w1] =>
          destruct (IH s w1) as (st' & ns & Hrun & Hlen & Hns & Hreq)
      end;
      rewrite Hrun, extend_log_app.
    + exists st', (S k :: ns). cbn [combine List.length map fold_left].
      rewrite attempt_calls_cons.
      repeat split; [now rewrite Hlen | constructor; [lia | exact Hns] | exact Hreq].
    + exists st', (3%nat :: ns). cbn [combine List.length map fold_left].
      rewrite attempt_calls_cons.
      repeat split; [now rewrite Hlen | constructor; [lia | exact Hns] | exact Hreq].
Qed.

Lemma process_request_bind (E : env) (req : Request) (w : world) :
  process_request E req w
    = bind (prepare_orders E req)
           (fun orders =>
              submit_orders E orders
                {| requested_base_quantity := Fin 0;
                   actual_base_quantity := Fin 0 |}) w.
Proof.
  unfold process_request, prepare_orders, bind.
  destruct (get_avg_price_with_retries E (req_symbol req) w) as [[a | e] w1];
    [|reflexivity].
  destruct (get_symbol_info_with_retries E (req_symbol req) w1) as [[c | e] w2];
    [|reflexivity].
  destruct (generate_orders_call E req a c w2) as [[os | e] w3]; reflexivity.
Qed.

(** X19: once the orders are generated, [process_request] returns a
    status whatever the exchange answers: every order is attempted one
    to three times, in the order of the list, and the requested quantity
    is the sum of all quantities, added as floats from the left. *)
Theorem process_request_submits (E : env) (req : Request) (w : world)
    (os : list Order) (w1 : world) :
  prepare_orders E req w = (Ok os, w1) ->
  exists st ns,
    process_request E req w
      = (Ok st, extend_log w1 (attempt_calls (combine os ns))) /\
    List.length ns = List.length os /\
    Forall (fun n => 1 <= n <= 3)%nat ns /\
    requested_base_quantity st = float_total (map quantity os).
Proof.
  intros Hprep. rewrite process_request_bind. unfold bind. rewrite Hprep.
  apply submit_orders_run.
Qed.

Lemma process_request_submits_witness :
  exists os w1,
    prepare_orders flaky_env sample_request initial_world = (Ok os, w1) /\
    exists st ns,
      process_request flaky_env sample_request initial_world
        = (Ok st, extend_log w1 (attempt_calls (combine os ns))) /\
      List.length ns = List.length os /\
      Forall (fun n => 1 <= n <= 3)%nat ns /\
      requested_base_quantity st = float_total (map quantity os).
Proof.
  destruct (prepare_orders flaky_env sample_request initial_world)
    as [[os | e] w1] eqn:Hprep.
  - exists os, w1. split; [reflexivity|].
    exact (process_request_submits _ _ _ _ _ Hprep).
  - exfalso. revert Hprep. vm_compute. discriminate.
Defined.

Lemma create_order_accepted_at_once (E : env) (order : Order) (w : world) :
  always_accepts E ->
  create_order_with_retries E order w
    = (Ok (filled order), extend_log w [CallCreateOrder (order_args order)]).
Proof.
  intros Hacc. unfold create_order_with_retries. rewrite range_0_MAX_RETRIES.
  apply (create_order_attempts_first E order 0);
    [cbn; lia | apply Hacc | intros; lia].
Qed.

Lemma submit_orders_all_accepted (E : env) (os : list Order) :
  always_accepts E ->
  forall (st : CreationStatus) (w : world),
    submit_orders E os st w
      = (Ok {| requested_base_quantity :=
                 fold_left fadd (map quantity os) (requested_base_quantity st);
               actual_base_quantity :=
                 fold_left fadd (map quantity os) (actual_base_quantity st) |},
         extend_log w (map (fun o => CallCreateOrder (order_args o)) os)).
Proof.
  intros Hacc. induction os as [| o os IH]; intros st w.
  - cbn. rewrite extend_log_nil. now destruct st.
  - cbn [submit_orders]. unfold bind at 1.
    rewrite (create_order_accepted_at_once E o w Hacc), IH, extend_log_app.
    reflexivity.
Qed.

Lemma fuzzy_equals_same (q : Q) :
  fuzzy_equals (Fin q) (Fin q) default_tolerance = true.
Proof.
  unfold fuzzy_equals. cbn [fsub fneg fadd].
  assert (Ez : (q + - q == 0)%Q) by ring.
  rewrite (round64_comp _ _ Ez). vm_compute. reflexivity.
Qed.

(** X20: when the exchange accepts every order at the first attempt,
    [process_request] makes exactly one call per generated order, in
    order, and the status it returns has equal requested and actual
    quantities, so that [is_ok()] holds whenever the total is finite. *)
Theorem process_request_all_accepted (E : env) (req : Request) (w : world)
    (os : list Order) (w1 : world) :
  always_accepts E ->
  prepare_orders E req w = (Ok os, w1) ->
  exists st,
    process_request E req w
      = (Ok st, extend_log w1 (map (fun o => CallCreateOrder (order_args o)) os)) /\
    requested_base_quantity st = float_total (map quantity os) /\
    actual_base_quantity st = requested_base_quantity st /\
    (is_finite (requested_base_quantity st) = true -> is_ok st = true).
Proof.
  intros Hacc Hprep. rewrite process_request_bind. unfold bind. rewrite Hprep.
  rewrite (submit_orders_all_accepted E os Hacc).
  eexists. split; [reflexivity|]. cbn [requested_base_quantity actual_base_quantity].
  split; [reflexivity|]. split; [reflexivity|].
  unfold is_ok. cbn [requested_base_quantity actual_base_quantity].
  fold (float_total (map quantity os)).
  destruct (float_total (map quantity os)) as [q | s |]; cbn [is_finite];
    try discriminate.
  intros _. apply fuzzy_equals_same.
Qed.

Lemma process_request_all_accepted_witness :
  exists os w1,
    prepare_orders sample_env sample_request initial_world = (Ok os, w1) /\
    exists st,
      process_request sample_env sample_request initial_world
        = (Ok st,
           extend_log w1 (map (fun o => CallCreateOrder (order_args o)) os)) /\
      requested_base_quantity st = float_total (map quantity os) /\
      actual_base_quantity st = requested_base_quantity st /\
      (is_finite (requested_base_quantity st) = true -> is_ok st = true).
Proof.
  destruct (prepare_orders sample_env sample_request initial_world)
    as [[os | e] w1] eqn:Hprep.
  - exists os, w1. split; [reflexivity|].
    apply (process_request_all_accepted sample_env sample_request initial_world
             os w1); [|exact Hprep].
    intros n args. reflexivity.
  - exfalso. revert Hprep. vm_compute. discriminate.
Defined.

Lemma create_order_refused (E : env) (order : Order) (w : world) :
  never_accepts E ->
  create_order_with_retries E order w
    = (Ok (gave_up order),
       extend_log w (repeat (CallCreateOrder (order_args order)) 3)).
Proof.
  intros Hnone. unfold create_order_with_retries. rewrite range_0_MAX_RETRIES.
  apply (create_order_attempts_none E order [0; 1; 2]).
  intros k _. apply Hnone.
Qed.

Lemma fold_fadd_zeros (A : Type) (l : list A) :
  fold_left fadd (map (fun _ => Fin 0) l) (Fin 0) = Fin 0.
Proof.
  induction l as [| a l IH]; [reflexivity|]. cbn [map fold_left].
  replace (fadd (Fin 0) (Fin 0)) with (Fin 0) by (vm_compute; reflexivity).
  exact IH.
Qed.

Lemma submit_orders_all_refused (E : env) (os : list Order) :
  never_accepts E ->
  forall (st : CreationStatus) (w : world),
    submit_orders E os st w
      = (Ok {| requested_base_quantity :=
                 fold_left fadd (map quantity os) (requested_base_quantity st);
               actual_base_quantity :=
                 fold_left fadd (map (fun _ => Fin 0) os)
                           (actual_base_quantity st) |},
         extend_log w
           (flat_map (fun o => repeat (CallCreateOrder (order_args o)) 3) os)).
Proof.
  intros Hnone. induction os as [| o os IH]; intros st w.
  - cbn. rewrite extend_log_nil. now destruct st.
  - cbn [submit_orders]. unfold bind at 1.
    rewrite (create_order_refused E o w Hnone), IH, extend_log_app.
    reflexivity.
Qed.

(** X21: when the exchange refuses every attempt, [process_request]
    still returns: it has tried every generated order three times, and
    reports the whole quantity as requested and exactly [0.] as placed. *)
Theorem process_request_all_refused (E : env) (req : Request) (w : world)
    (os : list Order) (w1 : world) :
  never_accepts E ->
  prepare_orders E req w = (Ok os, w1) ->
  exists st,
    process_request E req w
      = (Ok st,
         extend_log w1
           (flat_map (fun o => repeat (CallCreateOrder (order_args o)) 3) os)) /\
    requested_base_quantity st = float_total (map quantity os) /\
    actual_base_quantity st = Fin 0.
Proof.
  intros Hnone Hprep. rewrite process_request_bind. unfold bind. rewrite Hprep.
  rewrite (submit_orders_all_refused E os Hnone).
  eexists. split; [reflexivity|]. cbn [requested_base_quantity actual_base_quantity].
  split; [reflexivity|]. apply fold_fadd_zeros.
Qed.

Lemma process_request_all_refused_witness :
  exists os w1,
    prepare_orders refusing_env sample_request initial_world = (Ok os, w1) /\
    exists st,
      process_request refusing_env sample_request initial_world
        = (Ok st,
           extend_log w1
             (flat_map (fun o => repeat (CallCreateOrder (order_args o)) 3) os)) /\
      requested_base_quantity st = float_total (map quantity os) /\
      actual_base_quantity st = Fin 0.
Proof.
  destruct (prepare_orders refusing_env sample_request initial_world)
    as [[os | e] w1] eqn:Hprep.
  - exists os, w1. split; [reflexivity|].
    apply (process_request_all_refused refusing_env sample_request initial_world
             os w1); [|exact Hprep].
    intros n args. reflexivity.
  - exfalso. revert Hprep. vm_compute. discriminate.
Defined.

Lemma generate_orders_call_frame (E : env) (req : Request)
    (avg_price : option float) (c : option Constraints) (w : world)
    (r : result (list Order)) (w' : world) :
  generate_orders_call E req avg_price c w = (r, w') -> api_log w' = api_log w.
Proof.
  unfold generate_orders_call. destruct avg_price as [avg |].
  - destruct c as [c |].
    + intros H. now apply generate_orders_frame in H.
    + unfold bind, lift, raise. destruct (fdiv (usd_vol req) avg); congruence.
  - unfold raise. congruence.
Qed.

(** The two queries and the generation only ever add queries to the
    log, never an order. *)
Lemma prepare_orders_frame (E : env) (req : Request) (w : world)
    (r : result (list Order)) (w' : world) :
  prepare_orders E req w = (r, w') ->
  exists calls,
    api_log w' = api_log w ++ calls /\
    Forall (fun c => is_create_order c = false) calls.
Proof.
  unfold prepare_orders, bind, get_avg_price_with_retries,
    get_symbol_info_with_retries.
  destruct (get_avg_price_attempts_run E (req_symbol req) (range 0 MAX_RETRIES) w)
    as (r1 & calls1 & Hr1 & Hq1).
  rewrite Hr1.
  destruct (get_symbol_info_attempts_run E (req_symbol req) (range 0 MAX_RETRIES)
              (extend_log w calls1)) as (r2 & calls2 & Hr2 & Hq2).
  rewrite Hr2. intros Hgen. apply generate_orders_call_frame in Hgen.
  exists (calls1 ++ calls2). split.
  - rewrite Hgen. cbn [extend_log api_log]. now rewrite app_assoc.
  - apply Forall_app. split; assumption.
Qed.

(** X22: [process_request] raises only out of the generation of the
    orders, never out of a call to the exchange; and when it raises, it
    has sent queries only: no order reached the exchange. *)
Theorem process_request_raises_before_orders (E : env) (req : Request)
    (w : world) (e : exn) (w' : world) :
  process_request E req w = (Raise e, w') ->
  prepare_orders E req w = (Raise e, w') /\
  exists calls,
    api_log w' = api_log w ++ calls /\
    Forall (fun c => is_create_order c = false) calls.
Proof.
  rewrite process_request_bind. unfold bind.
  destruct (prepare_orders E req w) as [[os | e0] w1] eqn:Hprep.
  - destruct (submit_orders_run E os
                {| requested_base_quantity := Fin 0;
                   actual_base_quantity := Fin 0 |} w1)
      as (st' & ns & Hrun & _).
    rewrite Hrun. discriminate.
  - intros H. assert (e0 = e) by congruence. assert (w1 = w') by congruence.
    subst. split; [reflexivity|]. now apply prepare_orders_frame in Hprep.
Qed.

Lemma process_request_raises_before_orders_witness :
  exists e w',
    process_request sample_env zero_splits_request initial_world = (Raise e, w') /\
    prepare_orders sample_env zero_splits_request initial_world = (Raise e, w') /\
    exists calls,
      api_log w' = api_log initial_world ++ calls /\
      Forall (fun c => is_create_order c = false) calls.
Proof.
  destruct (process_request sample_env zero_splits_request initial_world)
    as [[st | e] w'] eqn:Hrun.
  - exfalso. revert Hrun. vm_compute. discriminate.
  - exists e, w'. split; [reflexivity|].
    exact (process_request_raises_before_orders _ _ _ _ _ Hrun).
Defined.

(** X23: an average price of zero makes [process_request] raise
    [ZeroDivisionError] at the first division of [generate_orders],
    whether or not the constraints could be retrieved, and before any
    order is sent. *)
Theorem process_request_zero_price (E : env) (req : Request) (w : world)
    (avg_price : float) :
  avg_price_attempt E (req_symbol req) (List.length (api_log w)) = Ok avg_price ->
  is_zero avg_price = true ->
  exists calls,
    process_request E req w = (Raise ZeroDivisionError, extend_log w calls) /\
    Forall (fun c => is_create_order c = false) calls.
Proof.
  intros Havg Hzero.
  assert (Hprice : get_avg_price_with_retries E (req_symbol req) w
                   = (Ok (Some avg_price),
                      extend_log w [CallGetAvgPrice (req_symbol req)])).
  { unfold get_avg_price_with_retries. rewrite range_0_MAX_RETRIES.
    apply (get_avg_price_attempts_first E (req_symbol req) avg_price 0);
      [cbn; lia | now rewrite Nat.add_0_r | intros; lia]. }
  destruct (get_symbol_info_attempts_run E (req_symbol req) (range 0 MAX_RETRIES)
              (extend_log w [CallGetAvgPrice (req_symbol req)]))
    as (r2 & calls2 & Hr2 & Hq2).
  exists ([CallGetAvgPrice (req_symbol req)] ++ calls2). split.
  - unfold process_request, bind. rewrite Hprice.
    unfold get_symbol_info_with_retries. rewrite Hr2, extend_log_app.
    destruct r2 as [c |]; cbn [generate_orders_call];
      unfold generate_orders, bind, lift, fdiv; rewrite Hzero; reflexivity.
  - constructor; [reflexivity | exact Hq2].
Qed.

Lemma process_request_zero_price_witness :
  exists calls,
    process_request zero_price_env sample_request initial_world
      = (Raise ZeroDivisionError, extend_log initial_world calls) /\
    Forall (fun c => is_create_order c = false) calls.
Proof.
  apply (process_request_zero_price zero_price_env sample_request initial_world
           (Fin 0)); reflexivity.
Defined.

(** * The status check *)

Section StatusCheck.

Local Open Scope Q_scope.

Lemma rnd_opp (z : Q) : rnd (- z) == - rnd z.
Proof.
  destruct (Q_dec z 0) as [[Hneg | Hpos] | Hzero].
  - rewrite (rnd_of_neg z Hneg), (rnd_of_pos (- z)) by lra. ring.
  - rewrite (rnd_of_pos z Hpos), (rnd_of_neg (- z)) by lra.
    rewrite (rnd_pos_comp (- - z) z) by ring. reflexivity.
  - rewrite (rnd_zero z Hzero), (rnd_zero (- z)) by lra. reflexivity.
Qed.

(** Rounding commutes with the sign, so the magnitude of a rounded
    value does not depend on it. *)
Lemma fle_fabs_round64_opp (z : Q) (tolerance : float) :
  fle (fabs (round64 (- z))) tolerance = fle (fabs (round64 z)) tolerance.
Proof.
  unfold round64. pose proof (rnd_opp z) as Hb.
  set (a := rnd z) in *. set (b := rnd (- z)) in *.
  assert (H1 : Qle_bool huge b = Qle_bool a (- huge)).
  { apply eq_true_iff_eq. rewrite !Qle_bool_iff. split; intros; lra. }
  assert (H2 : Qle_bool b (- huge) = Qle_bool huge a).
  { apply eq_true_iff_eq. rewrite !Qle_bool_iff. split; intros; lra. }
  rewrite H1, H2.
  destruct (Qle_bool huge a), (Qle_bool a (- huge)); try reflexivity.
  cbn [fabs]. destruct tolerance as [t | s |]; try reflexivity.
  cbn [fle]. apply Qleb_comp; [|reflexivity].
  rewrite Hb. apply Qabs_opp.
Qed.

End StatusCheck.

(** X24: a status whose requested and actual quantities are the same
    float is ok exactly when that float is finite: two equal infinities,
    or two NaNs, are not ok, since their difference is NaN. *)
Theorem is_ok_of_equal_quantities (a : float) :
  is_ok {| requested_base_quantity := a; actual_base_quantity := a |}
    = is_finite a.
Proof.
  unfold is_ok. cbn [requested_base_quantity actual_base_quantity].
  destruct a as [q | s |].
  - apply fuzzy_equals_same.
  - destruct s; reflexivity.
  - reflexivity.
Qed.

(** X25: [fuzzy_equals] does not depend on the order of the two values
    compared, for every tolerance and for infinities and NaN as well. *)
Theorem fuzzy_equals_symmetric (a b tolerance : float) :
  fuzzy_equals a b tolerance = fuzzy_equals b a tolerance.
Proof.
  unfold fuzzy_equals.
  destruct a as [x | s |], b as [y | t |]; try reflexivity.
  - cbn [fsub fneg fadd].
    assert (E : (y + - x == - (x + - y))%Q) by ring.
    rewrite (round64_comp _ _ E). symmetry. apply fle_fabs_round64_opp.
  - destruct s, t; reflexivity.
Qed.

Section Tolerance.

Local Open Scope Q_scope.

Lemma default_tolerance_value :
  exists t, default_tolerance = Fin t /\
            9 # 1000000000 <= t /\ t <= 3 # 200000000.
Proof.
  exists (rnd (1 # 100000000)). split.
  - unfold default_tolerance. apply round64_fin. vm_compute. discriminate.
  - assert (Hb : Qabs (1 # 100000000) <= 1 # 100000000) by (vm_compute; discriminate).
    pose proof (rnd_near _ _ Hb) as [R0 R1].
    assert (U : u53 <= 1 # 1000) by (vm_compute; discriminate).
    assert (U0 : 0 <= u53) by (vm_compute; discriminate).
    assert (Et : eta <= 1 # 1000000000000) by (vm_compute; discriminate).
    split; lra.
Qed.

(** How the check rates an order of which nothing was placed. *)
Lemma fuzzy_equals_zero (q : Q) :
  (Qabs q <= 1 # 200000000 ->
   fuzzy_equals (Fin q) (Fin 0) default_tolerance = true) /\
  (1 # 50000000 < Qabs q ->
   fuzzy_equals (Fin q) (Fin 0) default_tolerance = false).
Proof.
  destruct default_tolerance_value as (t & Ht & T0 & T1).
  assert (U : u53 <= 1 # 1000) by (vm_compute; discriminate).
  assert (U0 : 0 <= u53) by (vm_compute; discriminate).
  assert (Et : eta <= 1 # 1000000000000) by (vm_compute; discriminate).
  assert (Et0 : 0 <= eta) by (vm_compute; discriminate).
  unfold fuzzy_equals. rewrite Ht. cbn [fsub fneg fadd].
  assert (Eq : q + - 0 == q) by ring.
  rewrite (round64_comp _ _ Eq).
  split; intros Hq.
  - rewrite round64_fin.
    2:{ eapply Qle_trans; [exact Hq|]. vm_compute. discriminate. }
    cbn [fabs fle]. apply Qle_bool_iff.
    pose proof (rnd_near _ _ Hq) as [R0 R1].
    apply Qabs_Qle_condition in Hq. destruct Hq as [Q0 Q1].
    apply Qabs_Qle_condition. split; lra.
  - unfold round64.
    destruct (Qle_bool huge (rnd q)); [reflexivity|].
    destruct (Qle_bool (rnd q) (- huge)); [reflexivity|].
    cbn [fabs fle].
    destruct (Qle_bool (Qabs (rnd q)) t) eqn:Hle; [exfalso | reflexivity].
    apply Qle_bool_iff in Hle.
    pose proof (rnd_abs_error q) as Herr.
    pose proof (Qabs_triangle_reverse q (rnd q)) as Htri.
    rewrite Qabs_Qminus in Htri.
    pose proof (Qabs_nonneg q) as A0.
    set (A := Qabs q) in *. set (R := Qabs (rnd q)) in *.
    set (D := Qabs (rnd q - q)) in *.
    assert (UA : u53 * A <= (1 # 1000) * A).
    { apply Qmult_le_compat_r; assumption. }
    lra.
Qed.

End Tolerance.

(** X26: the status of an order that was given up, measured with the
    absolute tolerance of [1e-8]: it is not ok when the order's quantity
    exceeds [2e-8] in magnitude, but passes as ok when the quantity is at
    most [5e-9]. *)
Theorem is_ok_of_unplaced_order (order : Order) (q : Q) :
  quantity order = Fin q ->
  ((1 # 50000000 < Qabs q)%Q -> is_ok (gave_up order) = false) /\
  ((Qabs q <= 1 # 200000000)%Q -> is_ok (gave_up order) = true).
Proof.
  intros Hq. unfold is_ok, gave_up.
  cbn [requested_base_quantity actual_base_quantity]. rewrite Hq.
  destruct (fuzzy_equals_zero q) as [Hsmall Hlarge]. split; assumption.
Qed.

Lemma is_ok_of_unplaced_order_witness :
  ((1 # 50000000 < Qabs (1 # 4))%Q -> is_ok (gave_up sample_order) = false) /\
  ((Qabs (1 # 4) <= 1 # 200000000)%Q -> is_ok (gave_up sample_order) = true).
Proof.
  apply (is_ok_of_unplaced_order sample_order (1 # 4)). reflexivity.
Defined.

(** * The nominal run of [process_request] *)

(** X27: when both queries succeed at the first attempt and the request
    and constraints are in the range where the generator is known to
    return (at least [splits] quantity steps, with
    [T * splits <= 2 ^ 50]; step sizes of moderate size; price bounds
    that quantize to step counts [a <= b] of at most 53 bits; a defined
    [log10] of the price step), [process_request] returns a status: it
    makes the two queries, then attempts each of the [splits] orders one
    to three times, and reports the sum of their quantities as
    requested. *)
Theorem process_request_returns (E : env) (req : Request) (w : world)
    (avg_price : float) (c : Constraints) (T D a b n : Z) (sv pv : Q) :
  avg_price_attempt E (req_symbol req) (List.length (api_log w)) = Ok avg_price ->
  symbol_info_attempt E (req_symbol req) (S (List.length (api_log w))) = Ok c ->
  int_base_quantity req avg_price c = Ok T ->
  int_base_quantity_diff req avg_price c = Ok D ->
  1 <= splits req <= T -> T * splits req <= 2 ^ 50 -> 0 <= D ->
  quantity_step_size c = Fin sv -> (Qabs sv <= 2 ^ 900)%Q ->
  price_step_size c = Fin pv -> (Qabs pv <= 2 ^ 900)%Q ->
  step_count (min_price req) (price_step_size c) = Ok a ->
  step_count (max_price req) (price_step_size c) = Ok b ->
  - 2 ^ 53 <= a -> a <= b -> b <= 2 ^ 53 ->
  price_digits E (price_step_size c) = Ok n ->
  exists st os ns w',
    process_request E req w = (Ok st, w') /\
    api_log w'
      = api_log w
        ++ [CallGetAvgPrice (req_symbol req); CallGetSymbolInfo (req_symbol req)]
        ++ attempt_calls (combine os ns) /\
    Z.of_nat (List.length os) = splits req /\
    List.length ns = List.length os /\
    Forall (fun k => 1 <= k <= 3)%nat ns /\
    requested_base_quantity st = float_total (map quantity os).
Proof.
  intros Havg Hinfo HT HD HP Hsize HD0 Hqs Bqs Hps Bps Hmin Hmax Ha Hab Hb Hdig.
  set (sym := req_symbol req) in *.
  set (w1 := extend_log w [CallGetAvgPrice sym]).
  set (w2 := extend_log w1 [CallGetSymbolInfo sym]).
  assert (Hprice : get_avg_price_with_retries E sym w = (Ok (Some avg_price), w1)).
  { unfold get_avg_price_with_retries. rewrite range_0_MAX_RETRIES.
    apply (get_avg_price_attempts_first E sym avg_price 0);
      [cbn; lia | now rewrite Nat.add_0_r | intros; lia]. }
  assert (Hcons : get_symbol_info_with_retries E sym w1 = (Ok (Some c), w2)).
  { unfold get_symbol_info_with_retries. rewrite range_0_MAX_RETRIES.
    apply (get_symbol_info_attempts_first E sym c 0); [cbn; lia | | intros; lia].
    unfold w1. cbn [extend_log api_log]. rewrite length_app, Nat.add_0_r.
    cbn [List.length]. rewrite Nat.add_1_r. exact Hinfo. }
  destruct (generate_orders_run E req avg_price c w2 T D a b n sv pv
              HT HD HP Hsize HD0 Hqs Bqs Hps Bps Hmin Hmax Ha Hab Hb Hdig)
    as (ks & os & w3 & Hrun & Hlen & _ & _ & _ & Hbatch & Hlog & _).
  pose proof (batch_made_length _ _ _ _ _ _ _ _ Hbatch) as Hlos.
  assert (Hprep : prepare_orders E req w = (Ok os, w3)).
  { unfold prepare_orders, bind. fold sym. rewrite Hprice, Hcons.
    cbn [generate_orders_call]. exact Hrun. }
  destruct (submit_orders_run E os
              {| requested_base_quantity := Fin 0;
                 actual_base_quantity := Fin 0 |} w3)
    as (st & ns & Hsub & Hns & Hbounds & Hreq).
  exists st, os, ns, (extend_log w3 (attempt_calls (combine os ns))).
  split; [|split; [|split; [|split; [|split]]]].
  - rewrite process_request_bind. unfold bind. rewrite Hprep. exact Hsub.
  - cbn [extend_log api_log]. rewrite Hlog. unfold w2, w1.
    cbn [extend_log api_log]. rewrite <- !app_assoc. reflexivity.
  - lia.
  - exact Hns.
  - exact Hbounds.
  - exact Hreq.
Qed.

Lemma process_request_returns_witness :
  exists st os ns w',
    process_request sample_env sample_request initial_world = (Ok st, w') /\
    api_log w'
      = api_log initial_world
        ++ [CallGetAvgPrice (req_symbol sample_request);
            CallGetSymbolInfo (req_symbol sample_request)]
        ++ attempt_calls (combine os ns) /\
    Z.of_nat (List.length os) = splits sample_request /\
    List.length ns = List.length os /\
    Forall (fun k => 1 <= k <= 3)%nat ns /\
    requested_base_quantity st = float_total (map quantity os).
Proof.
  apply (process_request_returns sample_env sample_request initial_world
           (Fin 3) sample_constraints 196 19 28 57 3
           (rnd (17 # 1000)) (rnd (7 # 100)));
    try (vm_compute; reflexivity); try (vm_compute; discriminate).
  split; vm_compute; discriminate.
Defined.
